(** * Yuka ray casting: [Ray] and [Obstacle] (src/math/Ray.js)

    A shallow embedding of the ray/sphere, ray/AABB and ray/triangle tests of
    [Ray] and of the broad-phase/narrow-phase query [Obstacle.intersectRay].

    - JavaScript numbers are kept behind the interface [Number]; the code is
      written once against it.  The instance [F64] is IEEE binary64 (the
      kernel's primitive floats), which is what a JavaScript engine computes.
      The instance [XQ] is the same arithmetic without rounding: rationals
      extended by a negative zero, the two infinities and NaN.
    - The module-level scratch vectors of Ray.js and Obstacle.js and the
      caller's [result] vector live in a store indexed by [loc]; every method
      is a state-passing function over that store.
    - Rays, triangles, spheres and boxes handed to a method are read-only
      there and are passed by value; the vector passed as [result] is assumed
      not to be one of the vectors of the ray or of the shape. *)

From Stdlib Require Import Bool List Arith ZArith QArith Lia Lqa Floats.
Import ListNotations.
Close Scope Q_scope.

Set Implicit Arguments.

(** ** JavaScript numbers *)

(** The operations the source applies to numbers.  [ltb a b] is [a < b] (and
    [b > a]), [leb a b] is [a <= b] (and [b >= a]), [eqb a b] is [a === b];
    [NaN] is also what arithmetic makes of [undefined]. *)
Class Number : Type := {
  num : Type;
  Zero : num;
  One : num;
  NaN : num;
  neg : num -> num;
  add : num -> num -> num;
  sub : num -> num -> num;
  mul : num -> num -> num;
  div : num -> num -> num;
  ltb : num -> num -> bool;
  leb : num -> num -> bool;
  eqb : num -> num -> bool
}.

(** [Math.sqrt]. *)
Class Sqrt (N : Number) : Type := { sqrt : num -> num }.

(** What the proofs use of the comparisons; both hold of IEEE comparisons,
    NaN included. *)
Class NumberLaws (N : Number) : Prop := {
  ltb_asym : forall a b : num, ltb a b = true -> ltb b a = false;
  eqb_not_ltb : forall a b : num, eqb a b = true -> ltb a b = false /\ ltb b a = false;
  leb_not_gtb : forall a b : num, leb a b = true -> ltb b a = false;
  ltb_not_geb : forall a b : num, ltb a b = true -> leb b a = false
}.

Declare Scope num_scope.
Delimit Scope num_scope with num.
Bind Scope num_scope with num.
Notation "- a" := (neg a) : num_scope.
Infix "+" := add : num_scope.
Infix "-" := sub : num_scope.
Infix "*" := mul : num_scope.
Infix "/" := div : num_scope.
Notation "a <? b" := (ltb a b) : num_scope.
Notation "a >? b" := (ltb b a) : num_scope.
Notation "a >=? b" := (leb b a) : num_scope.
Notation "a !== b" := (negb (eqb a b)) (at level 70, no associativity) : num_scope.

(** IEEE binary64. *)
#[export] Instance F64 : Number := {|
  num := float;
  Zero := PrimFloat.zero;
  One := PrimFloat.one;
  NaN := PrimFloat.nan;
  neg := PrimFloat.opp;
  add := PrimFloat.add;
  sub := PrimFloat.sub;
  mul := PrimFloat.mul;
  div := PrimFloat.div;
  ltb := PrimFloat.ltb;
  leb := PrimFloat.leb;
  eqb := PrimFloat.eqb
|}.

#[export] Instance F64_sqrt : Sqrt F64 := {| sqrt := PrimFloat.sqrt |}.

(** ** Vector3 *)

Module Vector3.
Section Ops.
Context {N : Number}.
Local Open Scope num_scope.

(** Modelled from the spec: Vector3.js is not under src/.  Section 2 of the
    spec names it "3D vector arithmetic"; a vector is its three coordinates. *)
Record t : Type := mk { x : num; y : num; z : num }.

(** The methods Ray.js and Obstacle.js call.  A method that mutates [this]
    is the function from the old value of [this] to the new one. *)

(** Modelled from the spec: [set( x, y, z )] assigns the coordinates. *)
Definition set (_ : t) (x0 y0 z0 : num) : t := mk x0 y0 z0.

(** Modelled from the spec: [copy( v )] assigns the coordinates of [v]. *)
Definition copy (_ : t) (v : t) : t := mk (x v) (y v) (z v).

(** Modelled from the spec: [add( v )] adds [v] to [this]. *)
Definition add (this v : t) : t :=
  mk (x this + x v) (y this + y v) (z this + z v).

(** Modelled from the spec: [multiplyScalar( s )] scales [this] by [s]. *)
Definition multiplyScalar (this : t) (s : num) : t :=
  mk (x this * s) (y this * s) (z this * s).

(** Modelled from the spec: [subVectors( a, b )] assigns [a - b]. *)
Definition subVectors (_ : t) (a b : t) : t :=
  mk (x a - x b) (y a - y b) (z a - z b).

(** Modelled from the spec: [dot( v )], the three products summed from left
    to right. *)
Definition dot (this v : t) : num :=
  (x this * x v) + (y this * y v) + (z this * z v).

(** Modelled from the spec: [crossVectors( a, b )] assigns [a x b]; its
    arguments are read before [this] is written, so one of them may be
    [this]. *)
Definition crossVectors (_ : t) (a b : t) : t :=
  mk ((y a * z b) - (z a * y b))
     ((z a * x b) - (x a * z b))
     ((x a * y b) - (y a * x b)).

(** Modelled from the spec: [cross( v )] assigns [this x v]. *)
Definition cross (this v : t) : t := crossVectors this this v.
End Ops.
Arguments t {N}.
End Vector3.

(** ** The shapes *)

Module Triangle.
(** The object [{ a, b, c }] of Obstacle.js. *)
Record t {N : Number} : Type := mk { a : Vector3.t; b : Vector3.t; c : Vector3.t }.
End Triangle.

Module AABB.
(** Modelled from the spec: AABB.js is not under src/.  Section 3 of the spec
    gives a box as its two corners. *)
Record t {N : Number} : Type := mk { min : Vector3.t; max : Vector3.t }.

(** Modelled from the spec: [copy( aabb )] copies the two corners of the
    given box into the corners of [this]. *)
Definition copy {N : Number} (this aabb : t) : t :=
  mk (Vector3.copy (min this) (min aabb)) (Vector3.copy (max this) (max aabb)).
End AABB.

Module BoundingSphere.
(** Modelled from the spec: BoundingSphere.js is not under src/.  Section 3 of
    the spec gives a sphere as its center and its radius. *)
Record t {N : Number} : Type := mk { center : Vector3.t; radius : num }.
End BoundingSphere.

(** ** The store *)

(** The vector objects the two modules write: the scratch vectors of Ray.js
    ([v1], [edge1], [edge2], [normal]), those of Obstacle.js (the box [aabb],
    the [triangle] and [intersectionPointAABB]) and the vector the caller
    passes as [result]. *)
Inductive loc : Set :=
| v1 | edge1 | edge2 | normal
| aabb_min | aabb_max
| triangle_a | triangle_b | triangle_c
| intersectionPointAABB
| result.

Definition loc_index (l : loc) : nat :=
  match l with
  | v1 => 0 | edge1 => 1 | edge2 => 2 | normal => 3
  | aabb_min => 4 | aabb_max => 5
  | triangle_a => 6 | triangle_b => 7 | triangle_c => 8
  | intersectionPointAABB => 9
  | result => 10
  end.

Definition loc_eqb (l l' : loc) : bool := Nat.eqb (loc_index l) (loc_index l').

Section Store.
Context {N : Number}.

Definition Store : Type := loc -> Vector3.t.

Definition upd (l : loc) (v : Vector3.t) (s : Store) : Store :=
  fun l' => if loc_eqb l l' then v else s l'.

(** Methods are state-passing functions. *)
Definition M (A : Type) : Type := Store -> A * Store.

Definition ret {A} (a : A) : M A := fun s => (a, s).

Definition bind {A B} (m : M A) (k : A -> M B) : M B :=
  fun s => let (a, s') := m s in k a s'.

Definition read (l : loc) : M Vector3.t := fun s => (s l, s).

(** [l.method(args)] for a method that mutates [this] and returns it. *)
Definition call (l : loc) (method : Vector3.t -> Vector3.t) : M loc :=
  fun s => (l, upd l (method (s l)) s).
End Store.

Notation "x <- m ;; k" := (bind m (fun x => k))
  (at level 61, m at next level, right associativity).
Notation "m ;; k" := (bind m (fun _ => k))
  (at level 61, right associativity).

(** ** Ray *)

Module Ray.
Section Methods.
Context {N : Number}.
Local Open Scope num_scope.

Record t : Type := mk { origin : Vector3.t; direction : Vector3.t }.

(** [at( t, result )]: the name [at] is reserved in Rocq. *)
Definition at_ (this : t) (t0 : num) (result : loc) : M loc :=
  call result (fun r => Vector3.copy r (direction this)) ;;
  call result (fun r => Vector3.multiplyScalar r t0) ;;
  call result (fun r => Vector3.add r (origin this)).

Definition intersectBoundingSphere {S : Sqrt N} (this : t)
    (sphere : BoundingSphere.t) (result : loc) : M (option loc) :=
  call v1 (fun r => Vector3.subVectors r (BoundingSphere.center sphere) (origin this)) ;;
  v <- read v1 ;;
  let tca := Vector3.dot v (direction this) in
  let d2 := Vector3.dot v v - tca * tca in
  let radius2 := BoundingSphere.radius sphere * BoundingSphere.radius sphere in
  if d2 >? radius2 then ret None else
  let thc := sqrt (radius2 - d2) in
  let t0 := tca - thc in
  let t1 := tca + thc in
  (* both t0 and t1 are behind the ray *)
  if (t0 <? Zero) && (t1 <? Zero) then ret None else
  (* t0 is behind the ray: the ray is inside the sphere *)
  if t0 <? Zero then r <- at_ this t1 result ;; ret (Some r) else
  r <- at_ this t0 result ;; ret (Some r).

Definition intersectAABB (this : t) (aabb : AABB.t) (result : loc)
    : M (option loc) :=
  let invdirx := One / Vector3.x (direction this) in
  let invdiry := One / Vector3.y (direction this) in
  let invdirz := One / Vector3.z (direction this) in
  let origin := origin this in
  let (tmin, tmax) :=
    if invdirx >=? Zero
    then ((Vector3.x (AABB.min aabb) - Vector3.x origin) * invdirx,
          (Vector3.x (AABB.max aabb) - Vector3.x origin) * invdirx)
    else ((Vector3.x (AABB.max aabb) - Vector3.x origin) * invdirx,
          (Vector3.x (AABB.min aabb) - Vector3.x origin) * invdirx) in
  let (tymin, tymax) :=
    if invdiry >=? Zero
    then ((Vector3.y (AABB.min aabb) - Vector3.y origin) * invdiry,
          (Vector3.y (AABB.max aabb) - Vector3.y origin) * invdiry)
    else ((Vector3.y (AABB.max aabb) - Vector3.y origin) * invdiry,
          (Vector3.y (AABB.min aabb) - Vector3.y origin) * invdiry) in
  if (tmin >? tymax) || (tymin >? tmax) then ret None else
  (* these lines also handle the case where tmin or tmax is NaN *)
  let tmin := if (tymin >? tmin) || (tmin !== tmin) then tymin else tmin in
  let tmax := if (tymax <? tmax) || (tmax !== tmax) then tymax else tmax in
  let (tzmin, tzmax) :=
    if invdirz >=? Zero
    then ((Vector3.z (AABB.min aabb) - Vector3.z origin) * invdirz,
          (Vector3.z (AABB.max aabb) - Vector3.z origin) * invdirz)
    else ((Vector3.z (AABB.max aabb) - Vector3.z origin) * invdirz,
          (Vector3.z (AABB.min aabb) - Vector3.z origin) * invdirz) in
  if (tmin >? tzmax) || (tzmin >? tmax) then ret None else
  let tmin := if (tzmin >? tmin) || (tmin !== tmin) then tzmin else tmin in
  let tmax := if (tzmax <? tmax) || (tmax !== tmax) then tzmax else tmax in
  if tmax <? Zero then ret None else
  r <- at_ this (if tmin >=? Zero then tmin else tmax) result ;; ret (Some r).

Definition intersectTriangle (this : t) (triangle : Triangle.t)
    (backfaceCulling : bool) (result : loc) : M (option loc) :=
  let a := Triangle.a triangle in
  let b := Triangle.b triangle in
  let c := Triangle.c triangle in
  call edge1 (fun r => Vector3.subVectors r b a) ;;
  call edge2 (fun r => Vector3.subVectors r c a) ;;
  e1 <- read edge1 ;;
  e2 <- read edge2 ;;
  call normal (fun r => Vector3.crossVectors r e1 e2) ;;
  n <- read normal ;;
  let DdN := Vector3.dot (direction this) n in
  (* the statements after the [if] chain, for the [sign] and the [DdN] that
     the chain leaves behind *)
  let continue (sign DdN : num) : M (option loc) :=
    call v1 (fun r => Vector3.subVectors r (origin this) a) ;;
    q <- read v1 ;;
    e2 <- read edge2 ;;
    call edge2 (fun r => Vector3.crossVectors r q e2) ;;
    qxe2 <- read edge2 ;;
    let DdQxE2 := sign * Vector3.dot (direction this) qxe2 in
    (* b1 < 0, no intersection *)
    if DdQxE2 <? Zero then ret None else
    q <- read v1 ;;
    call edge1 (fun r => Vector3.cross r q) ;;
    e1xq <- read edge1 ;;
    let DdE1xQ := sign * Vector3.dot (direction this) e1xq in
    (* b2 < 0, no intersection *)
    if DdE1xQ <? Zero then ret None else
    (* b1 + b2 > 1, no intersection *)
    if DdQxE2 + DdE1xQ >? DdN then ret None else
    q <- read v1 ;;
    n <- read normal ;;
    let QdN := (- sign) * Vector3.dot q n in
    (* t < 0, no intersection *)
    if QdN <? Zero then ret None else
    r <- at_ this (QdN / DdN) result ;; ret (Some r) in
  if DdN >? Zero then
    if backfaceCulling then ret None else continue One DdN
  else if DdN <? Zero then
    continue (- One) (- DdN)
  else ret None.
End Methods.
Arguments t {N}.
End Ray.

(** ** MeshGeometry and the matrix interface *)

Module MeshGeometry.
(** Modelled from the spec: core/MeshGeometry.js is not under src/.  Section
    6 of the spec gives the record: a flat vertex buffer with stride 3, an
    index buffer or [null], the local bounding box and the culling flag. *)
Record t {N : Number} : Type := mk {
  vertices : list num;
  indices : option (list nat);
  aabb : AABB.t;
  backfaceCulling : bool
}.
End MeshGeometry.

(** Modelled from the spec: math/Matrix4.js, [Vector3.applyMatrix4] and
    [AABB.applyMatrix4] are not under src/.  Section 6 of the spec lists what
    a matrix supplies to this code: the transform of a point and the transform
    of a box into a new axis-aligned box.  They are taken as an interface. *)
Class Matrix4Ops (N : Number) : Type := {
  Matrix4 : Type;
  Vector3_applyMatrix4 : Vector3.t -> Matrix4 -> Vector3.t;
  AABB_applyMatrix4 : AABB.t -> Matrix4 -> AABB.t
}.

(** ** Obstacle *)

Module Obstacle.
Section Methods.
Context {N : Number} {T : Matrix4Ops N}.

(** [worldMatrix] is inherited from GameEntity. *)
Record t : Type := mk { geometry : MeshGeometry.t; worldMatrix : Matrix4 }.

(** [vertices[ i ]]; reading past the end gives [undefined], which every
    later use turns into NaN. *)
Definition element (vertices : list num) (i : nat) : num := nth i vertices NaN.

(** [indices[ i ]], [undefined] past the end of the index buffer. *)
Definition index (indices : list nat) (i : nat) : option nat := nth_error indices i.

(** [a * stride] and [j + k] for an [a] and a [j] that may be [undefined]
    (the product and the sum are NaN then), and [vertices[ j ]] for such a
    [j] ([undefined] for NaN). *)
Definition times (a : option nat) (stride : nat) : option nat :=
  option_map (fun a => a * stride) a.

Definition plus (j : option nat) (k : nat) : option nat :=
  option_map (fun j => j + k) j.

Definition elementAt (vertices : list num) (j : option nat) : num :=
  match j with
  | Some j => element vertices j
  | None => NaN
  end.

(** The part of a loop body after the three [set] calls. *)
Definition testTriangle (this : t) (ray : Ray.t) (result : loc)
    (next : M (option loc)) : M (option loc) :=
  call triangle_a (fun r => Vector3_applyMatrix4 r (worldMatrix this)) ;;
  call triangle_b (fun r => Vector3_applyMatrix4 r (worldMatrix this)) ;;
  call triangle_c (fun r => Vector3_applyMatrix4 r (worldMatrix this)) ;;
  ta <- read triangle_a ;;
  tb <- read triangle_b ;;
  tc <- read triangle_c ;;
  hit <- Ray.intersectTriangle ray (Triangle.mk ta tb tc)
           (MeshGeometry.backfaceCulling (geometry this)) result ;;
  match hit with
  | Some _ => ret (Some result)
  | None => next
  end.

(** [for ( let i = 0, l = vertices.length; i < l; i += 9 )], entered at [i]. *)
Fixpoint nonIndexedLoop (fuel : nat) (this : t) (ray : Ray.t) (result : loc)
    (i : nat) : M (option loc) :=
  match fuel with
  | O => ret None
  | S fuel' =>
    let vertices := MeshGeometry.vertices (geometry this) in
    let l := length vertices in
    if (i <? l)%nat then
      call triangle_a (fun r => Vector3.set r
        (element vertices i) (element vertices (i + 1)) (element vertices (i + 2))) ;;
      call triangle_b (fun r => Vector3.set r
        (element vertices (i + 3)) (element vertices (i + 4)) (element vertices (i + 5))) ;;
      call triangle_c (fun r => Vector3.set r
        (element vertices (i + 6)) (element vertices (i + 7)) (element vertices (i + 8))) ;;
      testTriangle this ray result (nonIndexedLoop fuel' this ray result (i + 9))
    else ret None
  end.

(** [for ( let i = 0, l = indices.length; i < l; i += 3 )], entered at [i]. *)
Fixpoint indexedLoop (fuel : nat) (this : t) (ray : Ray.t) (result : loc)
    (indices : list nat) (i : nat) : M (option loc) :=
  match fuel with
  | O => ret None
  | S fuel' =>
    let vertices := MeshGeometry.vertices (geometry this) in
    let l := length indices in
    if (i <? l)%nat then
      let a := index indices i in
      let b := index indices (i + 1) in
      let c := index indices (i + 2) in
      let stride := 3 in
      call triangle_a (fun r => Vector3.set r
        (elementAt vertices (times a stride))
        (elementAt vertices (plus (times a stride) 1))
        (elementAt vertices (plus (times a stride) 2))) ;;
      call triangle_b (fun r => Vector3.set r
        (elementAt vertices (times b stride))
        (elementAt vertices (plus (times b stride) 1))
        (elementAt vertices (plus (times b stride) 2))) ;;
      call triangle_c (fun r => Vector3.set r
        (elementAt vertices (times c stride))
        (elementAt vertices (plus (times c stride) 1))
        (elementAt vertices (plus (times c stride) 2))) ;;
      testTriangle this ray result (indexedLoop fuel' this ray result indices (i + 3))
    else ret None
  end.

(** [aabb.method(args)] for a method of the scratch box that mutates it. *)
Definition callAABB (method : AABB.t -> AABB.t) : M unit :=
  fun s =>
    let box := method (AABB.mk (s aabb_min) (s aabb_max)) in
    (tt, upd aabb_max (AABB.max box) (upd aabb_min (AABB.min box) s)).

Definition readAABB : M AABB.t :=
  fun s => (AABB.mk (s aabb_min) (s aabb_max), s).

(** A loop entered at 0 over a buffer of length [l] makes at most [l]
    passes, so [l] is fuel enough ([nonIndexedLoop_run] and [indexedLoop_run]
    hold for any fuel from the number of passes up). *)
Definition intersectRay (this : t) (ray : Ray.t) (result : loc) : M (option loc) :=
  let geometry := geometry this in
  callAABB (fun aabb => AABB.copy aabb (MeshGeometry.aabb geometry)) ;;
  callAABB (fun aabb => AABB_applyMatrix4 aabb (worldMatrix this)) ;;
  aabb <- readAABB ;;
  broad <- Ray.intersectAABB ray aabb intersectionPointAABB ;;
  match broad with
  | Some _ =>
    let vertices := MeshGeometry.vertices geometry in
    match MeshGeometry.indices geometry with
    | None => nonIndexedLoop (length vertices) this ray result 0
    | Some indices => indexedLoop (length indices) this ray result indices 0
    end
  | None => ret None
  end.
End Methods.
Arguments t {N T}.
End Obstacle.

(** ** Exact numbers *)

(** IEEE arithmetic without rounding or overflow: a rational ([XFin 0] is the
    positive zero), the negative zero, an infinity with its sign ([true] is
    negative), or NaN. *)
Inductive xq : Set :=
| XNaN
| XInf (negative : bool)
| XNegZero
| XFin (q : Q).

Module XQOps.
(** A value as NaN, a signed infinity, or a sign and a magnitude. *)
Inductive view : Set :=
| VNaN
| VInf (negative : bool)
| VFin (negative : bool) (q : Q).

Definition Qneg_bool (q : Q) : bool := negb (Qle_bool 0 q).

Definition Qzero_bool (q : Q) : bool := Qeq_bool q 0.

Definition classify (a : xq) : view :=
  match a with
  | XNaN => VNaN
  | XInf s => VInf s
  | XNegZero => VFin true 0
  | XFin q => VFin (Qneg_bool q) q
  end.

(** The finite value [q], a zero taking the sign [s]. *)
Definition finite (s : bool) (q : Q) : xq :=
  if Qzero_bool q then (if s then XNegZero else XFin 0) else XFin (Qred q).

Definition neg (a : xq) : xq :=
  match classify a with
  | VNaN => XNaN
  | VInf s => XInf (negb s)
  | VFin s q => finite (negb s) (- q)
  end.

Definition add (a b : xq) : xq :=
  match classify a, classify b with
  | VNaN, _ | _, VNaN => XNaN
  | VInf s, VInf s' => if Bool.eqb s s' then XInf s else XNaN
  | VInf s, VFin _ _ | VFin _ _, VInf s => XInf s
  | VFin s p, VFin s' q =>
    (* a zero sum is negative only when both terms are negative zeros *)
    finite (Qzero_bool p && Qzero_bool q && s && s') (p + q)
  end.

Definition sub (a b : xq) : xq := add a (neg b).

Definition mul (a b : xq) : xq :=
  match classify a, classify b with
  | VNaN, _ | _, VNaN => XNaN
  | VInf s, VInf s' => XInf (xorb s s')
  | VInf s, VFin s' q | VFin s' q, VInf s =>
    if Qzero_bool q then XNaN else XInf (xorb s s')
  | VFin s p, VFin s' q => finite (xorb s s') (p * q)
  end.

Definition div (a b : xq) : xq :=
  match classify a, classify b with
  | VNaN, _ | _, VNaN => XNaN
  | VInf _, VInf _ => XNaN
  | VInf s, VFin s' _ => XInf (xorb s s')
  | VFin s _, VInf s' => finite (xorb s s') 0
  | VFin s p, VFin s' q =>
    if Qzero_bool q
    then (if Qzero_bool p then XNaN else XInf (xorb s s'))
    else finite (xorb s s') (p / q)
  end.

Definition ltb (a b : xq) : bool :=
  match classify a, classify b with
  | VNaN, _ | _, VNaN => false
  | VInf s, VInf s' => s && negb s'
  | VInf s, VFin _ _ => s
  | VFin _ _, VInf s' => negb s'
  | VFin _ p, VFin _ q => negb (Qle_bool q p)
  end.

Definition leb (a b : xq) : bool :=
  match classify a, classify b with
  | VNaN, _ | _, VNaN => false
  | VInf s, VInf s' => s || negb s'
  | VInf s, VFin _ _ => s
  | VFin _ _, VInf s' => negb s'
  | VFin _ p, VFin _ q => Qle_bool p q
  end.

Definition eqb (a b : xq) : bool :=
  match classify a, classify b with
  | VNaN, _ | _, VNaN => false
  | VInf s, VInf s' => Bool.eqb s s'
  | VInf _, VFin _ _ | VFin _ _, VInf _ => false
  | VFin _ p, VFin _ q => Qeq_bool p q
  end.
End XQOps.

#[export] Instance XQ : Number := {|
  num := xq;
  Zero := XFin 0;
  One := XFin 1;
  NaN := XNaN;
  neg := XQOps.neg;
  add := XQOps.add;
  sub := XQOps.sub;
  mul := XQOps.mul;
  div := XQOps.div;
  ltb := XQOps.ltb;
  leb := XQOps.leb;
  eqb := XQOps.eqb
|}.

(** ** The quantities the specification names *)

(** The scratch vectors of Ray.js; they are private to the module, so no
    caller can pass one of them as [result]. *)
Definition rayScratch (l : loc) : bool :=
  match l with
  | v1 | edge1 | edge2 | normal => true
  | _ => false
  end.

Module Spec.
Section Spec.
Context {N : Number}.
Local Open Scope num_scope.

Definition vsub (a b : Vector3.t) : Vector3.t :=
  Vector3.mk (Vector3.x a - Vector3.x b) (Vector3.y a - Vector3.y b)
             (Vector3.z a - Vector3.z b).

Definition vcross (a b : Vector3.t) : Vector3.t :=
  Vector3.mk (Vector3.y a * Vector3.z b - Vector3.z a * Vector3.y b)
             (Vector3.z a * Vector3.x b - Vector3.x a * Vector3.z b)
             (Vector3.x a * Vector3.y b - Vector3.y a * Vector3.x b).

Definition vdot (a b : Vector3.t) : num :=
  Vector3.x a * Vector3.x b + Vector3.y a * Vector3.y b + Vector3.z a * Vector3.z b.

(** The point of the ray at parameter [t]: [direction * t + origin]. *)
Definition pointAt (r : Ray.t) (t : num) : Vector3.t :=
  Vector3.mk (Vector3.x (Ray.direction r) * t + Vector3.x (Ray.origin r))
             (Vector3.y (Ray.direction r) * t + Vector3.y (Ray.origin r))
             (Vector3.z (Ray.direction r) * t + Vector3.z (Ray.origin r)).

(** *** Ray and triangle (section 4.1, [intersectTriangle]) *)

Definition edge1 (tri : Triangle.t) : Vector3.t := vsub (Triangle.b tri) (Triangle.a tri).
Definition edge2 (tri : Triangle.t) : Vector3.t := vsub (Triangle.c tri) (Triangle.a tri).
Definition normal (tri : Triangle.t) : Vector3.t := vcross (edge1 tri) (edge2 tri).

(** [DdN = direction . normal], before its sign is normalised. *)
Definition DdN (r : Ray.t) (tri : Triangle.t) : num := vdot (Ray.direction r) (normal tri).

Definition v1 (r : Ray.t) (tri : Triangle.t) : Vector3.t := vsub (Ray.origin r) (Triangle.a tri).

Definition DdQxE2 (r : Ray.t) (tri : Triangle.t) (sign : num) : num :=
  sign * vdot (Ray.direction r) (vcross (v1 r tri) (edge2 tri)).

Definition DdE1xQ (r : Ray.t) (tri : Triangle.t) (sign : num) : num :=
  sign * vdot (Ray.direction r) (vcross (edge1 tri) (v1 r tri)).

Definition QdN (r : Ray.t) (tri : Triangle.t) (sign : num) : num :=
  (- sign) * vdot (v1 r tri) (normal tri).

(** The four rejection tests, for a sign and the positive denominator. *)
Definition rejects (r : Ray.t) (tri : Triangle.t) (sign denom : num) : bool :=
  (DdQxE2 r tri sign <? Zero)
  || (DdE1xQ r tri sign <? Zero)
  || (DdQxE2 r tri sign + DdE1xQ r tri sign >? denom)
  || (QdN r tri sign <? Zero).

(** The parameter of the hit, or nothing: parallel rays and culled back
    faces are dropped; the others go through the four tests in order, with
    their sign and the positive denominator, and an accepted one is at
    [QdN / DdN]. *)
Definition accepted (r : Ray.t) (tri : Triangle.t) (sign denom : num)
    : option num :=
  if DdQxE2 r tri sign <? Zero then None
  else if DdE1xQ r tri sign <? Zero then None
  else if DdQxE2 r tri sign + DdE1xQ r tri sign >? denom then None
  else if QdN r tri sign <? Zero then None
  else Some (QdN r tri sign / denom).

Definition triangleT (r : Ray.t) (tri : Triangle.t) (backfaceCulling : bool)
    : option num :=
  let D := DdN r tri in
  if D >? Zero then
    if backfaceCulling then None else accepted r tri One D
  else if D <? Zero then accepted r tri (- One) (- D)
  else None.

(** *** Ray and sphere (section 4.1, [intersectBoundingSphere]) *)

Definition tca (r : Ray.t) (sphere : BoundingSphere.t) : num :=
  vdot (vsub (BoundingSphere.center sphere) (Ray.origin r)) (Ray.direction r).

Definition d2 (r : Ray.t) (sphere : BoundingSphere.t) : num :=
  let v := vsub (BoundingSphere.center sphere) (Ray.origin r) in
  vdot v v - tca r sphere * tca r sphere.

Definition radius2 (sphere : BoundingSphere.t) : num :=
  BoundingSphere.radius sphere * BoundingSphere.radius sphere.

Definition thc {S : Sqrt N} (r : Ray.t) (sphere : BoundingSphere.t) : num :=
  sqrt (radius2 sphere - d2 r sphere).

Definition t0 {S : Sqrt N} (r : Ray.t) (sphere : BoundingSphere.t) : num :=
  tca r sphere - thc r sphere.

Definition t1 {S : Sqrt N} (r : Ray.t) (sphere : BoundingSphere.t) : num :=
  tca r sphere + thc r sphere.

(** The parameter of the hit, or nothing: the entry point, or the exit
    point when the origin is inside the sphere. *)
Definition sphereT {S : Sqrt N} (r : Ray.t) (sphere : BoundingSphere.t)
    : option num :=
  if d2 r sphere >? radius2 sphere then None
  else if (t0 r sphere <? Zero) && (t1 r sphere <? Zero) then None
  else if t0 r sphere <? Zero then Some (t1 r sphere)
  else Some (t0 r sphere).

(** *** Ray and box (section 4.1, [intersectAABB]) *)

(** The [tmin, tmax] interval of one axis: the parameters at which the ray
    meets the near and the far plane, swapped when the reciprocal of the
    direction is negative. *)
Definition slab (o d lo hi : num) : num * num :=
  let inv := One / d in
  if inv >=? Zero then ((lo - o) * inv, (hi - o) * inv)
  else ((hi - o) * inv, (lo - o) * inv).

Definition slabX (r : Ray.t) (box : AABB.t) : num * num :=
  slab (Vector3.x (Ray.origin r)) (Vector3.x (Ray.direction r))
       (Vector3.x (AABB.min box)) (Vector3.x (AABB.max box)).

Definition slabY (r : Ray.t) (box : AABB.t) : num * num :=
  slab (Vector3.y (Ray.origin r)) (Vector3.y (Ray.direction r))
       (Vector3.y (AABB.min box)) (Vector3.y (AABB.max box)).

Definition slabZ (r : Ray.t) (box : AABB.t) : num * num :=
  slab (Vector3.z (Ray.origin r)) (Vector3.z (Ray.direction r))
       (Vector3.z (AABB.min box)) (Vector3.z (AABB.max box)).

(** The pairwise interval test fails: [tmin > other_tmax] or
    [other_tmin > tmax]. *)
Definition disjoint (I J : num * num) : bool :=
  (fst I >? snd J) || (fst J >? snd I).

Definition isNaN (a : num) : bool := a !== a.

(** Folding an axis in: a bound is replaced when the other axis is tighter
    or when the bound is NaN. *)
Definition fold (I J : num * num) : num * num :=
  (if (fst J >? fst I) || isNaN (fst I) then fst J else fst I,
   if (snd J <? snd I) || isNaN (snd I) then snd J else snd I).

(** The interval after all three axes. *)
Definition folded (r : Ray.t) (box : AABB.t) : num * num :=
  fold (fold (slabX r box) (slabY r box)) (slabZ r box).

Definition tmin (r : Ray.t) (box : AABB.t) : num := fst (folded r box).
Definition tmax (r : Ray.t) (box : AABB.t) : num := snd (folded r box).

(** Some pairwise interval test fails. *)
Definition misses (r : Ray.t) (box : AABB.t) : bool :=
  disjoint (slabX r box) (slabY r box)
  || disjoint (fold (slabX r box) (slabY r box)) (slabZ r box).

(** The parameter of the hit, or nothing, from the intervals of the three
    axes: the axes are folded in one after the other, each after its
    interval test; the box is behind the ray when the folded [tmax] is
    negative; the hit is at [tmin] when that is not behind the origin, else
    at [tmax]. *)
Definition boxOf (X Y Z : num * num) : option num :=
  let T := fold (fold X Y) Z in
  if disjoint X Y then None
  else if disjoint (fold X Y) Z then None
  else if snd T <? Zero then None
  else Some (if fst T >=? Zero then fst T else snd T).

Definition boxT (r : Ray.t) (box : AABB.t) : option num :=
  boxOf (slabX r box) (slabY r box) (slabZ r box).
End Spec.
End Spec.

(** *** What a method leaves in the store *)

Section Runs.
Context {N : Number}.

(** What a method leaves in the store: on a hit at [t] the point at [t] in
    [result], and apart from that only the listed scratch vectors differ. *)
Definition runs (scratch : loc -> bool) (this : Ray.t) (res : loc)
    (hit : option num) (s : Store) (out : option loc * Store) : Prop :=
  fst out = option_map (fun _ => res) hit
  /\ (forall t, hit = Some t -> snd out res = Spec.pointAt this t)
  /\ (forall l, scratch l = false -> hit = None \/ l <> res -> snd out l = s l).

(** [intersectAABB] writes no scratch vector at all. *)
Definition noScratch (_ : loc) : bool := false.

End Runs.

(** *** Obstacle (section 4.2, [intersectRay]) *)

Module ObstacleSpec.
Section Spec.
Context {N : Number} {T : Matrix4Ops N}.

(** The vectors no caller holds: the scratch vectors of both modules. *)
Definition scratch (l : loc) : bool :=
  match l with
  | result => false
  | _ => true
  end.

(** The number of passes of a loop over [l] entries, [stride] at a time. *)
Definition passes (l stride : nat) : nat := (l + (stride - 1)) / stride.

(** Non-indexed: triangle [k] is the 9 floats from [9 * k] on. *)
Definition soupTriangle (vertices : list num) (k : nat) : Triangle.t :=
  let i := 9 * k in
  let v j := nth j vertices NaN in
  Triangle.mk (Vector3.mk (v i) (v (i + 1)) (v (i + 2)))
              (Vector3.mk (v (i + 3)) (v (i + 4)) (v (i + 5)))
              (Vector3.mk (v (i + 6)) (v (i + 7)) (v (i + 8))).

(** Indexed: the vertex an index refers to is the 3 floats from
    [3 * index] on; a missing index gives no coordinates. *)
Definition vertexAt (vertices : list num) (index : option nat) : Vector3.t :=
  match index with
  | Some a => Vector3.mk (nth (a * 3) vertices NaN) (nth (a * 3 + 1) vertices NaN)
                         (nth (a * 3 + 2) vertices NaN)
  | None => Vector3.mk NaN NaN NaN
  end.

(** Indexed: triangle [k] is made of the 3 indices from [3 * k] on. *)
Definition indexedTriangle (vertices : list num) (indices : list nat) (k : nat)
    : Triangle.t :=
  Triangle.mk (vertexAt vertices (nth_error indices (3 * k)))
              (vertexAt vertices (nth_error indices (3 * k + 1)))
              (vertexAt vertices (nth_error indices (3 * k + 2))).

(** The triangles of a geometry in buffer order: the index buffer decides the
    layout, and it is absent exactly when [indices] is [null]. *)
Definition triangles (g : MeshGeometry.t) : list Triangle.t :=
  match MeshGeometry.indices g with
  | None =>
    map (soupTriangle (MeshGeometry.vertices g))
        (seq 0 (passes (length (MeshGeometry.vertices g)) 9))
  | Some indices =>
    map (indexedTriangle (MeshGeometry.vertices g) indices)
        (seq 0 (passes (length indices) 3))
  end.

(** A triangle in world space: each vertex under the world matrix. *)
Definition toWorld (m : Matrix4) (tri : Triangle.t) : Triangle.t :=
  Triangle.mk (Vector3_applyMatrix4 (Triangle.a tri) m)
              (Vector3_applyMatrix4 (Triangle.b tri) m)
              (Vector3_applyMatrix4 (Triangle.c tri) m).

Definition worldTriangles (o : Obstacle.t) : list Triangle.t :=
  map (toWorld (Obstacle.worldMatrix o)) (triangles (Obstacle.geometry o)).

(** The world-space box of the broad phase. *)
Definition worldBox (o : Obstacle.t) : AABB.t :=
  AABB_applyMatrix4 (MeshGeometry.aabb (Obstacle.geometry o)) (Obstacle.worldMatrix o).

(** The parameter of the first triangle of the list that the ray hits. *)
Fixpoint firstHit (r : Ray.t) (cull : bool) (ts : list Triangle.t) : option num :=
  match ts with
  | [] => None
  | tri :: ts' =>
    match Spec.triangleT r tri cull with
    | Some t => Some t
    | None => firstHit r cull ts'
    end
  end.

(** Broad phase, then the first hit in buffer order. *)
Definition obstacleT (o : Obstacle.t) (r : Ray.t) : option num :=
  match Spec.boxT r (worldBox o) with
  | None => None
  | Some _ =>
    firstHit r (MeshGeometry.backfaceCulling (Obstacle.geometry o)) (worldTriangles o)
  end.
End Spec.
End ObstacleSpec.

(** *** Exact geometry *)

(** The geometric meaning of the tests, over the rationals: what an exact
    value stands for, the distance of two points, and the points of a ray
    inside a box. *)
Module Exact.
Local Open Scope Q_scope.

(** The rational a finite value stands for (both zeros stand for 0). *)
Definition toQ (a : xq) : option Q :=
  match a with
  | XFin q => Some q
  | XNegZero => Some 0
  | XNaN | XInf _ => None
  end.

(** [a] is finite and stands for [q]. *)
Definition valued (a : xq) (q : Q) : Prop :=
  match toQ a with
  | Some q' => q' == q
  | None => False
  end.

Record point : Set := mkPoint { px : Q; py : Q; pz : Q }.

(** The vector [v] is finite and stands for the point [p]. *)
Definition located (v : Vector3.t (N:=XQ)) (p : point) : Prop :=
  valued (Vector3.x v) (px p) /\ valued (Vector3.y v) (py p)
  /\ valued (Vector3.z v) (pz p).

Definition squaredDistance (p o : point) : Q :=
  (px p - px o) * (px p - px o) + (py p - py o) * (py p - py o)
  + (pz p - pz o) * (pz p - pz o).

(** [d] is the distance of [p] and [o]: the root of their squared distance
    that is not negative. *)
Definition isDistance (p o : point) (d : Q) : Prop :=
  0 <= d /\ d * d == squaredDistance p o.

Definition unitLength (d : point) : Prop :=
  px d * px d + py d * py d + pz d * pz d == 1.

Definition zeroVector (d : point) : Prop :=
  px d == 0 /\ py d == 0 /\ pz d == 0.

Definition hasZeroComponent (d : point) : Prop :=
  px d == 0 \/ py d == 0 \/ pz d == 0.

(** The box is not inside out. *)
Definition ordered (lo hi : point) : Prop :=
  px lo <= px hi /\ py lo <= py hi /\ pz lo <= pz hi.

(** The point of the ray at parameter [t] lies between the planes of one
    axis. *)
Definition within (o d lo hi t : Q) : Prop :=
  lo <= o + t * d /\ o + t * d <= hi.

(** The ray from [o] along [d] has a point, at some parameter [t >= 0], in
    the box of the corners [lo] and [hi]. *)
Definition rayMeetsBox (o d lo hi : point) : Prop :=
  exists t : Q,
    0 <= t
    /\ within (px o) (px d) (px lo) (px hi) t
    /\ within (py o) (py d) (py lo) (py hi) t
    /\ within (pz o) (pz d) (pz lo) (pz hi) t.

(** The rationals with the two infinities, and their order. *)
Inductive ext : Set :=
| NegInf
| Rat (q : Q)
| PosInf.

Definition ele (x y : ext) : Prop :=
  match x, y with
  | NegInf, _ => True
  | _, PosInf => True
  | Rat p, Rat q => p <= q
  | _, _ => False
  end.

(** What a slab bound demands of the parameter: NaN demands nothing. *)
Definition lowerBound (a : xq) : ext :=
  match a with
  | XNaN => NegInf
  | XInf true => NegInf
  | XInf false => PosInf
  | XNegZero => Rat 0
  | XFin q => Rat q
  end.

Definition upperBound (b : xq) : ext :=
  match b with
  | XNaN => PosInf
  | XInf true => NegInf
  | XInf false => PosInf
  | XNegZero => Rat 0
  | XFin q => Rat q
  end.
End Exact.

(** ** Concrete inputs *)

Module Example.
(** A store with every vector at the origin, as the modules create them. *)
Definition zeroStore {N : Number} : Store := fun _ => Vector3.mk Zero Zero Zero.

(** A store with other contents in every vector. *)
Definition usedStore {N : Number} : Store := fun _ => Vector3.mk One (- One) NaN.

Definition vec (x y z : float) : Vector3.t (N:=F64) := Vector3.mk (N:=F64) x y z.

Definition qvec (x y z : Q) : Vector3.t (N:=XQ) :=
  Vector3.mk (N:=XQ) (XFin x) (XFin y) (XFin z).

(** The ray of the scenarios of section 8: from [(0, 0.25, -5)] along +z. *)
Definition ray : Ray.t (N:=F64) := Ray.mk (vec 0 0.25 (-5)) (vec 0 0 1).

Definition triangle : Triangle.t (N:=F64) :=
  Triangle.mk (vec (-1) 0 0) (vec 1 0 0) (vec 0 1 0).

(** The same triangle with the other winding, seen from its front. *)
Definition flipped : Triangle.t (N:=F64) :=
  Triangle.mk (vec (-1) 0 0) (vec 0 1 0) (vec 1 0 0).

Definition unitSphere : BoundingSphere.t (N:=F64) :=
  BoundingSphere.mk (N:=F64) (vec 0 0 0) 1%float.

Definition unitBox : AABB.t (N:=F64) := AABB.mk (vec (-1) (-1) (-1)) (vec 1 1 1).

(** A ray that starts inside the unit sphere and the unit box. *)
Definition inner : Ray.t (N:=F64) := Ray.mk (vec 0 0 0.5) (vec 0 0 1).

(** Modelled from the spec: a world matrix that only translates, given by its
    offset; a point is moved by the offset and a box by moving its corners
    (the tight box of a translated box).  The offset zero is the identity. *)
#[export] Instance Translation : Matrix4Ops F64 := {|
  Matrix4 := Vector3.t (N:=F64);
  Vector3_applyMatrix4 := fun v m => Vector3.add v m;
  AABB_applyMatrix4 := fun box m =>
    AABB.mk (Vector3.add (AABB.min box) m) (Vector3.add (AABB.max box) m)
|}.

Definition identity : Matrix4 := vec 0 0 0.

(** Two triangles across the ray [ray], in the planes z = 3 and z = 0, as a
    triangle soup with the farther one first, and the same mesh indexed. *)
Definition farThenNear : list float :=
  [ (-1); 0; 3;   1; 0; 3;   0; 1; 3;
    (-1); 0; 0;   1; 0; 0;   0; 1; 0 ]%float.

Definition soup : MeshGeometry.t (N:=F64) :=
  MeshGeometry.mk (N:=F64) farThenNear None
    (AABB.mk (vec (-1) 0 0) (vec 1 1 3)) false.

Definition indexedMesh : MeshGeometry.t (N:=F64) :=
  MeshGeometry.mk (N:=F64) farThenNear (Some [0; 1; 2; 3; 4; 5])
    (AABB.mk (vec (-1) 0 0) (vec 1 1 3)) false.

Definition far : Triangle.t (N:=F64) :=
  Triangle.mk (vec (-1) 0 3) (vec 1 0 3) (vec 0 1 3).

(** A mesh whose buffers are malformed: the vertex buffer breaks off inside
    the first triangle and the indices point past its end. *)
Definition malformed : MeshGeometry.t (N:=F64) :=
  MeshGeometry.mk (N:=F64) [1; 2; 3; 4; 5]%float (Some [7; 8])
    (AABB.mk (vec 10 10 10) (vec 11 11 11)) true.

(** The triangle [(0,0,0), (1,0,0), (0,1,0)] with the box of its vertices,
    and a ray through its vertex [(1,0,0)]. *)
Definition corner : MeshGeometry.t (N:=F64) :=
  MeshGeometry.mk (N:=F64) [0; 0; 0;  1; 0; 0;  0; 1; 0]%float None
    (AABB.mk (vec 0 0 0) (vec 1 1 0)) false.

Definition cornerTriangle : Triangle.t (N:=F64) :=
  Triangle.mk (vec 0 0 0) (vec 1 0 0) (vec 0 1 0).

Definition grazing : Ray.t (N:=F64) := Ray.mk (vec (-48) 0 (-1)) (vec 49 0 1).
End Example.
(** ** More of the vocabulary *)

(** *** Mesh layouts *)

Module Layout.
Section Layout.
Context {N : Number}.

(** The three floats an index refers to. *)
Definition vertexFloats (vertices : list num) (a : nat) : list num :=
  [nth (a * 3) vertices NaN; nth (a * 3 + 1) vertices NaN; nth (a * 3 + 2) vertices NaN].

(** An indexed geometry written out as a triangle soup: the floats of every
    index in turn, and no index buffer. *)
Definition unrolled (g : MeshGeometry.t) : MeshGeometry.t :=
  match MeshGeometry.indices g with
  | None => g
  | Some indices =>
    MeshGeometry.mk (flat_map (vertexFloats (MeshGeometry.vertices g)) indices) None
      (MeshGeometry.aabb g) (MeshGeometry.backfaceCulling g)
  end.

(** The geometry with back-face culling switched off. *)
Definition twoSided (g : MeshGeometry.t) : MeshGeometry.t :=
  MeshGeometry.mk (MeshGeometry.vertices g) (MeshGeometry.indices g)
    (MeshGeometry.aabb g) false.
End Layout.
End Layout.

(** *** Missing data *)

(** NaN in the arithmetic and in the comparisons: an operation with a NaN
    operand gives NaN, and a comparison with a NaN operand is false.  Both
    hold of IEEE arithmetic. *)
Class NaNLaws (N : Number) : Prop := {
  add_nan : forall a b : num,
    Spec.isNaN a = true \/ Spec.isNaN b = true -> Spec.isNaN (add a b) = true;
  sub_nan : forall a b : num,
    Spec.isNaN a = true \/ Spec.isNaN b = true -> Spec.isNaN (sub a b) = true;
  mul_nan : forall a b : num,
    Spec.isNaN a = true \/ Spec.isNaN b = true -> Spec.isNaN (mul a b) = true;
  ltb_nan : forall a b : num,
    Spec.isNaN a = true \/ Spec.isNaN b = true -> ltb a b = false;
  nan_nan : Spec.isNaN (NaN : num) = true
}.

Module Missing.
Section Missing.
Context {N : Number}.

(** Some coordinate of the vector is NaN. *)
Definition hasNaN (v : Vector3.t) : bool :=
  Spec.isNaN (Vector3.x v) || Spec.isNaN (Vector3.y v) || Spec.isNaN (Vector3.z v).

(** Every coordinate of the vector is NaN. *)
Definition allNaN (v : Vector3.t) : bool :=
  Spec.isNaN (Vector3.x v) && Spec.isNaN (Vector3.y v) && Spec.isNaN (Vector3.z v).

(** Some coordinate of some vertex of the triangle is NaN. *)
Definition undefinedTriangle (tri : Triangle.t) : bool :=
  hasNaN (Triangle.a tri) || hasNaN (Triangle.b tri) || hasNaN (Triangle.c tri).

(** A buffer cut back to its complete groups of [stride] entries. *)
Definition complete {A : Type} (stride : nat) (buffer : list A) : list A :=
  firstn (stride * (length buffer / stride)) buffer.

(** The geometry cut back to its complete triangles: 9 floats each without
    an index buffer, 3 indices each with one. *)
Definition completeGeometry (g : MeshGeometry.t) : MeshGeometry.t :=
  match MeshGeometry.indices g with
  | None =>
    MeshGeometry.mk (complete 9 (MeshGeometry.vertices g)) None
      (MeshGeometry.aabb g) (MeshGeometry.backfaceCulling g)
  | Some indices =>
    MeshGeometry.mk (MeshGeometry.vertices g) (Some (complete 3 indices))
      (MeshGeometry.aabb g) (MeshGeometry.backfaceCulling g)
  end.

(** The geometry with another index buffer. *)
Definition reindexed (g : MeshGeometry.t) (indices : list nat) : MeshGeometry.t :=
  MeshGeometry.mk (MeshGeometry.vertices g) (Some indices)
    (MeshGeometry.aabb g) (MeshGeometry.backfaceCulling g).

(** The index refers to floats past the end of the vertex buffer. *)
Definition dangling (vertices : list num) (a : nat) : Prop :=
  length vertices <= a * 3 + 2.

(** The matrix keeps a vector with a NaN coordinate one. *)
Definition propagates {T : Matrix4Ops N} (m : Matrix4) : Prop :=
  forall v : Vector3.t, hasNaN v = true -> hasNaN (Vector3_applyMatrix4 v m) = true.
End Missing.
End Missing.

(** *** Exact geometry of the triangle and of the sphere *)

Module ExactShapes.
Import Exact.
Local Open Scope Q_scope.

Definition minus (p q : point) : point :=
  mkPoint (px p - px q) (py p - py q) (pz p - pz q).

Definition cross (p q : point) : point :=
  mkPoint (py p * pz q - pz p * py q) (pz p * px q - px p * pz q)
          (px p * py q - py p * px q).

Definition dot (p q : point) : Q := px p * px q + py p * py q + pz p * pz q.

(** Two points with equal coordinates. *)
Definition same (p q : point) : Prop :=
  px p == px q /\ py p == py q /\ pz p == pz q.

(** The point of the ray from [o] along [d] at parameter [t]. *)
Definition along (o d : point) (t : Q) : point :=
  mkPoint (px o + t * px d) (py o + t * py d) (pz o + t * pz d).

(** The point [a + u (b - a) + v (c - a)] of the plane of a triangle. *)
Definition inPlane (a b c : point) (u v : Q) : point :=
  mkPoint (px a + u * (px b - px a) + v * (px c - px a))
          (py a + u * (py b - py a) + v * (py c - py a))
          (pz a + u * (pz b - pz a) + v * (pz c - pz a)).

(** The direction against the normal [(b - a) x (c - a)] of the triangle:
    negative when the ray looks at the front of the triangle, zero when it
    is parallel to its plane (and for a triangle without area). *)
Definition facing (d a b c : point) : Q := dot d (cross (minus b a) (minus c a)).

(** The numerators of the triangle test, before their signs are
    normalised: those of the two plane coordinates, and the one of the
    parameter (negated). *)
Definition b1 (o d a b c : point) : Q := dot d (cross (minus o a) (minus c a)).
Definition b2 (o d a b c : point) : Q := dot d (cross (minus b a) (minus o a)).
Definition height (o a b c : point) : Q :=
  dot (minus o a) (cross (minus b a) (minus c a)).

(** The ray has a point, at a parameter [t >= 0], in the triangle (edges and
    vertices included), it is not parallel to the plane of the triangle, and
    with culling it looks at the front. *)
Definition rayMeetsTriangle (o d a b c : point) (cull : bool) : Prop :=
  exists t u v : Q,
    0 <= t /\ 0 <= u /\ 0 <= v /\ u + v <= 1
    /\ same (along o d t) (inPlane a b c u v)
    /\ ~ facing d a b c == 0
    /\ (cull = true -> facing d a b c < 0).

(** The square of the distance from [c] to the line of the ray, for a
    direction [d] of unit length. *)
Definition offLine (o d c : point) : Q :=
  dot (minus c o) (minus c o) - dot (minus c o) d * dot (minus c o) d.

(** The point [p] is in the ball around [c] with radius [r], its surface
    included. *)
Definition inBall (c : point) (r : Q) (p : point) : Prop :=
  squaredDistance p c <= r * r.

(** The ray has a point, at some parameter [t >= 0], in the ball. *)
Definition rayMeetsBall (o d c : point) (r : Q) : Prop :=
  exists t : Q, 0 <= t /\ inBall c r (along o d t).

(** The point [p] is in the box of the corners [lo] and [hi]. *)
Definition inBox (lo hi p : point) : Prop :=
  (px lo <= px p /\ px p <= px hi)
  /\ (py lo <= py p /\ py p <= py hi)
  /\ (pz lo <= pz p /\ pz p <= pz hi).

(** The vertices of the triangle are finite and in the box. *)
Definition bounded (lo hi : point) (tri : Triangle.t (N:=XQ)) : Prop :=
  exists a b c : point,
    located (Triangle.a tri) a /\ located (Triangle.b tri) b
    /\ located (Triangle.c tri) c
    /\ inBox lo hi a /\ inBox lo hi b /\ inBox lo hi c.
End ExactShapes.

(** ** The order of the numbers *)

(** What the slab test uses of the order: away from NaN, [<=] is a total
    preorder and [<] is its strict part; a comparison with NaN is false.
    Both hold of IEEE comparisons. *)
Class OrderLaws (N : Number) : Prop := {
  order_lt : forall a b : num, ltb a b = true <-> leb a b = true /\ leb b a = false;
  order_total : forall a b : num,
    Spec.isNaN a = false -> Spec.isNaN b = false -> leb a b = true \/ leb b a = true;
  order_trans : forall a b c : num, leb a b = true -> leb b c = true -> leb a c = true;
  order_number : forall a b : num,
    leb a b = true -> Spec.isNaN a = false /\ Spec.isNaN b = false;
  order_zero : Spec.isNaN (Zero : num) = false
}.

(** The slab intervals as demands on the parameter of the ray. *)
Module Slabs.
Section Slabs.
Context {N : Number}.

(** The bound [a] is not above the bound [b]; a NaN is above nothing and
    nothing is above it. *)
Definition notAbove (a b : num) : bool :=
  Spec.isNaN a || Spec.isNaN b || leb a b.

(** The parameter [z] meets the demands of the interval [I]: it is not
    below its lower bound and not above its upper bound, a bound that is NaN
    demanding nothing. *)
Definition admits (I : num * num) (z : num) : bool :=
  notAbove (fst I) z && notAbove z (snd I).

(** The interval is not inside out. *)
Definition proper (I : num * num) : bool := notAbove (fst I) (snd I).

(** A bound that no finite parameter reaches or that demands nothing. *)
Definition unlimited (v : float) : bool :=
  PrimFloat.is_nan v || PrimFloat.is_infinity v.
End Slabs.
End Slabs.
(** ** Ray objects *)

(** The methods of [Ray] that assign or copy its two vectors ([constructor],
    [set], [copy], [clone], [equals], and [at] once more) depend on which
    Vector3 objects a ray refers to.  Here the objects live on a heap: a
    reference is the number of an object, a Ray object holds two references
    to Vector3 objects, and a method is a function from the heap before the
    call to the value returned and the heap after it. *)
Module RayObject.
Section Heap.
Context {N : Number}.
Local Open Scope num_scope.

Definition ref : Set := nat.

(** The fields of a Ray object. *)
Record fields : Set := mkFields { origin : ref; direction : ref }.

(** The objects allocated so far: the Vector3 objects are numbered from 0
    to [vectorCount - 1], the Ray objects from 0 to [rayCount - 1]. *)
Record heap : Type := mkHeap {
  vector : ref -> Vector3.t;
  ray : ref -> fields;
  vectorCount : nat;
  rayCount : nat
}.

Definition setVector (v : ref) (value : Vector3.t) (h : heap) : heap :=
  mkHeap (fun v' => if Nat.eqb v v' then value else vector h v')
         (ray h) (vectorCount h) (rayCount h).

Definition setRay (r : ref) (value : fields) (h : heap) : heap :=
  mkHeap (vector h) (fun r' => if Nat.eqb r r' then value else ray h r')
         (vectorCount h) (rayCount h).

(** [v.method(args)] for a method of Vector3 that mutates [this]. *)
Definition callVector (v : ref) (method : Vector3.t -> Vector3.t) (h : heap) : heap :=
  setVector v (method (vector h v)) h.

(** Modelled from the spec: [new Vector3()]; Vector3.js is not under src/,
    and a vector made without arguments is taken to be the zero vector. *)
Definition newVector3 (h : heap) : ref * heap :=
  (vectorCount h,
   mkHeap (fun v' => if Nat.eqb (vectorCount h) v' then Vector3.mk Zero Zero Zero
                     else vector h v')
          (ray h) (S (vectorCount h)) (rayCount h)).

(** [new Ray( origin, direction )]; an argument left out is [None] and makes
    a new vector, the origin first. *)
Definition constructor (origin direction : option ref) (h : heap) : ref * heap :=
  let (o, h1) := match origin with
                 | Some o => (o, h)
                 | None => newVector3 h
                 end in
  let (d, h2) := match direction with
                 | Some d => (d, h1)
                 | None => newVector3 h1
                 end in
  (rayCount h2,
   mkHeap (vector h2) (fun r' => if Nat.eqb (rayCount h2) r' then mkFields o d
                                 else ray h2 r')
          (vectorCount h2) (S (rayCount h2))).

Definition set (this : ref) (origin direction : ref) (h : heap) : ref * heap :=
  (this, setRay this (mkFields origin direction) h).

Definition copy (this r : ref) (h : heap) : ref * heap :=
  let h1 := callVector (origin (ray h this))
              (fun v => Vector3.copy v (vector h (origin (ray h r)))) h in
  let h2 := callVector (direction (ray h1 this))
              (fun v => Vector3.copy v (vector h1 (direction (ray h1 r)))) h1 in
  (this, h2).

(** [new this.constructor().copy( this )], for an object whose constructor
    is [Ray]. *)
Definition clone (this : ref) (h : heap) : ref * heap :=
  let (r, h1) := constructor None None h in
  copy r this h1.

Definition at_ (this : ref) (t : num) (result : ref) (h : heap) : ref * heap :=
  let h1 := callVector result
              (fun v => Vector3.copy v (vector h (direction (ray h this)))) h in
  let h2 := callVector result (fun v => Vector3.multiplyScalar v t) h1 in
  let h3 := callVector result
              (fun v => Vector3.add v (vector h2 (origin (ray h2 this)))) h2 in
  (result, h3).

(** Modelled from the spec: [Vector3.equals( v )]; Vector3.js is not under
    src/, and section 4.1 of the spec calls the comparison structural
    equality: the coordinates are compared with [===]. *)
Definition Vector3_equals (this v : Vector3.t) : bool :=
  eqb (Vector3.x v) (Vector3.x this) && eqb (Vector3.y v) (Vector3.y this)
  && eqb (Vector3.z v) (Vector3.z this).

Definition equals (this r : ref) (h : heap) : bool :=
  Vector3_equals (vector h (origin (ray h r)))
                 (vector h (origin (ray h this)))
  && Vector3_equals (vector h (direction (ray h r)))
                    (vector h (direction (ray h this))).

(** The ray a Ray object stands for: the coordinates of its two vectors. *)
Definition value (h : heap) (r : ref) : Ray.t :=
  Ray.mk (vector h (origin (ray h r)))
         (vector h (direction (ray h r))).

(** The Ray object [r] and its two vectors are allocated. *)
Definition allocated (h : heap) (r : ref) : Prop :=
  r < rayCount h
  /\ origin (ray h r) < vectorCount h
  /\ direction (ray h r) < vectorCount h.

(** No coordinate of the ray is NaN. *)
Definition numeric (r : Ray.t) : bool :=
  let self (a : num) := eqb a a in
  self (Vector3.x (Ray.origin r)) && self (Vector3.y (Ray.origin r))
  && self (Vector3.z (Ray.origin r)) && self (Vector3.x (Ray.direction r))
  && self (Vector3.y (Ray.direction r)) && self (Vector3.z (Ray.direction r)).
End Heap.
End RayObject.

(** ** The first-person player (class [Player], src/unnamed/part_000) *)

(** [Math.min] and [Math.max] of two numbers in binary64: NaN if either is
    NaN; of two zeros [Math.min] takes the negative and [Math.max] the
    positive one. *)
Module JSMath.
Local Open Scope float_scope.

Definition min (a b : float) : float :=
  if PrimFloat.is_nan a || PrimFloat.is_nan b then PrimFloat.nan
  else if a <? b then a
  else if b <? a then b
  else if PrimFloat.get_sign a then a else b.

Definition max (a b : float) : float :=
  if PrimFloat.is_nan a || PrimFloat.is_nan b then PrimFloat.nan
  else if a <? b then b
  else if b <? a then a
  else if PrimFloat.get_sign a then b else a.

(** [Math.PI]. *)
Definition PI : float := 0x1.921fb54442d18p+1.
End JSMath.

(** Modelled from the spec: math/Quaternion.js is not under src/.  The
    three methods the handlers call are taken as an interface, each as the
    function from the old value of [this] to the new one. *)
Class QuaternionOps : Type := {
  Quaternion : Type;
  fromEuler : Quaternion -> float -> float -> float -> Quaternion;
  Quaternion_copy : Quaternion -> Quaternion -> Quaternion;
  multiplyQuaternions : Quaternion -> Quaternion -> Quaternion -> Quaternion
}.

Module Player.
Section Handlers.
Context {Q : QuaternionOps}.
Local Open Scope float_scope.

Definition PI05 : float := JSMath.PI / 2.

(** [this.input]. *)
Record Input : Set := mkInput {
  forward : bool;
  backward : bool;
  right : bool;
  left : bool
}.

(** The fields of the player that the handlers read or write; [rotation] is
    inherited from GameEntity and [headRotation] is [this.head.rotation]. *)
Record t : Type := mk {
  movementX : float;
  movementY : float;
  yaw : Quaternion;
  pitch : Quaternion;
  rotation : Quaternion;
  headRotation : Quaternion;
  input : Input;
  lookSpeed : float
}.

Record MouseEvent : Set := mkMouseEvent {
  event_movementX : float;
  event_movementY : float
}.

Definition onMouseMove (this : t) (event : MouseEvent) : t :=
  let movementX := movementX this - event_movementX event * 0x1.0624dd2f1a9fcp-10 * lookSpeed this in
  let movementY := movementY this - event_movementY event * 0x1.0624dd2f1a9fcp-10 * lookSpeed this in
  let movementY := JSMath.max (- PI05) (JSMath.min PI05 movementY) in
  let yaw := fromEuler (yaw this) 0 movementX 0 in
  let pitch := fromEuler (pitch this) movementY 0 0 in
  (* body *)
  let rotation := Quaternion_copy (rotation this) yaw in
  (* head *)
  let headRotation := multiplyQuaternions (headRotation this) yaw pitch in
  mk movementX movementY yaw pitch rotation headRotation (input this) (lookSpeed this).

Definition setInput (this : t) (i : Input) : t :=
  mk (movementX this) (movementY this) (yaw this) (pitch this) (rotation this)
     (headRotation this) i (lookSpeed this).

(** [switch ( event.keyCode )], with [value] assigned to the flag of the
    key. *)
Definition assignKey (i : Input) (keyCode : Z) (value : bool) : Input :=
  if (keyCode =? 38)%Z || (keyCode =? 87)%Z
  then mkInput value (backward i) (right i) (left i)
  else if (keyCode =? 37)%Z || (keyCode =? 65)%Z
  then mkInput (forward i) (backward i) (right i) value
  else if (keyCode =? 40)%Z || (keyCode =? 83)%Z
  then mkInput (forward i) value (right i) (left i)
  else if (keyCode =? 39)%Z || (keyCode =? 68)%Z
  then mkInput (forward i) (backward i) value (left i)
  else i.

Definition onKeyDown (this : t) (keyCode : Z) : t :=
  setInput this (assignKey (input this) keyCode true).

(** What the free name [event] stands for when a handler runs.  A browser
    binds it, as [window.event], to the event being dispatched and leaves it
    [undefined] otherwise; a host without that property does not declare the
    name at all.  [keyCode] is the key code of the event it is bound to. *)
Inductive Global : Set :=
| Undeclared
| Undefined
| Dispatched (keyCode : Z).

Inductive Error : Set :=
| ReferenceError
| TypeError.

(** How a handler ends, and [this] as it is then. *)
Inductive Outcome : Type :=
| Returns (this : t)
| Throws (e : Error) (this : t).

Definition after (o : Outcome) : t :=
  match o with
  | Returns this => this
  | Throws _ this => this
  end.

(** [onKeyUp] declares no parameter, so the event the listener is called
    with is bound to no name: the [event] of [switch ( event.keyCode )] is
    the global one.  The file is a module (strict code): reading a name that
    is not declared throws a ReferenceError, and [undefined.keyCode] throws
    a TypeError, in both cases before any flag is written. *)
Definition onKeyUp (this : t) (event : Global) : Outcome :=
  match event with
  | Undeclared => Throws ReferenceError this
  | Undefined => Throws TypeError this
  | Dispatched keyCode => Returns (setInput this (assignKey (input this) keyCode false))
  end.
End Handlers.
End Player.
(** ** More concrete inputs *)

Module Sample.
(** [Math.sqrt] over the exact numbers, for the examples: the root of the
    square of a rational, and elsewhere the roots of the numerator and of the
    denominator rounded down. *)
Definition root : Sqrt XQ := {|
  sqrt := fun a =>
    match a with
    | XNaN => XNaN
    | XInf negative => if negative then XNaN else XInf false
    | XNegZero => XNegZero
    | XFin q =>
      if XQOps.Qneg_bool q then XNaN
      else XFin (Z.sqrt (Qnum (Qred q)) # Pos.sqrt (Qden (Qred q)))
    end
|}.

(** Modelled from the spec: a world matrix that only translates, as
    [Example.Translation], over the exact numbers. *)
Definition Shift : Matrix4Ops XQ := {|
  Matrix4 := Vector3.t (N:=XQ);
  Vector3_applyMatrix4 := fun v m => Vector3.add v m;
  AABB_applyMatrix4 := fun box m =>
    AABB.mk (Vector3.add (AABB.min box) m) (Vector3.add (AABB.max box) m)
|}.

(** The ray and the triangle of the scenarios of section 8, over the exact
    numbers: from [(0, 3/10, -5)] along +z. *)
Definition ray : Ray.t (N:=XQ) :=
  Ray.mk (Example.qvec 0 (3 # 10) (-5)) (Example.qvec 0 0 1).

Definition triangle : Triangle.t (N:=XQ) :=
  Triangle.mk (Example.qvec (-1) 0 0) (Example.qvec 1 0 0) (Example.qvec 0 1 0).

Definition unitBox : AABB.t (N:=XQ) :=
  AABB.mk (Example.qvec (-1) (-1) (-1)) (Example.qvec 1 1 1).

Definition unitSphere : BoundingSphere.t (N:=XQ) :=
  BoundingSphere.mk (N:=XQ) (Example.qvec 0 0 0) (XFin 1).

(** The triangle as a mesh, with the box of its vertices. *)
Definition mesh : MeshGeometry.t (N:=XQ) :=
  MeshGeometry.mk (N:=XQ)
    [XFin (-1); XFin 0; XFin 0;  XFin 1; XFin 0; XFin 0;  XFin 0; XFin 1; XFin 0]
    None (AABB.mk (Example.qvec (-1) 0 0) (Example.qvec 1 1 0)) false.

(** The triangle [Example.flipped], which the ray [Example.ray] sees from
    its front, as a mesh with culling. *)
Definition front : MeshGeometry.t (N:=F64) :=
  MeshGeometry.mk (N:=F64) [(-1); 0; 0;  0; 1; 0;  1; 0; 0]%float None
    (AABB.mk (Example.vec (-1) 0 0) (Example.vec 1 1 0)) true.

(** The soup [Example.farThenNear] followed by the beginning of a third
    triangle. *)
Definition ragged : MeshGeometry.t (N:=F64) :=
  MeshGeometry.mk (N:=F64) (Example.farThenNear ++ [(-1); 0; (-2); 1]%float) None
    (AABB.mk (Example.vec (-1) 0 (-2)) (Example.vec 1 1 3)) false.

(** The mesh [Example.farThenNear] indexed, its first triangle with the
    index 9 of a vertex that the buffer does not hold. *)
Definition astray : MeshGeometry.t (N:=F64) :=
  MeshGeometry.mk (N:=F64) Example.farThenNear (Some [0; 1; 9; 3; 4; 5])
    (AABB.mk (Example.vec (-1) 0 0) (Example.vec 1 1 3)) false.

(** A triangle with a vertex that was never written. *)
Definition undefined : Triangle.t (N:=F64) :=
  Triangle.mk (Example.vec (-1) 0 0) (Example.vec 1 0 0)
              (Example.vec PrimFloat.nan PrimFloat.nan PrimFloat.nan).

(** A heap with one Ray object, from [(1, 2, 3)] along +z, and a third
    vector. *)
Definition heap : RayObject.heap (N:=F64) :=
  RayObject.mkHeap (N:=F64)
    (fun v => match v with
              | 0 => Example.vec 1 2 3
              | 1 => Example.vec 0 0 1
              | _ => Example.vec 7 8 9
              end)
    (fun _ => RayObject.mkFields 0 1) 3 1.
End Sample.

(** ** Order laws of the numbers *)

Lemma SFcompare_swap (a b : spec_float) :
  SFcompare b a = option_map CompOpp (SFcompare a b).
Proof.
  destruct a as [s| s| |s m e], b as [s'| s'| |s' m' e']; simpl; try reflexivity;
    try (destruct s; reflexivity); try (destruct s'; reflexivity);
    try (destruct s, s'; reflexivity).
  destruct s, s'; try reflexivity;
    change (IntDef.Z.compare e' e) with (Z.compare e' e);
    change (IntDef.Z.compare e e') with (Z.compare e e');
    rewrite (Z.compare_antisym e e');
    destruct (Z.compare e e') eqn:E; simpl; try reflexivity;
    change (PosDef.Pos.compare_cont Eq m' m) with (Pos.compare m' m);
    change (PosDef.Pos.compare_cont Eq m m') with (Pos.compare m m');
    rewrite (Pos.compare_antisym m m'); destruct (Pos.compare m m'); reflexivity.
Qed.

Ltac f64_compare a b :=
  rewrite ?ltb_spec, ?leb_spec, ?eqb_spec; unfold SFltb, SFleb, SFeqb;
  rewrite (SFcompare_swap (Prim2SF a) (Prim2SF b));
  destruct (SFcompare (Prim2SF a) (Prim2SF b)) as [[]|]; simpl; (intuition congruence).

#[export] Instance F64_laws : NumberLaws F64.
Proof.
  split; simpl; intros a b.
  - f64_compare a b.
  - f64_compare a b.
  - f64_compare a b.
  - f64_compare a b.
Qed.

(** Boolean comparisons of rationals, as propositions for [lra]. *)
Lemma Qle_bool_false (p q : Q) : Qle_bool p q = false <-> (q < p)%Q.
Proof.
  split; intro H.
  - apply Qnot_le_lt. intro L. apply Qle_bool_iff in L. congruence.
  - destruct (Qle_bool p q) eqn:E; [|reflexivity].
    apply Qle_bool_iff in E. exfalso. lra.
Qed.

Lemma Qeq_bool_false (p q : Q) : Qeq_bool p q = false <-> ~ (p == q)%Q.
Proof.
  split; intro H.
  - intro E. apply Qeq_bool_iff in E. congruence.
  - destruct (Qeq_bool p q) eqn:E; [|reflexivity].
    apply Qeq_bool_iff in E. contradiction.
Qed.

Ltac qbool :=
  repeat match goal with
  | H : Qle_bool _ _ = true |- _ => apply Qle_bool_iff in H
  | H : Qle_bool _ _ = false |- _ => apply Qle_bool_false in H
  | H : Qeq_bool _ _ = true |- _ => apply Qeq_bool_iff in H
  | H : Qeq_bool _ _ = false |- _ => apply Qeq_bool_false in H
  | |- Qle_bool _ _ = true => apply Qle_bool_iff
  | |- Qle_bool _ _ = false => apply Qle_bool_false
  | |- Qeq_bool _ _ = true => apply Qeq_bool_iff
  | |- Qeq_bool _ _ = false => apply Qeq_bool_false
  end.

Ltac xq_compare a b :=
  unfold XQOps.ltb, XQOps.leb, XQOps.eqb;
  destruct (XQOps.classify a) as [|[]|? p], (XQOps.classify b) as [|[]|? q];
  simpl; try (intuition congruence);
  rewrite ?negb_true_iff, ?negb_false_iff; intros; repeat split; qbool; lra.

#[export] Instance XQ_laws : NumberLaws XQ.
Proof.
  split; simpl; intros a b.
  - xq_compare a b.
  - xq_compare a b.
  - xq_compare a b.
  - xq_compare a b.
Qed.

(** ** Running the methods of [Ray] *)

Ltac run :=
  cbv beta iota zeta delta
    [bind ret read call fst snd option_map
     Triangle.a Triangle.b Triangle.c Ray.origin Ray.direction
     AABB.min AABB.max BoundingSphere.center BoundingSphere.radius
     Vector3.set Vector3.copy Vector3.add Vector3.multiplyScalar
     Vector3.subVectors Vector3.crossVectors Vector3.cross Vector3.dot
     Vector3.x Vector3.y Vector3.z].

Section StoreFacts.
Context {N : Number}.
Local Open Scope num_scope.

Lemma loc_eqb_refl (l : loc) : loc_eqb l l = true.
Proof. destruct l; reflexivity. Qed.

Lemma loc_eqb_neq (l l' : loc) : l <> l' -> loc_eqb l l' = false.
Proof. destruct l, l'; try reflexivity; intro H; exfalso; apply H; reflexivity. Qed.

Lemma upd_same (l : loc) (v : Vector3.t) (s : Store) : upd l v s l = v.
Proof. unfold upd. rewrite loc_eqb_refl. reflexivity. Qed.

Lemma upd_other (l l' : loc) (v : Vector3.t) (s : Store) :
  l' <> l -> upd l v s l' = s l'.
Proof.
  intro H. unfold upd. rewrite loc_eqb_neq; [reflexivity|].
  intro E. apply H. symmetry. exact E.
Qed.

(** [at] returns its [result] argument, holding the point at [t]; no other
    vector changes. *)
Lemma at_run (this : Ray.t) (t : num) (res : loc) (s : Store) :
  fst (Ray.at_ this t res s) = res
  /\ snd (Ray.at_ this t res s) res = Spec.pointAt this t
  /\ (forall l, l <> res -> snd (Ray.at_ this t res s) l = s l).
Proof.
  unfold Ray.at_, Spec.pointAt, bind, call, fst, snd. repeat split.
  - rewrite !upd_same. reflexivity.
  - intros l H. rewrite !upd_other by exact H. reflexivity.
Qed.

End StoreFacts.

(** Reading a vector back through the writes made so far. *)
Ltac reads :=
  rewrite ?upd_same;
  repeat (rewrite upd_other by discriminate; rewrite ?upd_same).

(** Case analysis on the next test that decides the control flow; a
    conditional that only selects a number is left alone. *)
Ltac branches :=
  repeat (match goal with
          | |- context [if ?c then ?a else _] =>
            lazymatch c with
            | context [if _ then _ else _] => fail
            | _ =>
              let T := type of a in
              lazymatch T with
              | num => fail
              | _ => destruct c eqn:?
              end
            end
          end; run; reads).

Ltac at_leaf :=
  match goal with
  | |- context [Ray.at_ ?r ?t ?res ?S] =>
    let H1 := fresh "Hfst" in
    let H2 := fresh "Hres" in
    let H3 := fresh "Hframe" in
    destruct (at_run r t res S) as (H1 & H2 & H3);
    destruct (Ray.at_ r t res S) as [? ?]; simpl in H1, H2, H3; subst
  end.

Ltac frame_leaf Hr :=
  first
    [ reflexivity
    | destruct Hr as [Hr|Hr];
      [ discriminate Hr
      | match goal with
        | H : forall l : loc, l <> _ -> _ = _ |- _ => rewrite H by exact Hr
        end; reads; reflexivity ] ].

Ltac finish_run :=
  cbv [orb andb negb]; try at_leaf; run;
  repeat split; try congruence;
  try (intros l Hl Hr; destruct l; try (cbv in Hl; discriminate Hl); reads;
       frame_leaf Hr).

Section RayRuns.
Context {N : Number}.
Local Open Scope num_scope.

Lemma intersectTriangle_run (this : Ray.t) (tri : Triangle.t) (cull : bool)
    (res : loc) (s : Store) :
  runs rayScratch this res (Spec.triangleT this tri cull) s
       (Ray.intersectTriangle this tri cull res s).
Proof.
  destruct this as [o d], tri as [a b c].
  unfold runs, Ray.intersectTriangle, Spec.triangleT, Spec.accepted, Spec.DdN,
    Spec.DdQxE2, Spec.DdE1xQ, Spec.QdN, Spec.normal, Spec.edge1, Spec.edge2,
    Spec.v1, Spec.vdot, Spec.vcross, Spec.vsub.
  run. reads. branches. all: finish_run.
Qed.

Lemma intersectBoundingSphere_run {S : Sqrt N} (this : Ray.t)
    (sphere : BoundingSphere.t) (res : loc) (s : Store) :
  runs rayScratch this res (Spec.sphereT this sphere) s
       (Ray.intersectBoundingSphere this sphere res s).
Proof.
  destruct this as [o d], sphere as [c r].
  unfold runs, Ray.intersectBoundingSphere, Spec.sphereT, Spec.t0, Spec.t1,
    Spec.thc, Spec.radius2, Spec.d2, Spec.tca, Spec.vdot, Spec.vsub.
  run. reads. branches. all: finish_run.
Qed.

Lemma intersectAABB_run (this : Ray.t) (box : AABB.t) (res : loc) (s : Store) :
  runs noScratch this res (Spec.boxT this box) s
       (Ray.intersectAABB this box res s).
Proof.
  unfold runs, Ray.intersectAABB, Spec.boxT, Spec.boxOf.
  cbv zeta.
  change (if (One / Vector3.x (Ray.direction this) >=? Zero) then _ else _)
    with (Spec.slabX this box).
  change (if (One / Vector3.y (Ray.direction this) >=? Zero) then _ else _)
    with (Spec.slabY this box).
  change (if (One / Vector3.z (Ray.direction this) >=? Zero) then _ else _)
    with (Spec.slabZ this box).
  destruct (Spec.slabX this box) as [tmin tmax],
    (Spec.slabY this box) as [tymin tymax],
    (Spec.slabZ this box) as [tzmin tzmax].
  cbv beta iota zeta delta [Spec.disjoint Spec.fold Spec.isNaN fst snd].
  set (tmin' := if (tymin >? tmin) || (tmin !== tmin) then tymin else tmin).
  set (tmax' := if (tymax <? tmax) || (tmax !== tmax) then tymax else tmax).
  clearbody tmin' tmax'.
  set (tmin'' := if (tzmin >? tmin') || (tmin' !== tmin') then tzmin else tmin').
  set (tmax'' := if (tzmax <? tmax') || (tmax' !== tmax') then tzmax else tmax').
  clearbody tmin'' tmax''.
  branches. all: finish_run.
Qed.

(** A method returns [null] exactly when there is no hit. *)
Lemma runs_null (scratch : loc -> bool) (this : Ray.t) (res : loc)
    (hit : option num) (s : Store) (out : option loc * Store) :
  runs scratch this res hit s out -> (fst out = None <-> hit = None).
Proof.
  intros (H & _). rewrite H. destruct hit; simpl; split; congruence.
Qed.

Lemma runs_hit (scratch : loc -> bool) (this : Ray.t) (res : loc)
    (hit : option num) (s : Store) (out : option loc * Store) (t : num) :
  runs scratch this res hit s out -> hit = Some t ->
  fst out = Some res /\ snd out res = Spec.pointAt this t.
Proof.
  intros (H & P & _) E. split; [rewrite H, E; reflexivity | exact (P t E)].
Qed.

(** The four tests of [accepted], as one disjunction. *)
Lemma accepted_rejects (r : Ray.t) (tri : Triangle.t) (sign denom : num) :
  Spec.accepted r tri sign denom =
  if Spec.rejects r tri sign denom then None
  else Some (Spec.QdN r tri sign / denom).
Proof.
  unfold Spec.accepted, Spec.rejects.
  destruct (Spec.DdQxE2 r tri sign <? Zero), (Spec.DdE1xQ r tri sign <? Zero),
    (Spec.DdQxE2 r tri sign + Spec.DdE1xQ r tri sign >? denom),
    (Spec.QdN r tri sign <? Zero); reflexivity.
Qed.

(** The two interval tests of [boxT], as one disjunction. *)
Lemma boxT_misses (r : Ray.t) (box : AABB.t) :
  Spec.boxT r box =
  if Spec.misses r box then None
  else if Spec.tmax r box <? Zero then None
  else Some (if Spec.tmin r box >=? Zero then Spec.tmin r box else Spec.tmax r box).
Proof.
  unfold Spec.boxT, Spec.boxOf, Spec.misses.
  destruct (Spec.disjoint (Spec.slabX r box) (Spec.slabY r box)); reflexivity.
Qed.
End RayRuns.

(** ** The three intersection tests *)

Section RayClaims.
Context {N : Number} {L : NumberLaws N}.
Local Open Scope num_scope.


(** C2, amended.  [Ray.intersectBoundingSphere] returns null when
    [d2 > radius^2]; it returns null when both roots [t0] and [t1] are
    negative; it returns [result] holding the exit point at [t1] when
    [t0 < 0] and [t1 >= 0], and also when [t0 < 0] and [t1] is NaN (the last
    conjunct: [t0 < 0] and [t1 < 0] fails); it returns [result] holding the
    entry point at [t0] when [t0 < 0] fails, not in every other case. *)
Theorem intersectBoundingSphere_roots {S : Sqrt N} (this : Ray.t)
    (sphere : BoundingSphere.t) (res : loc) (s : Store) :
  let out := Ray.intersectBoundingSphere this sphere res s in
  let t0 := Spec.t0 this sphere in
  let t1 := Spec.t1 this sphere in
  let outside := Spec.d2 this sphere >? Spec.radius2 sphere in
  (outside = true -> fst out = None)
  /\ ((t0 <? Zero) = true -> (t1 <? Zero) = true -> fst out = None)
  /\ (outside = false -> (t0 <? Zero) = true -> (t1 >=? Zero) = true ->
        fst out = Some res /\ snd out res = Spec.pointAt this t1)
  /\ (outside = false -> (t0 <? Zero) = false ->
        fst out = Some res /\ snd out res = Spec.pointAt this t0)
  /\ (outside = false -> (t0 <? Zero) = true -> (t1 <? Zero) = false ->
        fst out = Some res /\ snd out res = Spec.pointAt this t1).
Proof.
  intros out t0 t1 outside.
  pose proof (intersectBoundingSphere_run this sphere res s) as R.
  fold out in R.
  pose proof (runs_null R) as Hnull.
  assert (Hhit : forall t, Spec.sphereT this sphere = Some t ->
                   fst out = Some res /\ snd out res = Spec.pointAt this t)
    by (intros t; apply (runs_hit R)).
  unfold Spec.sphereT in Hnull, Hhit.
  fold outside t0 t1 in Hnull, Hhit.
  split; [|split; [|split; [|split]]].
  - intro E. apply Hnull. rewrite E. reflexivity.
  - intros E0 E1. apply Hnull. rewrite E0, E1. destruct outside; reflexivity.
  - intros E E0 E1. apply leb_not_gtb in E1. apply Hhit.
    rewrite E, E0, E1. reflexivity.
  - intros E E0. apply Hhit. rewrite E, E0. reflexivity.
  - intros E E0 E1. apply Hhit. rewrite E, E0, E1. reflexivity.
Qed.

(** C3.  With the three slab intervals folded into [tmin] and [tmax],
    [Ray.intersectAABB] returns null exactly when a pairwise interval test
    fails or the folded [tmax] is negative; otherwise it returns [result]
    holding the point at [tmin] when [tmin >= 0] and the point at [tmax]
    when [tmin < 0] (and, more generally, whenever [tmin >= 0] fails). *)
Theorem intersectAABB_folded (this : Ray.t) (box : AABB.t) (res : loc)
    (s : Store) :
  let out := Ray.intersectAABB this box res s in
  let tmin := Spec.tmin this box in
  let tmax := Spec.tmax this box in
  let behind := tmax <? Zero in
  (fst out = None <-> Spec.misses this box = true \/ behind = true)
  /\ (Spec.misses this box = false -> behind = false -> (tmin >=? Zero) = true ->
        fst out = Some res /\ snd out res = Spec.pointAt this tmin)
  /\ (Spec.misses this box = false -> behind = false -> (tmin <? Zero) = true ->
        fst out = Some res /\ snd out res = Spec.pointAt this tmax)
  /\ (Spec.misses this box = false -> behind = false -> (tmin >=? Zero) = false ->
        fst out = Some res /\ snd out res = Spec.pointAt this tmax).
Proof.
  intros out tmin tmax behind.
  pose proof (intersectAABB_run this box res s) as R.
  fold out in R.
  pose proof (runs_null R) as Hnull.
  assert (Hhit : forall t, Spec.boxT this box = Some t ->
                   fst out = Some res /\ snd out res = Spec.pointAt this t)
    by (intros t; apply (runs_hit R)).
  rewrite boxT_misses in Hnull, Hhit.
  fold tmin tmax in Hnull, Hhit. fold behind in Hnull, Hhit.
  split; [|split; [|split]].
  - rewrite Hnull.
    destruct (Spec.misses this box), behind; split; intro H;
      try reflexivity; try discriminate H; auto.
    destruct H as [H|H]; discriminate H.
  - intros E1 E2 E3. apply Hhit. rewrite E1, E2, E3. reflexivity.
  - intros E1 E2 E3. apply ltb_not_geb in E3. apply Hhit.
    rewrite E1, E2, E3. reflexivity.
  - intros E1 E2 E3. apply Hhit. rewrite E1, E2, E3. reflexivity.
Qed.
End RayClaims.

Section Determinism.
Context {N : Number}.

(** C9.  [Ray.intersectTriangle] has no hidden state: whatever the scratch
    vectors (and every other vector of the store) hold when it is called,
    the same ray, triangle and culling flag give the same null/hit decision
    and, on a hit, the same point in [result].  In particular a second call
    made right after the first, on the scratch vectors the first one left
    behind, returns what the first returned. *)
Theorem intersectTriangle_deterministic (this : Ray.t) (tri : Triangle.t)
    (cull : bool) (res : loc) (s s' : Store) :
  let first := Ray.intersectTriangle this tri cull res s in
  let other := Ray.intersectTriangle this tri cull res s' in
  let again := Ray.intersectTriangle this tri cull res (snd first) in
  (fst first = fst other
   /\ (fst first <> None -> snd first res = snd other res))
  /\ (fst first = fst again
      /\ (fst first <> None -> snd first res = snd again res)).
Proof.
  intros first other again.
  destruct (intersectTriangle_run this tri cull res s) as (F1 & P1 & _).
  destruct (intersectTriangle_run this tri cull res s') as (F2 & P2 & _).
  destruct (intersectTriangle_run this tri cull res (snd first)) as (F3 & P3 & _).
  fold first in F1, P1. fold other in F2, P2. fold again in F3, P3.
  destruct (Spec.triangleT this tri cull) as [t|].
  - rewrite (P1 t eq_refl), (P2 t eq_refl), (P3 t eq_refl).
    repeat split; congruence.
  - repeat split; try congruence; intro H; exfalso; apply H; exact F1.
Qed.
End Determinism.

(** *** The scenarios of section 8, in binary64 *)


(** The unit sphere is entered at [(0, 0.25, z)] with [z = -sqrt (1 - 1/16)]. *)
Lemma intersectBoundingSphere_roots_witness :
  let out := Ray.intersectBoundingSphere Example.ray Example.unitSphere result
               Example.zeroStore in
  fst out = Some result
  /\ snd out result = Spec.pointAt Example.ray (Spec.t0 Example.ray Example.unitSphere).
Proof.
  pose proof (@intersectBoundingSphere_roots F64 F64_laws F64_sqrt Example.ray
                Example.unitSphere result Example.zeroStore) as H.
  cbv zeta in H. destruct H as (_ & _ & _ & H & _).
  exact (H eq_refl eq_refl).
Defined.

(** C2 as stated fails where [t1] is NaN.  From the origin along
    (-2^1000, 0, 0), with the sphere of radius 2^600 around (2^300, 0, 0),
    [tca] overflows to -Infinity and [radius^2] to +Infinity: [d2] is
    -Infinity, [thc] is +Infinity, [t0] is -Infinity and [t1], the sum of the
    two infinities, is NaN.  Neither [d2 > radius^2] nor [t1 < 0] nor
    [t1 >= 0] holds, so the claim asks for the point at [t0], whose first
    coordinate is +Infinity; the code returns the point at [t1], NaN in
    every coordinate. *)
Lemma intersectBoundingSphere_nan_root :
  let ray := Ray.mk (Example.vec 0 0 0) (Example.vec (-0x1p1000) 0 0) in
  let sphere := BoundingSphere.mk (N:=F64) (Example.vec 0x1p300 0 0) 0x1p600%float in
  let out := Ray.intersectBoundingSphere ray sphere result Example.zeroStore in
  let t0 := Spec.t0 ray sphere in
  let t1 := Spec.t1 ray sphere in
  (Spec.d2 ray sphere >? Spec.radius2 sphere)%num = false
  /\ t0 = PrimFloat.neg_infinity
  /\ PrimFloat.is_nan t1 = true
  /\ (t0 <? Zero)%num = true
  /\ (t1 <? Zero)%num = false
  /\ (t1 >=? Zero)%num = false
  /\ fst out = Some result
  /\ snd out result = Spec.pointAt ray t1
  /\ snd out result = Example.vec PrimFloat.nan PrimFloat.nan PrimFloat.nan
  /\ Vector3.x (Spec.pointAt ray t0) = PrimFloat.infinity.
Proof. vm_compute. repeat split. Qed.

(** The unit box is entered through its face [z = -1]. *)
Lemma intersectAABB_folded_witness :
  let out := Ray.intersectAABB Example.ray Example.unitBox result
               Example.zeroStore in
  fst out = Some result /\ snd out result = Example.vec 0 0.25 (-1).
Proof.
  pose proof (@intersectAABB_folded F64 F64_laws Example.ray Example.unitBox
                result Example.zeroStore) as H.
  cbv zeta in H. destruct H as (_ & H & _).
  destruct (H eq_refl eq_refl eq_refl) as [A B].
  split; [exact A | rewrite B; reflexivity].
Defined.

(** ** Running [Obstacle.intersectRay] *)

Section ObstacleRuns.
Context {N : Number} {T : Matrix4Ops N}.
Import ObstacleSpec.

Lemma Vector3_copy_eta (r v : Vector3.t) : Vector3.copy r v = v.
Proof. destruct v; reflexivity. Qed.

Lemma AABB_copy_eta (b box : AABB.t) : AABB.copy b box = box.
Proof.
  destruct box as [lo hi]. unfold AABB.copy. simpl.
  rewrite !Vector3_copy_eta. reflexivity.
Qed.

Lemma AABB_eta (box : AABB.t) : AABB.mk (AABB.min box) (AABB.max box) = box.
Proof. destruct box; reflexivity. Qed.

(** [9 * k < l] holds for exactly the first [passes l 9] values of [k]. *)
Lemma passes_lt (l stride k : nat) :
  0 < stride -> (k < passes l stride <-> stride * k < l).
Proof.
  intro Hs. unfold passes. split; intro H.
  - destruct (Nat.lt_ge_cases (stride * k) l) as [|G]; [assumption|exfalso].
    assert (l + (stride - 1) < stride * S k) as B by lia.
    apply Nat.Div0.div_lt_upper_bound in B. lia.
  - assert (stride * S k <= l + (stride - 1)) as B by lia.
    apply Nat.div_le_lower_bound in B; lia.
Qed.

Lemma passes_le (l stride : nat) : 0 < stride -> passes l stride <= l.
Proof.
  intro Hs. destruct (Nat.le_gt_cases (passes l stride) l) as [|G]; [assumption|].
  apply passes_lt in G; [nia | exact Hs].
Qed.

(** One pass of a loop, from the three [applyMatrix4] calls on: a hit ends
    the scan with the point in [result]; a miss goes on to [next], the
    caller's vector untouched. *)
Lemma testTriangle_run (this : Obstacle.t) (ray : Ray.t) (res : loc)
    (next : M (option loc)) (s : Store) :
  let tri := toWorld (Obstacle.worldMatrix this)
               (Triangle.mk (s triangle_a) (s triangle_b) (s triangle_c)) in
  let cull := MeshGeometry.backfaceCulling (Obstacle.geometry this) in
  let out := Obstacle.testTriangle this ray res next s in
  match Spec.triangleT ray tri cull with
  | Some t =>
    fst out = Some res
    /\ snd out res = Spec.pointAt ray t
    /\ (forall l, scratch l = false -> l <> res -> snd out l = s l)
  | None =>
    exists s', out = next s' /\ (forall l, scratch l = false -> s' l = s l)
  end.
Proof.
  intros tri cull out. subst out. unfold Obstacle.testTriangle.
  cbv beta iota zeta delta [bind call read ret]. reads.
  match goal with
  | |- context [Ray.intersectTriangle ray ?tr ?cu res ?S] =>
    change tr with tri; change cu with cull;
    destruct (intersectTriangle_run ray tri cull res S) as (F & P & Fr);
    destruct (Ray.intersectTriangle ray tri cull res S) as [hit s1]
  end.
  simpl in F, P, Fr.
  destruct (Spec.triangleT ray tri cull) as [t|]; simpl in F; subst hit.
  - simpl. split; [reflexivity|]. split; [exact (P t eq_refl)|].
    intros l Hl Hr. rewrite Fr; [|destruct l; try discriminate Hl; reflexivity|right; exact Hr].
    destruct l; try discriminate Hl; reads; reflexivity.
  - exists s1. split; [reflexivity|].
    intros l Hl. rewrite Fr; [|destruct l; try discriminate Hl; reflexivity|left; reflexivity].
    destruct l; try discriminate Hl; reads; reflexivity.
Qed.

Lemma runs_miss (ray : Ray.t) (res : loc) (s : Store) :
  runs scratch ray res None s (None, s).
Proof. repeat split; intros; try discriminate; reflexivity. Qed.

(** A hit in this pass. *)
Lemma runs_now (ray : Ray.t) (res : loc) (t : num) (s0 s : Store)
    (out : option loc * Store) :
  fst out = Some res -> snd out res = Spec.pointAt ray t ->
  (forall l, scratch l = false -> l <> res -> snd out l = s0 l) ->
  (forall l, scratch l = false -> s0 l = s l) ->
  runs scratch ray res (Some t) s out.
Proof.
  intros F P Fr Fs. split; [exact F|]. split.
  - intros t' E. injection E as <-. exact P.
  - intros l Hl [H|H]; [discriminate H|]. rewrite Fr, Fs; auto.
Qed.

(** A miss in this pass, and the rest of the scan from the store it left. *)
Lemma runs_later (ray : Ray.t) (res : loc) (hit : option num) (s' s : Store)
    (out : option loc * Store) :
  runs scratch ray res hit s' out ->
  (forall l, scratch l = false -> s' l = s l) ->
  runs scratch ray res hit s out.
Proof.
  intros (F & P & Fr) Fs. split; [exact F|]. split; [exact P|].
  intros l Hl H. rewrite Fr, Fs; auto.
Qed.

Lemma nonIndexedLoop_run (this : Obstacle.t) (ray : Ray.t) (res : loc) :
  let g := Obstacle.geometry this in
  let vertices := MeshGeometry.vertices g in
  forall (n k fuel : nat) (s : Store),
    k + n = passes (length vertices) 9 -> n <= fuel ->
    runs scratch ray res
      (firstHit ray (MeshGeometry.backfaceCulling g)
         (map (toWorld (Obstacle.worldMatrix this))
            (map (soupTriangle vertices) (seq k n))))
      s (Obstacle.nonIndexedLoop fuel this ray res (9 * k) s).
Proof.
  intros g vertices. induction n as [|n IH]; intros k fuel s Hk Hf.
  - simpl firstHit.
    assert (E : (9 * k <? length vertices) = false).
    { apply Nat.ltb_ge. apply Nat.le_ngt. intro C.
      apply passes_lt in C; [lia|lia]. }
    destruct fuel; cbn [Obstacle.nonIndexedLoop]; fold g; fold vertices;
      rewrite ?E; apply runs_miss.
  - destruct fuel as [|fuel]; [lia|].
    assert (E : (9 * k <? length vertices) = true).
    { apply Nat.ltb_lt. apply passes_lt; lia. }
    cbn [Obstacle.nonIndexedLoop]. fold g. fold vertices. rewrite E.
    cbv beta iota zeta delta [bind call].
    match goal with
    | |- context [Obstacle.testTriangle this ray res ?next ?S] =>
      pose proof (testTriangle_run this ray res next S) as R;
      set (out := Obstacle.testTriangle this ray res next S) in *;
      set (s0 := S) in *
    end.
    assert (Fs : forall l, scratch l = false -> s0 l = s l).
    { intros l Hl. subst s0. destruct l; try discriminate Hl. reads. reflexivity. }
    cbv zeta in R.
    change (toWorld (Obstacle.worldMatrix this)
              (Triangle.mk (s0 triangle_a) (s0 triangle_b) (s0 triangle_c)))
      with (toWorld (Obstacle.worldMatrix this) (soupTriangle vertices k)) in R.
    fold g in R.
    cbn [seq map firstHit].
    destruct (Spec.triangleT ray
                (toWorld (Obstacle.worldMatrix this) (soupTriangle vertices k))
                (MeshGeometry.backfaceCulling g)) as [t|].
    + destruct R as (F & P & Fr). exact (@runs_now ray res t s0 s out F P Fr Fs).
    + destruct R as (s' & E' & Fr). rewrite E'.
      replace (9 * k + 9) with (9 * S k) by lia.
      apply runs_later with (s' := s').
      * apply IH; lia.
      * intros l Hl. rewrite Fr, Fs; auto.
Qed.

Lemma set_vertexAt (r : Vector3.t) (vertices : list num) (a : option nat) :
  Vector3.set r
    (Obstacle.elementAt vertices (Obstacle.times a 3))
    (Obstacle.elementAt vertices (Obstacle.plus (Obstacle.times a 3) 1))
    (Obstacle.elementAt vertices (Obstacle.plus (Obstacle.times a 3) 2))
  = vertexAt vertices a.
Proof. destruct a; reflexivity. Qed.

Lemma indexedLoop_run (this : Obstacle.t) (ray : Ray.t) (res : loc)
    (indices : list nat) :
  let g := Obstacle.geometry this in
  let vertices := MeshGeometry.vertices g in
  forall (n k fuel : nat) (s : Store),
    k + n = passes (length indices) 3 -> n <= fuel ->
    runs scratch ray res
      (firstHit ray (MeshGeometry.backfaceCulling g)
         (map (toWorld (Obstacle.worldMatrix this))
            (map (indexedTriangle vertices indices) (seq k n))))
      s (Obstacle.indexedLoop fuel this ray res indices (3 * k) s).
Proof.
  intros g vertices. induction n as [|n IH]; intros k fuel s Hk Hf.
  - simpl firstHit.
    assert (E : (3 * k <? length indices) = false).
    { apply Nat.ltb_ge. apply Nat.le_ngt. intro C.
      apply passes_lt in C; [lia|lia]. }
    destruct fuel; cbn [Obstacle.indexedLoop]; rewrite ?E; apply runs_miss.
  - destruct fuel as [|fuel]; [lia|].
    assert (E : (3 * k <? length indices) = true).
    { apply Nat.ltb_lt. apply passes_lt; lia. }
    cbn [Obstacle.indexedLoop]. fold g. fold vertices. rewrite E.
    cbv beta iota zeta delta [bind call Obstacle.index].
    rewrite !set_vertexAt.
    match goal with
    | |- context [Obstacle.testTriangle this ray res ?next ?S] =>
      pose proof (testTriangle_run this ray res next S) as R;
      set (out := Obstacle.testTriangle this ray res next S) in *;
      set (s0 := S) in *
    end.
    assert (Fs : forall l, scratch l = false -> s0 l = s l).
    { intros l Hl. subst s0. destruct l; try discriminate Hl. reads. reflexivity. }
    cbv zeta in R.
    change (toWorld (Obstacle.worldMatrix this)
              (Triangle.mk (s0 triangle_a) (s0 triangle_b) (s0 triangle_c)))
      with (toWorld (Obstacle.worldMatrix this) (indexedTriangle vertices indices k))
      in R.
    fold g in R.
    cbn [seq map firstHit].
    destruct (Spec.triangleT ray
                (toWorld (Obstacle.worldMatrix this)
                   (indexedTriangle vertices indices k))
                (MeshGeometry.backfaceCulling g)) as [t|].
    + destruct R as (F & P & Fr). exact (@runs_now ray res t s0 s out F P Fr Fs).
    + destruct R as (s' & E' & Fr). rewrite E'.
      replace (3 * k + 3) with (3 * S k) by lia.
      apply runs_later with (s' := s').
      * apply IH; lia.
      * intros l Hl. rewrite Fr, Fs; auto.
Qed.

(** The whole query: broad phase, then the first hit in buffer order.  Only
    scratch vectors change on a miss. *)
Lemma intersectRay_run (this : Obstacle.t) (ray : Ray.t) (res : loc) (s : Store) :
  runs scratch ray res (obstacleT this ray) s (Obstacle.intersectRay this ray res s).
Proof.
  unfold Obstacle.intersectRay, obstacleT, worldTriangles, triangles, worldBox.
  cbv beta iota zeta delta [bind Obstacle.callAABB Obstacle.readAABB].
  reads. rewrite AABB_copy_eta, !AABB_eta.
  set (box := AABB_applyMatrix4 (MeshGeometry.aabb (Obstacle.geometry this))
                (Obstacle.worldMatrix this)).
  match goal with
  | |- context [Ray.intersectAABB ray box intersectionPointAABB ?S] =>
    destruct (intersectAABB_run ray box intersectionPointAABB S) as (F & _ & Fr);
    set (s0 := S) in *;
    destruct (Ray.intersectAABB ray box intersectionPointAABB s0) as [broad s1]
  end.
  simpl in F, Fr.
  assert (Fs : forall l, scratch l = false -> s1 l = s l).
  { intros l Hl. rewrite Fr; [|reflexivity|right; destruct l; discriminate].
    subst s0. destruct l; try discriminate Hl. reads. reflexivity. }
  destruct (Spec.boxT ray box) as [t|]; simpl in F; subst broad.
  - destruct (MeshGeometry.indices (Obstacle.geometry this)) as [indices|].
    + apply runs_later with (s' := s1); [|exact Fs].
      pose proof (@indexedLoop_run this ray res indices) as LR. cbv zeta in LR.
      apply (LR (passes (length indices) 3) 0 (length indices) s1);
        [reflexivity | apply passes_le; lia].
    + apply runs_later with (s' := s1); [|exact Fs].
      pose proof (@nonIndexedLoop_run this ray res) as LR. cbv zeta in LR.
      apply (LR (passes (length (MeshGeometry.vertices (Obstacle.geometry this))) 9)
               0 (length (MeshGeometry.vertices (Obstacle.geometry this))) s1);
        [reflexivity | apply passes_le; lia].
  - apply runs_later with (s' := s1); [apply runs_miss | exact Fs].
Qed.
(** One pass of a loop, for a [result] that is not a vertex of the scratch
    triangle: a hit ends the scan with the scratch triangle holding the
    triangle just tested, in world space; a miss goes on to [next]. *)
Lemma testTriangle_stops (this : Obstacle.t) (ray : Ray.t) (res : loc)
    (next : M (option loc)) (s : Store) :
  let tri := toWorld (Obstacle.worldMatrix this)
               (Triangle.mk (s triangle_a) (s triangle_b) (s triangle_c)) in
  let cull := MeshGeometry.backfaceCulling (Obstacle.geometry this) in
  let out := Obstacle.testTriangle this ray res next s in
  ~ In res [triangle_a; triangle_b; triangle_c] ->
  match Spec.triangleT ray tri cull with
  | Some _ =>
    snd out triangle_a = Triangle.a tri
    /\ snd out triangle_b = Triangle.b tri
    /\ snd out triangle_c = Triangle.c tri
  | None => exists s', out = next s'
  end.
Proof.
  intros tri cull out Hres. subst out. unfold Obstacle.testTriangle.
  cbv beta iota zeta delta [bind call read ret]. reads.
  match goal with
  | |- context [Ray.intersectTriangle ray ?tr ?cu res ?S] =>
    change tr with tri; change cu with cull;
    destruct (intersectTriangle_run ray tri cull res S) as (F & _ & Fr);
    destruct (Ray.intersectTriangle ray tri cull res S) as [hit s1]
  end.
  simpl in F, Fr.
  destruct (Spec.triangleT ray tri cull) as [t|]; simpl in F; subst hit.
  - simpl.
    repeat split;
      (rewrite Fr;
       [reads; reflexivity
       | reflexivity
       | right; intro E; apply Hres; rewrite <- E; simpl; auto]).
  - exists s1. reflexivity.
Qed.

(** The scan of a list of triangles stops at the first one that is hit. *)
Lemma nonIndexedLoop_stops (this : Obstacle.t) (ray : Ray.t) (res : loc) :
  let g := Obstacle.geometry this in
  let vertices := MeshGeometry.vertices g in
  let cull := MeshGeometry.backfaceCulling g in
  ~ In res [triangle_a; triangle_b; triangle_c] ->
  forall (n k fuel : nat) (s : Store) (before after : list Triangle.t)
         (tri : Triangle.t),
    k + n = passes (length vertices) 9 -> n <= fuel ->
    map (toWorld (Obstacle.worldMatrix this))
        (map (soupTriangle vertices) (seq k n)) = before ++ tri :: after ->
    Forall (fun tri' => Spec.triangleT ray tri' cull = None) before ->
    Spec.triangleT ray tri cull <> None ->
    let out := Obstacle.nonIndexedLoop fuel this ray res (9 * k) s in
    snd out triangle_a = Triangle.a tri
    /\ snd out triangle_b = Triangle.b tri
    /\ snd out triangle_c = Triangle.c tri.
Proof.
  intros g vertices cull Hres.
  induction n as [|n IH]; intros k fuel s before after tri Hk Hf Hts Hbefore Hhit.
  - destruct before; discriminate Hts.
  - destruct fuel as [|fuel]; [lia|].
    assert (E : (9 * k <? length vertices) = true).
    { apply Nat.ltb_lt. apply passes_lt; lia. }
    cbn [Obstacle.nonIndexedLoop]. fold g. fold vertices. rewrite E.
    cbv beta iota zeta delta [bind call].
    match goal with
    | |- context [Obstacle.testTriangle this ray res ?next ?S] =>
      pose proof (testTriangle_stops this ray next S Hres) as R;
      set (out := Obstacle.testTriangle this ray res next S) in *;
      set (s0 := S) in *
    end.
    cbv zeta in R.
    change (toWorld (Obstacle.worldMatrix this)
              (Triangle.mk (s0 triangle_a) (s0 triangle_b) (s0 triangle_c)))
      with (toWorld (Obstacle.worldMatrix this) (soupTriangle vertices k)) in R.
    fold g in R. fold cull in R.
    cbn [seq map] in Hts.
    destruct before as [|tri' before].
    + injection Hts as Htri _. rewrite Htri in R.
      destruct (Spec.triangleT ray tri cull); [exact R | contradiction].
    + injection Hts as Htri Hts. rewrite Htri in R.
      inversion Hbefore as [|? ? Hmiss Hrest]; subst.
      rewrite Hmiss in R. destruct R as (s' & E').
      rewrite E'. replace (9 * k + 9) with (9 * S k) by lia.
      apply (IH (S k) fuel s' before after tri); try assumption; lia.
Qed.

Lemma indexedLoop_stops (this : Obstacle.t) (ray : Ray.t) (res : loc)
    (indices : list nat) :
  let g := Obstacle.geometry this in
  let vertices := MeshGeometry.vertices g in
  let cull := MeshGeometry.backfaceCulling g in
  ~ In res [triangle_a; triangle_b; triangle_c] ->
  forall (n k fuel : nat) (s : Store) (before after : list Triangle.t)
         (tri : Triangle.t),
    k + n = passes (length indices) 3 -> n <= fuel ->
    map (toWorld (Obstacle.worldMatrix this))
        (map (indexedTriangle vertices indices) (seq k n)) = before ++ tri :: after ->
    Forall (fun tri' => Spec.triangleT ray tri' cull = None) before ->
    Spec.triangleT ray tri cull <> None ->
    let out := Obstacle.indexedLoop fuel this ray res indices (3 * k) s in
    snd out triangle_a = Triangle.a tri
    /\ snd out triangle_b = Triangle.b tri
    /\ snd out triangle_c = Triangle.c tri.
Proof.
  intros g vertices cull Hres.
  induction n as [|n IH]; intros k fuel s before after tri Hk Hf Hts Hbefore Hhit.
  - destruct before; discriminate Hts.
  - destruct fuel as [|fuel]; [lia|].
    assert (E : (3 * k <? length indices) = true).
    { apply Nat.ltb_lt. apply passes_lt; lia. }
    cbn [Obstacle.indexedLoop]. fold g. fold vertices. rewrite E.
    cbv beta iota zeta delta [bind call Obstacle.index].
    rewrite !set_vertexAt.
    match goal with
    | |- context [Obstacle.testTriangle this ray res ?next ?S] =>
      pose proof (testTriangle_stops this ray next S Hres) as R;
      set (out := Obstacle.testTriangle this ray res next S) in *;
      set (s0 := S) in *
    end.
    cbv zeta in R.
    change (toWorld (Obstacle.worldMatrix this)
              (Triangle.mk (s0 triangle_a) (s0 triangle_b) (s0 triangle_c)))
      with (toWorld (Obstacle.worldMatrix this) (indexedTriangle vertices indices k))
      in R.
    fold g in R. fold cull in R.
    cbn [seq map] in Hts.
    destruct before as [|tri' before].
    + injection Hts as Htri _. rewrite Htri in R.
      destruct (Spec.triangleT ray tri cull); [exact R | contradiction].
    + injection Hts as Htri Hts. rewrite Htri in R.
      inversion Hbefore as [|? ? Hmiss Hrest]; subst.
      rewrite Hmiss in R. destruct R as (s' & E').
      rewrite E'. replace (3 * k + 3) with (3 * S k) by lia.
      apply (IH (S k) fuel s' before after tri); try assumption; lia.
Qed.

(** The whole query: behind a broad-phase hit the scan stops at the first
    triangle that is hit, which is what the scratch triangle then holds. *)
Lemma intersectRay_stops (this : Obstacle.t) (ray : Ray.t) (res : loc) (s : Store)
    (before after : list Triangle.t) (tri : Triangle.t) :
  let cull := MeshGeometry.backfaceCulling (Obstacle.geometry this) in
  let out := Obstacle.intersectRay this ray res s in
  ~ In res [triangle_a; triangle_b; triangle_c] ->
  Spec.boxT ray (worldBox this) <> None ->
  worldTriangles this = before ++ tri :: after ->
  Forall (fun tri' => Spec.triangleT ray tri' cull = None) before ->
  Spec.triangleT ray tri cull <> None ->
  snd out triangle_a = Triangle.a tri
  /\ snd out triangle_b = Triangle.b tri
  /\ snd out triangle_c = Triangle.c tri.
Proof.
  intros cull out Hres Hbox Hts Hbefore Hhit. subst out.
  unfold Obstacle.intersectRay.
  cbv beta iota zeta delta [bind Obstacle.callAABB Obstacle.readAABB].
  reads. rewrite AABB_copy_eta, !AABB_eta.
  fold (worldBox this).
  match goal with
  | |- context [Ray.intersectAABB ray (worldBox this) intersectionPointAABB ?S] =>
    destruct (intersectAABB_run ray (worldBox this) intersectionPointAABB S)
      as (F & _ & _);
    destruct (Ray.intersectAABB ray (worldBox this) intersectionPointAABB S)
      as [broad s1]
  end.
  simpl in F.
  destruct (Spec.boxT ray (worldBox this)) as [t|]; [|contradiction].
  simpl in F. subst broad.
  unfold worldTriangles, triangles in Hts.
  destruct (MeshGeometry.indices (Obstacle.geometry this)) as [indices|].
  - pose proof (@indexedLoop_stops this ray res indices) as LS. cbv zeta in LS.
    apply (LS Hres (passes (length indices) 3) 0 (length indices) s1 before after tri);
      [reflexivity | apply passes_le; lia | exact Hts | exact Hbefore | exact Hhit].
  - pose proof (@nonIndexedLoop_stops this ray res) as LS. cbv zeta in LS.
    apply (LS Hres (passes (length (MeshGeometry.vertices (Obstacle.geometry this))) 9)
             0 (length (MeshGeometry.vertices (Obstacle.geometry this))) s1
             before after tri);
      [reflexivity | apply passes_le; lia | exact Hts | exact Hbefore | exact Hhit].
Qed.
End ObstacleRuns.

(** ** The obstacle query *)

Section ObstacleClaims.
Context {N : Number} {T : Matrix4Ops N}.
Import ObstacleSpec.

(** C4, amended.  When the broad phase passes (the ray hits the world-space
    box) and the triangles of the mesh, in buffer order and in world space,
    are [before ++ tri :: after] with no triangle of [before] hit and [tri]
    hit, then [Obstacle.intersectRay] returns [result] holding the point at
    which the ray hits [tri], and the scan ends at [tri]: the scratch
    triangle, which every pass of the loop overwrites, holds [tri] when the
    query returns.  This is so whatever the triangles of [after] are: a
    later triangle that is hit nearer to the origin changes nothing. *)
Theorem intersectRay_first_hit (this : Obstacle.t) (ray : Ray.t) (res : loc)
    (s : Store) (before after : list Triangle.t) (tri : Triangle.t) :
  let cull := MeshGeometry.backfaceCulling (Obstacle.geometry this) in
  let out := Obstacle.intersectRay this ray res s in
  let hit := Ray.intersectTriangle ray tri cull res s in
  fst (Ray.intersectAABB ray (worldBox this) intersectionPointAABB s) <> None ->
  worldTriangles this = before ++ tri :: after ->
  Forall (fun tri' => fst (Ray.intersectTriangle ray tri' cull res s) = None)
         before ->
  fst hit <> None ->
  fst out = Some res
  /\ snd out res = snd hit res
  /\ (~ In res [triangle_a; triangle_b; triangle_c] ->
      snd out triangle_a = Triangle.a tri
      /\ snd out triangle_b = Triangle.b tri
      /\ snd out triangle_c = Triangle.c tri).
Proof.
  intros cull out hit Hbox Hts Hbefore Hhit.
  rewrite (runs_null (intersectAABB_run ray (worldBox this) intersectionPointAABB s))
    in Hbox.
  pose proof (intersectTriangle_run ray tri cull res s) as R. fold hit in R.
  rewrite (runs_null R) in Hhit.
  assert (Hmisses : Forall (fun tri' => Spec.triangleT ray tri' cull = None) before).
  { eapply Forall_impl; [|exact Hbefore]. intros tri' Hmiss.
    rewrite (runs_null (intersectTriangle_run ray tri' cull res s)) in Hmiss.
    exact Hmiss. }
  rewrite <- and_assoc. split.
  - destruct (Spec.triangleT ray tri cull) as [t|] eqn:Htri; [clear Hhit|contradiction].
    destruct R as (_ & P & _). rewrite (P t eq_refl).
    apply (runs_hit (intersectRay_run this ray res s)).
    unfold obstacleT. destruct (Spec.boxT ray (worldBox this)); [|contradiction].
    fold cull. rewrite Hts. clear Hts Hbefore.
    induction Hmisses as [|tri' before' Hmiss _ IH]; simpl.
    + rewrite Htri. reflexivity.
    + rewrite Hmiss. exact IH.
  - intro Hres.
    exact (@intersectRay_stops N T this ray res s before after tri Hres Hbox Hts
             Hmisses Hhit).
Qed.

(** C5.  When the ray misses the world-space box of the obstacle,
    [Obstacle.intersectRay] returns null and the narrow phase does not run:
    apart from the scratch box, which holds the world-space box, every vector
    of the store is as before (the scratch triangle and the scratch vectors
    of Ray.js among them), and an obstacle with any other vertex buffer,
    index buffer and culling flag gives the same. *)
Theorem intersectRay_broad_miss (this : Obstacle.t) (ray : Ray.t) (res : loc)
    (s : Store) :
  let out := Obstacle.intersectRay this ray res s in
  let box := worldBox this in
  fst (Ray.intersectAABB ray box intersectionPointAABB s) = None ->
  fst out = None
  /\ snd out aabb_min = AABB.min box
  /\ snd out aabb_max = AABB.max box
  /\ (forall l, l <> aabb_min -> l <> aabb_max -> snd out l = s l)
  /\ (forall vertices indices cull,
        let g' := MeshGeometry.mk vertices indices
                    (MeshGeometry.aabb (Obstacle.geometry this)) cull in
        let out' := Obstacle.intersectRay
                      (Obstacle.mk g' (Obstacle.worldMatrix this)) ray res s in
        fst out' = None /\ forall l, snd out' l = snd out l).
Proof.
  intros out box Hmiss.
  apply (runs_null (intersectAABB_run ray box intersectionPointAABB s)) in Hmiss.
  assert (G : forall g, MeshGeometry.aabb g = MeshGeometry.aabb (Obstacle.geometry this) ->
            let o := Obstacle.intersectRay (Obstacle.mk g (Obstacle.worldMatrix this))
                       ray res s in
            fst o = None /\ snd o aabb_min = AABB.min box
            /\ snd o aabb_max = AABB.max box
            /\ forall l, l <> aabb_min -> l <> aabb_max -> snd o l = s l).
  { intros g Hg o. subst o. unfold Obstacle.intersectRay.
    cbv beta iota zeta delta [bind Obstacle.callAABB Obstacle.readAABB].
    cbn [Obstacle.geometry Obstacle.worldMatrix]. reads. rewrite Hg, AABB_copy_eta, !AABB_eta. fold (worldBox this). fold box.
    match goal with
    | |- context [Ray.intersectAABB ray box intersectionPointAABB ?S] =>
      destruct (intersectAABB_run ray box intersectionPointAABB S) as (F & _ & Fr);
      set (s0 := S) in *;
      destruct (Ray.intersectAABB ray box intersectionPointAABB s0) as [broad s1]
    end.
    simpl in F, Fr. rewrite Hmiss in F, Fr. simpl in F. subst broad. simpl.
    assert (E : forall l, s1 l = s0 l)
      by (intro l; apply Fr; [reflexivity | left; reflexivity]).
    split; [reflexivity|]. rewrite !E. subst s0.
    split; [reads; reflexivity|]. split; [reads; reflexivity|].
    intros l H1 H2. rewrite E. rewrite !upd_other by assumption. reflexivity. }
  pose proof (G (Obstacle.geometry this) eq_refl) as G0.
  assert (Eo : Obstacle.mk (Obstacle.geometry this) (Obstacle.worldMatrix this) = this)
    by (destruct this; reflexivity).
  rewrite Eo in G0. cbv zeta in G0. fold out in G0.
  destruct G0 as (F & A & B & R).
  split; [exact F|]. split; [exact A|]. split; [exact B|]. split; [exact R|].
  intros vertices indices cull g' out'.
  pose proof (G g' eq_refl) as G1. cbv zeta in G1. fold out' in G1.
  destruct G1 as (F' & A' & B' & R').
  split; [exact F'|]. intro l.
  destruct (loc_eqb aabb_min l) eqn:E1.
  { destruct l; try discriminate E1. rewrite A', A. reflexivity. }
  destruct (loc_eqb aabb_max l) eqn:E2.
  { destruct l; try discriminate E2. rewrite B', B. reflexivity. }
  rewrite R', R; try reflexivity; intro C; subst l; discriminate.
Qed.

(** C6.  [Obstacle.intersectRay] reads the mesh as [triangles] lays it out:
    without an index buffer ([indices] is [null]) triangle [k] is the 9
    floats from [9 * k] on; with one, triangle [k] is made of the indices
    [3 * k], [3 * k + 1] and [3 * k + 2], each vertex being the 3 floats from
    [3 * index] on.  In both layouts every vertex goes through the world
    matrix before the triangle test and the triangles are tested in buffer
    order: after a broad-phase hit the result is the first hit of that list. *)
Theorem intersectRay_decodes (this : Obstacle.t) (ray : Ray.t) (res : loc)
    (s : Store) :
  let g := Obstacle.geometry this in
  let vertices := MeshGeometry.vertices g in
  let m := Obstacle.worldMatrix this in
  let out := Obstacle.intersectRay this ray res s in
  let world :=
    match MeshGeometry.indices g with
    | None =>
      map (fun k => toWorld m (soupTriangle vertices k))
          (seq 0 (passes (length vertices) 9))
    | Some indices =>
      map (fun k => toWorld m (indexedTriangle vertices indices k))
          (seq 0 (passes (length indices) 3))
    end in
  let hit :=
    match Spec.boxT ray (worldBox this) with
    | None => None
    | Some _ => firstHit ray (MeshGeometry.backfaceCulling g) world
    end in
  fst out = option_map (fun _ => res) hit
  /\ (forall t, hit = Some t -> snd out res = Spec.pointAt ray t).
Proof.
  intros g vertices m out world hit.
  destruct (intersectRay_run this ray res s) as (F & P & _).
  assert (E : obstacleT this ray = hit).
  { unfold obstacleT, hit, world, worldTriangles, triangles. fold g vertices m.
    destruct (Spec.boxT ray (worldBox this)); [|reflexivity].
    destruct (MeshGeometry.indices g); rewrite map_map; reflexivity. }
  rewrite E in F, P. split; [exact F | exact P].
Qed.
End ObstacleClaims.

Section Frame.
Context {N : Number} {S : Sqrt N} {T : Matrix4Ops N}.

(** C10.  Whenever [Ray.intersectBoundingSphere], [Ray.intersectAABB],
    [Ray.intersectTriangle] or [Obstacle.intersectRay] returns null, the
    vector passed as [result] holds what it held before the call.  ([result]
    is a vector of the caller: none of the scratch vectors of Ray.js, and for
    the obstacle query none of those of Obstacle.js either.) *)
Theorem null_leaves_result (ray : Ray.t) (res : loc) (s : Store) :
  rayScratch res = false ->
  (forall sphere,
     let out := Ray.intersectBoundingSphere ray sphere res s in
     fst out = None -> snd out res = s res)
  /\ (forall box,
        let out := Ray.intersectAABB ray box res s in
        fst out = None -> snd out res = s res)
  /\ (forall tri cull,
        let out := Ray.intersectTriangle ray tri cull res s in
        fst out = None -> snd out res = s res)
  /\ (forall obstacle,
        ObstacleSpec.scratch res = false ->
        let out := Obstacle.intersectRay obstacle ray res s in
        fst out = None -> snd out res = s res).
Proof.
  intro Hres. split; [|split; [|split]].
  - intros sphere out Hnull.
    pose proof (intersectBoundingSphere_run ray sphere res s) as R. fold out in R.
    apply (runs_null R) in Hnull. destruct R as (_ & _ & Fr).
    apply Fr; [exact Hres | left; exact Hnull].
  - intros box out Hnull.
    pose proof (intersectAABB_run ray box res s) as R. fold out in R.
    apply (runs_null R) in Hnull. destruct R as (_ & _ & Fr).
    apply Fr; [reflexivity | left; exact Hnull].
  - intros tri cull out Hnull.
    pose proof (intersectTriangle_run ray tri cull res s) as R. fold out in R.
    apply (runs_null R) in Hnull. destruct R as (_ & _ & Fr).
    apply Fr; [exact Hres | left; exact Hnull].
  - intros obstacle Hcaller out Hnull.
    pose proof (intersectRay_run obstacle ray res s) as R. fold out in R.
    apply (runs_null R) in Hnull. destruct R as (_ & _ & Fr).
    apply Fr; [exact Hcaller | left; exact Hnull].
Qed.
End Frame.

(** *** The obstacle query in binary64 *)

(** The soup [farThenNear] holds the triangle in the plane z = 3 before the
    one in the plane z = 0; the ray from z = -5 reaches the second at t = 5
    and the first at t = 8, and the query returns the point of the first,
    the scratch triangle holding the first. *)
Lemma intersectRay_first_hit_witness :
  let o := Obstacle.mk Example.soup Example.identity in
  let out := Obstacle.intersectRay o Example.ray result Example.zeroStore in
  map (fun tri => Spec.triangleT Example.ray tri false) (ObstacleSpec.worldTriangles o)
    = [Some 8%float; Some 5%float]
  /\ fst out = Some result
  /\ snd out result = Example.vec 0 0.25 3
  /\ Triangle.mk (snd out triangle_a) (snd out triangle_b) (snd out triangle_c)
     = Example.far.
Proof.
  split; [vm_compute; reflexivity|].
  destruct (@intersectRay_first_hit F64 Example.Translation
             (Obstacle.mk Example.soup Example.identity) Example.ray result
             Example.zeroStore [] (skipn 1 (ObstacleSpec.worldTriangles
                (Obstacle.mk Example.soup Example.identity))) Example.far)
    as (A & B & C).
  - vm_compute. discriminate.
  - vm_compute. reflexivity.
  - constructor.
  - vm_compute. discriminate.
  - split; [exact A|]. split; [rewrite B; reflexivity|].
    destruct C as (Ca & Cb & Cc).
    + simpl. intros [H|[H|[H|[]]]]; discriminate H.
    + rewrite Ca, Cb, Cc. reflexivity.
Defined.

(** C4 as stated fails: the mesh [corner] is one triangle with the box of its
    vertices, under the identity matrix, and the ray [grazing] goes through
    its vertex (1, 0, 0).  The triangle test accepts that ray, but the slab
    test of the broad phase puts the exit of the x slab at
    49 * (1 / 49) = 0.99999999999999989 and the z slab at 1, so the query
    returns null. *)
Lemma intersectRay_first_hit_behind_broad_phase :
  let o := Obstacle.mk Example.corner Example.identity in
  ObstacleSpec.worldTriangles o = [Example.cornerTriangle]
  /\ (let hit := Ray.intersectTriangle Example.grazing Example.cornerTriangle false
                   result Example.zeroStore in
      fst hit = Some result /\ snd hit result = Example.vec 1 0 0)
  /\ fst (Ray.intersectAABB Example.grazing (ObstacleSpec.worldBox o)
            intersectionPointAABB Example.zeroStore) = None
  /\ fst (Obstacle.intersectRay o Example.grazing result Example.zeroStore) = None.
Proof. vm_compute. repeat split. Qed.

(** The box of [malformed] is off the ray: the query returns null and leaves
    the scratch triangle alone, whatever the buffers hold. *)
Lemma intersectRay_broad_miss_witness :
  let o := Obstacle.mk Example.malformed Example.identity in
  let out := Obstacle.intersectRay o Example.ray result Example.usedStore in
  fst out = None
  /\ snd out triangle_a = Example.usedStore triangle_a
  /\ snd out v1 = Example.usedStore v1.
Proof.
  pose proof (@intersectRay_broad_miss F64 Example.Translation
                (Obstacle.mk Example.malformed Example.identity) Example.ray result
                Example.usedStore) as H.
  cbv zeta in H. destruct (H eq_refl) as (A & _ & _ & R & _).
  split; [exact A|]. split; apply R; discriminate.
Defined.

(** A culled back face: null, and [result] keeps its contents. *)
Lemma null_leaves_result_witness :
  let out := Ray.intersectTriangle Example.ray Example.triangle true result
               Example.usedStore in
  fst out = None /\ snd out result = Example.usedStore result.
Proof.
  destruct (@null_leaves_result F64 F64_sqrt Example.Translation Example.ray result
              Example.usedStore eq_refl) as (_ & _ & H & _).
  split; [reflexivity|]. apply H. reflexivity.
Defined.

(** ** Exact arithmetic *)

Section ExactArithmetic.
Import Exact.
Local Open Scope Q_scope.

Lemma Qzero_bool_true (q : Q) : XQOps.Qzero_bool q = true <-> q == 0.
Proof. unfold XQOps.Qzero_bool. apply Qeq_bool_iff. Qed.

Lemma Qzero_bool_false (q : Q) : XQOps.Qzero_bool q = false <-> ~ q == 0.
Proof. unfold XQOps.Qzero_bool. apply Qeq_bool_false. Qed.

Lemma Qneg_bool_true (q : Q) : XQOps.Qneg_bool q = true <-> q < 0.
Proof.
  unfold XQOps.Qneg_bool. rewrite negb_true_iff. apply Qle_bool_false.
Qed.

Lemma Qneg_bool_false (q : Q) : XQOps.Qneg_bool q = false <-> 0 <= q.
Proof.
  unfold XQOps.Qneg_bool. rewrite negb_false_iff. apply Qle_bool_iff.
Qed.

(** A finite value is one of the zeros or a rational; its view carries the
    rational it stands for. *)
Lemma valued_classify (a : xq) (q : Q) :
  valued a q -> exists s q', XQOps.classify a = XQOps.VFin s q' /\ q' == q.
Proof.
  destruct a as [|s| |p]; unfold valued; simpl; intro H; try contradiction.
  - exists true, 0. split; [reflexivity | exact H].
  - exists (XQOps.Qneg_bool p), p. split; [reflexivity | exact H].
Qed.

Lemma classify_valued (a : xq) (s : bool) (q : Q) :
  XQOps.classify a = XQOps.VFin s q -> valued a q.
Proof.
  destruct a as [|s'| |p]; simpl; intro H; try discriminate H;
    injection H as _ <-; unfold valued; simpl; reflexivity.
Qed.

Lemma valued_finite (s : bool) (q : Q) : valued (XQOps.finite s q) q.
Proof.
  unfold XQOps.finite, valued.
  destruct (XQOps.Qzero_bool q) eqn:Z.
  - apply Qzero_bool_true in Z. destruct s; simpl; lra.
  - simpl. apply Qred_correct.
Qed.

Lemma valued_eq (a : xq) (p q : Q) : valued a p -> p == q -> valued a q.
Proof.
  unfold valued. destruct (toQ a); [|contradiction]. intros H E. lra.
Qed.

Lemma neg_valued (a : xq) (p : Q) : valued a p -> valued (XQOps.neg a) (- p).
Proof.
  intro H. destruct (@valued_classify _ _ H) as (s & p' & C & E).
  unfold XQOps.neg. rewrite C.
  apply valued_eq with (p := - p'); [apply valued_finite | lra].
Qed.

Lemma add_valued (a b : xq) (p q : Q) :
  valued a p -> valued b q -> valued (XQOps.add a b) (p + q).
Proof.
  intros Ha Hb.
  destruct (@valued_classify _ _ Ha) as (s & p' & Ca & Ea).
  destruct (@valued_classify _ _ Hb) as (s' & q' & Cb & Eb).
  unfold XQOps.add. rewrite Ca, Cb.
  apply valued_eq with (p := p' + q'); [apply valued_finite | lra].
Qed.

Lemma sub_valued (a b : xq) (p q : Q) :
  valued a p -> valued b q -> valued (XQOps.sub a b) (p - q).
Proof.
  intros Ha Hb. unfold XQOps.sub.
  apply valued_eq with (p := p + - q); [|lra].
  apply add_valued; [exact Ha | apply neg_valued; exact Hb].
Qed.

Lemma mul_valued (a b : xq) (p q : Q) :
  valued a p -> valued b q -> valued (XQOps.mul a b) (p * q).
Proof.
  intros Ha Hb.
  destruct (@valued_classify _ _ Ha) as (s & p' & Ca & Ea).
  destruct (@valued_classify _ _ Hb) as (s' & q' & Cb & Eb).
  unfold XQOps.mul. rewrite Ca, Cb.
  apply valued_eq with (p := p' * q'); [apply valued_finite|].
  rewrite Ea, Eb. reflexivity.
Qed.

Lemma div_valued (a b : xq) (p q : Q) :
  valued a p -> valued b q -> ~ q == 0 -> valued (XQOps.div a b) (p / q).
Proof.
  intros Ha Hb Hq.
  destruct (@valued_classify _ _ Ha) as (s & p' & Ca & Ea).
  destruct (@valued_classify _ _ Hb) as (s' & q' & Cb & Eb).
  unfold XQOps.div. rewrite Ca, Cb.
  destruct (XQOps.Qzero_bool q') eqn:Z.
  - apply Qzero_bool_true in Z. exfalso. apply Hq. lra.
  - apply valued_eq with (p := p' / q'); [apply valued_finite|].
    rewrite Ea, Eb. reflexivity.
Qed.

(** Comparisons of finite values are those of the rationals. *)
Lemma ltb_valued (a b : xq) (p q : Q) :
  valued a p -> valued b q -> (XQOps.ltb a b = true <-> p < q).
Proof.
  intros Ha Hb.
  destruct (@valued_classify _ _ Ha) as (s & p' & Ca & Ea).
  destruct (@valued_classify _ _ Hb) as (s' & q' & Cb & Eb).
  unfold XQOps.ltb. rewrite Ca, Cb, negb_true_iff, Qle_bool_false. lra.
Qed.

Lemma leb_valued (a b : xq) (p q : Q) :
  valued a p -> valued b q -> (XQOps.leb a b = true <-> p <= q).
Proof.
  intros Ha Hb.
  destruct (@valued_classify _ _ Ha) as (s & p' & Ca & Ea).
  destruct (@valued_classify _ _ Hb) as (s' & q' & Cb & Eb).
  unfold XQOps.leb. rewrite Ca, Cb, Qle_bool_iff. lra.
Qed.
End ExactArithmetic.

(** ** The point of a ray *)

Section PointOfRay.
Import Exact.
Local Open Scope Q_scope.

(** C8, amended.  [Ray.at] returns [result] holding the point
    [direction * t + origin] as the arithmetic at hand computes it, binary64
    included.  In exact arithmetic, for a ray with a direction of unit
    length and a parameter [t >= 0], that point is [origin + direction * t]
    and its distance from the origin is [t]. *)
Theorem at_distance :
  (forall (N : Number) (ray : Ray.t) (t : num) (res : loc) (s : Store),
      let out := Ray.at_ ray t res s in
      fst out = res /\ snd out res = Spec.pointAt ray t)
  /\ (forall (ray : Ray.t (N:=XQ)) (t : xq) (res : loc) (s : Store (N:=XQ))
             (o d : point) (q : Q),
        located (Ray.origin ray) o -> located (Ray.direction ray) d ->
        valued t q -> unitLength d -> 0 <= q ->
        exists p,
          located (snd (Ray.at_ ray t res s) res) p
          /\ px p == px o + px d * q
          /\ py p == py o + py d * q
          /\ pz p == pz o + pz d * q
          /\ isDistance p o q).
Proof.
  split.
  { intros N ray t res s out. destruct (at_run ray t res s) as (F & P & _).
    split; assumption. }
  intros ray t res s o d q (Ox & Oy & Oz) (Dx & Dy & Dz) Ht Hunit Hq.
  destruct (at_run ray t res s) as (_ & P & _).
  exists (mkPoint (px d * q + px o) (py d * q + py o) (pz d * q + pz o)).
  split.
  { rewrite P. unfold Spec.pointAt, located. simpl.
    repeat split; apply add_valued; try apply mul_valued; assumption. }
  simpl. split; [ring|]. split; [ring|]. split; [ring|].
  split; [exact Hq|]. unfold squaredDistance, unitLength in *. simpl.
  transitivity (q * q * (px d * px d + py d * py d + pz d * pz d)); [|ring].
  rewrite Hunit. ring.
Qed.

(** The direction (3/5, 4/5, 0) from (1, 2, 3), at t = 5: the point
    (4, 6, 3), at distance 5. *)
Lemma at_distance_witness :
  let ray := Ray.mk (Example.qvec 1 2 3) (Example.qvec (3 # 5) (4 # 5) 0) in
  snd (Ray.at_ ray (XFin 5) result Example.zeroStore) result = Example.qvec 4 6 3
  /\ exists p,
       located (Example.qvec 4 6 3) p
       /\ isDistance p (mkPoint 1 2 3) 5.
Proof.
  split; [reflexivity|].
  destruct (proj2 at_distance
              (Ray.mk (Example.qvec 1 2 3) (Example.qvec (3 # 5) (4 # 5) 0))
              (XFin 5) result Example.zeroStore
              (mkPoint 1 2 3) (mkPoint (3 # 5) (4 # 5) 0) 5)
    as (p & L & _ & _ & _ & D).
  - repeat split; reflexivity.
  - repeat split; reflexivity.
  - reflexivity.
  - reflexivity.
  - discriminate.
  - exists p. split; [exact L | exact D].
Defined.

(** C8 as stated fails in binary64.  From (2^53, 0, 0) along the unit vector
    (1, 0, 0), the point at t = 1 is computed as 1 * 1 + 2^53, which rounds
    to 2^53: [at] returns the origin itself, at distance 0 and not 1. *)
Lemma at_distance_rounded :
  let ray := Ray.mk (Example.vec 0x1p53 0 0) (Example.vec 1 0 0) in
  let t := 1%float in
  let p := snd (Ray.at_ ray t result Example.zeroStore) result in
  Vector3.dot (Ray.direction ray) (Ray.direction ray) = 1%float
  /\ @leb F64 Zero t = true
  /\ p = Spec.pointAt ray t
  /\ p = Ray.origin ray
  /\ Vector3.dot (Vector3.subVectors p p (Ray.origin ray))
                 (Vector3.subVectors p p (Ray.origin ray)) = 0%float
  /\ @eqb F64 0%float (@mul F64 t t) = false.
Proof. vm_compute. repeat split. Qed.
End PointOfRay.

(** ** The slab test, exactly *)

Section ExactBox.
Import Exact.
Local Open Scope Q_scope.

Lemma ele_refl (x : ext) : ele x x.
Proof. destruct x; simpl; auto. lra. Qed.

Lemma ele_trans (x y z : ext) : ele x y -> ele y z -> ele x z.
Proof. destruct x, y, z; simpl; auto; try contradiction. lra. Qed.

(** A finite value demands its rational, as a lower and as an upper bound. *)
Lemma valued_bounds (a : xq) (p : Q) :
  valued a p ->
  exists p', lowerBound a = Rat p' /\ upperBound a = Rat p' /\ p' == p.
Proof.
  destruct a as [|s| |q]; unfold valued; simpl; intro H; try contradiction.
  - exists 0. auto.
  - exists q. auto.
Qed.

Ltac xq_cases :=
  unfold XQOps.ltb, XQOps.leb, XQOps.eqb; simpl;
  repeat match goal with
         | |- context [Qle_bool ?p ?q] => destruct (Qle_bool p q) eqn:?
         | |- context [Qeq_bool ?p ?q] => destruct (Qeq_bool p q) eqn:?
         end;
  simpl; qbool; try tauto; try lra; try (intuition discriminate);
  try (intuition lra).

(** The interval test [a > d] fails exactly when the lower bound [a] is
    above the upper bound [d]. *)
Lemma gt_bounds (a d : xq) :
  XQOps.ltb d a = false <-> ele (lowerBound a) (upperBound d).
Proof. destruct a as [|[]| |p], d as [|[]| |q]; xq_cases. Qed.

(** Folding a lower bound in takes the larger demand. *)
Lemma fold_lower (a c : xq) (z : ext) :
  ele (lowerBound (if XQOps.ltb a c || negb (XQOps.eqb a a) then c else a)) z
  <-> ele (lowerBound a) z /\ ele (lowerBound c) z.
Proof. destruct a as [|[]| |p], c as [|[]| |q], z as [|r|]; xq_cases. Qed.

(** Folding an upper bound in takes the smaller demand. *)
Lemma fold_upper (b d : xq) (z : ext) :
  ele z (upperBound (if XQOps.ltb d b || negb (XQOps.eqb b b) then d else b))
  <-> ele z (upperBound b) /\ ele z (upperBound d).
Proof. destruct b as [|[]| |p], d as [|[]| |q], z as [|r|]; xq_cases. Qed.

(** The folded [tmax] is negative exactly when 0 is above it. *)
Lemma behind_bounds (b : xq) :
  XQOps.ltb b (XFin 0) = false <-> ele (Rat 0) (upperBound b).
Proof. destruct b as [|[]| |p]; xq_cases. Qed.

Lemma scale_pos (x t d : Q) :
  0 < d -> (x * (1 / d) <= t <-> x <= t * d) /\ (t <= x * (1 / d) <-> t * d <= x).
Proof.
  intro Hd.
  assert (E : x * (1 / d) * d == x) by (field; lra).
  split; split; intro H.
  - rewrite <- E. apply Qmult_le_compat_r; lra.
  - apply (Qmult_le_r _ _ d Hd). rewrite E. exact H.
  - rewrite <- E. apply Qmult_le_compat_r; lra.
  - apply (Qmult_le_r _ _ d Hd). rewrite E. exact H.
Qed.

Lemma scale_neg (x t d : Q) :
  d < 0 -> (x * (1 / d) <= t <-> t * d <= x) /\ (t <= x * (1 / d) <-> x <= t * d).
Proof.
  intro Hd.
  assert (Hd' : 0 < - d) by lra.
  assert (E : x * (1 / d) * - d == - x) by (field; lra).
  split; split; intro H.
  - apply (Qmult_le_compat_r _ _ (- d)) in H; [|lra]. rewrite E in H. lra.
  - apply (Qmult_le_r _ _ (- d) Hd'). rewrite E. lra.
  - apply (Qmult_le_compat_r _ _ (- d)) in H; [|lra]. rewrite E in H. lra.
  - apply (Qmult_le_r _ _ (- d) Hd'). rewrite E. lra.
Qed.

(** Division of 1 by a zero: the infinity with the sign of the zero. *)
Lemma one_div_zero (d : xq) :
  valued d 0 -> exists s, XQOps.div (XFin 1) d = XInf s.
Proof.
  intro H. destruct (@valued_classify _ _ H) as (s & q & C & E).
  unfold XQOps.div. rewrite C. simpl.
  apply Qzero_bool_true in E. rewrite E. exists s. reflexivity.
Qed.

(** A finite value times an infinity: NaN for a zero, else the infinity with
    the product of the signs. *)
Lemma mul_infinity (a : xq) (p : Q) (s : bool) :
  valued a p ->
  (p == 0 -> XQOps.mul a (XInf s) = XNaN)
  /\ (0 < p -> XQOps.mul a (XInf s) = XInf s)
  /\ (p < 0 -> XQOps.mul a (XInf s) = XInf (negb s)).
Proof.
  destruct a as [|s'| |q]; unfold valued; simpl; intro H; try contradiction.
  - repeat split; intro C; try reflexivity; lra.
  - unfold XQOps.mul. simpl.
    destruct (XQOps.Qzero_bool q) eqn:Z;
      [apply Qzero_bool_true in Z | apply Qzero_bool_false in Z].
    + repeat split; intro C; try reflexivity; lra.
    + destruct (XQOps.Qneg_bool q) eqn:G;
        [apply Qneg_bool_true in G | apply Qneg_bool_false in G];
        repeat split; intro C; try lra; destruct s; reflexivity.
Qed.

Lemma leb_zero_infinity (s : bool) : XQOps.leb (XFin 0) (XInf s) = negb s.
Proof. reflexivity. Qed.

(** One axis.  The interval of the slab demands of the parameter exactly
    that the point of the ray lies between the two planes; its lower demand
    is below its upper one; and its upper bound is finite when the ray is
    not parallel to the planes. *)
Lemma slab_axis (o d lo hi : xq) (qo qd qlo qhi : Q) :
  valued o qo -> valued d qd -> valued lo qlo -> valued hi qhi -> qlo <= qhi ->
  let I := Spec.slab (N:=XQ) o d lo hi in
  ele (lowerBound (fst I)) (upperBound (snd I))
  /\ (forall t, within qo qd qlo qhi t
               <-> ele (lowerBound (fst I)) (Rat t) /\ ele (Rat t) (upperBound (snd I)))
  /\ (~ qd == 0 -> exists u, upperBound (snd I) = Rat u).
Proof.
  intros Ho Hd Hlo Hhi Hbox I. subst I. unfold Spec.slab. cbn [One Zero div mul sub leb XQ].
  pose proof (@sub_valued _ _ _ _ Hlo Ho) as HA.
  pose proof (@sub_valued _ _ _ _ Hhi Ho) as HB.
  set (A := XQOps.sub lo o) in *. set (B := XQOps.sub hi o) in *.
  assert (H1 : valued (XFin 1) 1) by (unfold valued; simpl; reflexivity).
  assert (H0 : valued (XFin 0) 0) by (unfold valued; simpl; reflexivity).
  destruct (Q_dec qd 0) as [[Hneg|Hpos]|Hzero].
  - (* the direction is negative on this axis: the planes are swapped *)
    assert (Hnz : ~ qd == 0) by lra.
    pose proof (@div_valued _ _ _ _ H1 Hd Hnz) as Hinv.
    set (inv := XQOps.div (XFin 1) d) in *.
    assert (Hi : 1 / qd < 0).
    { unfold Qdiv. rewrite Qmult_1_l.
      assert (0 < / - qd) by (apply Qinv_lt_0_compat; lra).
      assert (/ - qd == - / qd) by (field; lra). lra. }
    destruct (XQOps.leb (XFin 0) inv) eqn:C.
    { apply (@leb_valued _ _ _ _ H0 Hinv) in C. lra. }
    cbn [fst snd].
    destruct (@valued_bounds _ _ (@mul_valued _ _ _ _ HB Hinv)) as (ta & La & _ & Ea).
    destruct (@valued_bounds _ _ (@mul_valued _ _ _ _ HA Hinv)) as (tb & _ & Ub & Eb).
    rewrite La, Ub. simpl.
    destruct (@scale_neg (qhi - qo) ta qd Hneg) as [S1 _].
    pose proof (fun t => proj1 (@scale_neg (qhi - qo) t qd Hneg)) as Slo.
    pose proof (fun t => proj2 (@scale_neg (qlo - qo) t qd Hneg)) as Shi.
    split; [|split].
    + rewrite Ea, Eb. apply (Shi ((qhi - qo) * (1 / qd))).
      apply Qle_trans with ((qhi - qo) * (1 / qd) * qd); [|lra].
      assert ((qhi - qo) * (1 / qd) * qd == qhi - qo) by (field; lra). lra.
    + intro t. unfold within. rewrite Ea, Eb, (Slo t), (Shi t). lra.
    + intros _. exists tb. reflexivity.
  - (* the direction is positive on this axis *)
    assert (Hnz : ~ qd == 0) by lra.
    pose proof (@div_valued _ _ _ _ H1 Hd Hnz) as Hinv.
    set (inv := XQOps.div (XFin 1) d) in *.
    assert (Hi : 0 < 1 / qd).
    { unfold Qdiv. rewrite Qmult_1_l. apply Qinv_lt_0_compat. exact Hpos. }
    destruct (XQOps.leb (XFin 0) inv) eqn:C.
    2:{ assert (C' : XQOps.leb (XFin 0) inv = true)
          by (apply (@leb_valued _ _ _ _ H0 Hinv); lra).
        congruence. }
    cbn [fst snd].
    destruct (@valued_bounds _ _ (@mul_valued _ _ _ _ HA Hinv)) as (ta & La & _ & Ea).
    destruct (@valued_bounds _ _ (@mul_valued _ _ _ _ HB Hinv)) as (tb & _ & Ub & Eb).
    rewrite La, Ub. simpl.
    pose proof (fun t => proj1 (@scale_pos (qlo - qo) t qd Hpos)) as Slo.
    pose proof (fun t => proj2 (@scale_pos (qhi - qo) t qd Hpos)) as Shi.
    split; [|split].
    + rewrite Ea, Eb. apply (Slo ((qhi - qo) * (1 / qd))).
      assert ((qhi - qo) * (1 / qd) * qd == qhi - qo) by (field; lra). lra.
    + intro t. unfold within. rewrite Ea, Eb, (Slo t), (Shi t). lra.
    + intros _. exists tb. reflexivity.
  - (* the ray is parallel to the planes of this axis *)
    destruct (@one_div_zero d (@valued_eq _ _ _ Hd Hzero)) as (s & Einv).
    rewrite Einv, leb_zero_infinity.
    destruct (@mul_infinity _ _ s HA) as (A0 & Ap & An).
    destruct (@mul_infinity _ _ s HB) as (B0 & Bp & Bn).
    assert (W : forall t, within qo qd qlo qhi t <-> qlo - qo <= 0 /\ 0 <= qhi - qo).
    { intro t. unfold within.
      assert (Z : t * qd == 0) by (rewrite Hzero; ring). rewrite Z. lra. }
    split; [|split].
    + destruct (Q_dec (qlo - qo) 0) as [[L|L]|L];
        destruct (Q_dec (qhi - qo) 0) as [[H|H]|H];
        try (exfalso; lra);
        destruct s; cbn [negb fst snd];
        rewrite ?(A0 L), ?(Ap L), ?(An L), ?(B0 H), ?(Bp H), ?(Bn H);
        simpl; exact I.
    + intro t. rewrite W.
      destruct (Q_dec (qlo - qo) 0) as [[L|L]|L];
        destruct (Q_dec (qhi - qo) 0) as [[H|H]|H];
        try (exfalso; lra);
        destruct s; cbn [negb fst snd];
        rewrite ?(A0 L), ?(Ap L), ?(An L), ?(B0 H), ?(Bp H), ?(Bn H);
        simpl; (intuition lra).
    + intro C. contradiction.
Qed.

(** The three axes together.  Each interval demands of the parameter what
    its axis demands ([C1], [C2], [C3]) and is not inside out, and one of
    them has a finite upper bound: then the fold of the three accepts
    exactly when some parameter [t >= 0] meets all three demands. *)
Lemma boxOf_exact (X Y Z : xq * xq) (C1 C2 C3 : Q -> Prop) :
  ele (lowerBound (fst X)) (upperBound (snd X)) ->
  ele (lowerBound (fst Y)) (upperBound (snd Y)) ->
  ele (lowerBound (fst Z)) (upperBound (snd Z)) ->
  (forall t, C1 t <-> ele (lowerBound (fst X)) (Rat t) /\ ele (Rat t) (upperBound (snd X))) ->
  (forall t, C2 t <-> ele (lowerBound (fst Y)) (Rat t) /\ ele (Rat t) (upperBound (snd Y))) ->
  (forall t, C3 t <-> ele (lowerBound (fst Z)) (Rat t) /\ ele (Rat t) (upperBound (snd Z))) ->
  (exists u, upperBound (snd X) = Rat u \/ upperBound (snd Y) = Rat u
             \/ upperBound (snd Z) = Rat u) ->
  (Spec.boxOf (N:=XQ) X Y Z <> None
   <-> exists t, 0 <= t /\ C1 t /\ C2 t /\ C3 t).
Proof.
  destruct X as [a1 b1], Y as [a2 b2], Z as [a3 b3]. cbn [fst snd].
  intros I1 I2 I3 H1 H2 H3 (u & Hu).
  unfold Spec.boxOf, Spec.disjoint, Spec.fold, Spec.isNaN.
  cbn [fst snd ltb leb eqb Zero XQ].
  match goal with
  | |- context [XQOps.ltb b3 ?x || XQOps.ltb ?y a3] => set (m := x); set (M := y)
  end.
  match goal with
  | |- context [XQOps.ltb ?y (XFin 0)] => set (M' := y)
  end.
  match goal with
  | |- context [XQOps.leb (XFin 0) ?x] => set (m' := x)
  end.
  assert (Fm : forall z, ele (lowerBound m) z
                         <-> ele (lowerBound a1) z /\ ele (lowerBound a2) z)
    by (intro z; exact (@fold_lower a1 a2 z)).
  assert (FM : forall z, ele z (upperBound M)
                         <-> ele z (upperBound b1) /\ ele z (upperBound b2))
    by (intro z; exact (@fold_upper b1 b2 z)).
  assert (Fm' : forall z, ele (lowerBound m') z
                          <-> ele (lowerBound m) z /\ ele (lowerBound a3) z)
    by (intro z; exact (@fold_lower m a3 z)).
  assert (FM' : forall z, ele z (upperBound M')
                          <-> ele z (upperBound M) /\ ele z (upperBound b3))
    by (intro z; exact (@fold_upper M b3 z)).
  clearbody m M m' M'.
  split.
  - (* accepted: the folded upper bound is a parameter that meets all *)
    intro Hacc.
    destruct (XQOps.ltb b2 a1) eqn:T1; [exfalso; apply Hacc; reflexivity|].
    destruct (XQOps.ltb b1 a2) eqn:T2; [exfalso; apply Hacc; reflexivity|].
    destruct (XQOps.ltb b3 m) eqn:T3; [exfalso; apply Hacc; reflexivity|].
    destruct (XQOps.ltb M a3) eqn:T4; [exfalso; apply Hacc; reflexivity|].
    destruct (XQOps.ltb M' (XFin 0)) eqn:T5; [exfalso; apply Hacc; reflexivity|].
    clear Hacc.
    apply gt_bounds in T1, T2, T3, T4. apply behind_bounds in T5.
    assert (U1 : ele (lowerBound m) (upperBound b1)) by (apply Fm; auto).
    assert (U2 : ele (lowerBound m) (upperBound b2)) by (apply Fm; auto).
    assert (MM : ele (lowerBound m) (upperBound M)) by (apply FM; auto).
    assert (U3 : ele (lowerBound m') (upperBound b3)) by (apply Fm'; auto).
    assert (U4 : ele (lowerBound m') (upperBound M)) by (apply Fm'; auto).
    assert (MM' : ele (lowerBound m') (upperBound M')) by (apply FM'; auto).
    destruct (proj1 (FM' (upperBound M')) (ele_refl _)) as (V & V3).
    destruct (proj1 (FM (upperBound M)) (ele_refl _)) as (V1 & V2).
    destruct (proj1 (Fm' (lowerBound m')) (ele_refl _)) as (W & W3).
    destruct (proj1 (Fm (lowerBound m)) (ele_refl _)) as (W1 & W2).
    assert (Vu : ele (upperBound M') (Rat u)).
    { destruct Hu as [E|[E|E]]; rewrite <- E.
      - apply ele_trans with (upperBound M); assumption.
      - apply ele_trans with (upperBound M); assumption.
      - assumption. }
    destruct (upperBound M') as [|v|] eqn:EM'; simpl in T5, Vu; try contradiction.
    exists v. split; [exact T5|].
    assert (B : forall z, ele z (lowerBound m') -> ele z (Rat v))
      by (intros z Hz; apply ele_trans with (lowerBound m'); assumption).
    assert (A : forall z, ele (upperBound M) z -> ele (Rat v) z)
      by (intros z Hz; apply ele_trans with (upperBound M); assumption).
    split; [|split].
    + apply H1. split; [apply B, ele_trans with (lowerBound m); assumption | apply A, V1].
    + apply H2. split; [apply B, ele_trans with (lowerBound m); assumption | apply A, V2].
    + apply H3. split; [apply B, W3 | exact V3].
  - (* a parameter that meets all: no test rejects *)
    intros (t & Ht & K1 & K2 & K3).
    apply H1 in K1. apply H2 in K2. apply H3 in K3.
    destruct K1 as (L1 & R1), K2 as (L2 & R2), K3 as (L3 & R3).
    assert (T1 : XQOps.ltb b2 a1 = false)
      by (apply gt_bounds, ele_trans with (Rat t); assumption).
    assert (T2 : XQOps.ltb b1 a2 = false)
      by (apply gt_bounds, ele_trans with (Rat t); assumption).
    assert (Lm : ele (lowerBound m) (Rat t)) by (apply Fm; auto).
    assert (RM : ele (Rat t) (upperBound M)) by (apply FM; auto).
    assert (T3 : XQOps.ltb b3 m = false)
      by (apply gt_bounds, ele_trans with (Rat t); assumption).
    assert (T4 : XQOps.ltb M a3 = false)
      by (apply gt_bounds, ele_trans with (Rat t); assumption).
    assert (RM' : ele (Rat t) (upperBound M')) by (apply FM'; auto).
    assert (T5 : XQOps.ltb M' (XFin 0) = false).
    { apply behind_bounds, ele_trans with (Rat t); [exact Ht | exact RM']. }
    rewrite T1, T2, T3, T4, T5. simpl. discriminate.
Qed.

(** [Ray.intersectAABB] answers hit exactly for the rays that meet the box,
    whenever the direction is not the zero vector. *)
Lemma intersectAABB_meets (ray : Ray.t (N:=XQ)) (box : AABB.t (N:=XQ)) (res : loc)
    (s : Store (N:=XQ)) (o d lo hi : point) :
  located (Ray.origin ray) o -> located (Ray.direction ray) d ->
  located (AABB.min box) lo -> located (AABB.max box) hi ->
  ordered lo hi -> ~ zeroVector d ->
  (fst (Ray.intersectAABB ray box res s) <> None <-> rayMeetsBox o d lo hi).
Proof.
  intros (Ox & Oy & Oz) (Dx & Dy & Dz) (Lx & Ly & Lz) (Hx & Hy & Hz)
    (Bx & By & Bz) Hd.
  rewrite (runs_null (intersectAABB_run ray box res s)).
  destruct (@slab_axis _ _ _ _ _ _ _ _ Ox Dx Lx Hx Bx) as (X1 & X2 & X3).
  destruct (@slab_axis _ _ _ _ _ _ _ _ Oy Dy Ly Hy By) as (Y1 & Y2 & Y3).
  destruct (@slab_axis _ _ _ _ _ _ _ _ Oz Dz Lz Hz Bz) as (Z1 & Z2 & Z3).
  unfold Spec.boxT, rayMeetsBox.
  apply boxOf_exact; try assumption.
  destruct (Qeq_dec (px d) 0) as [Ex|Ex];
    [|destruct (X3 Ex) as (u & Eu); exists u; left; exact Eu].
  destruct (Qeq_dec (py d) 0) as [Ey|Ey];
    [|destruct (Y3 Ey) as (u & Eu); exists u; right; left; exact Eu].
  destruct (Qeq_dec (pz d) 0) as [Ez|Ez];
    [|destruct (Z3 Ez) as (u & Eu); exists u; right; right; exact Eu].
  exfalso. apply Hd. repeat split; assumption.
Qed.
End ExactBox.

(** ** The scenarios of section 8 *)

Section Scenarios.
Import Example.

(** Unit box, ray from (0, 0, -5) along +z: the point (0, 0, -1). *)
Example scenario_box :
  let out := Ray.intersectAABB (Ray.mk (qvec 0 0 (-5)) (qvec 0 0 1))
               (AABB.mk (qvec (-1) (-1) (-1)) (qvec 1 1 1)) result zeroStore in
  fst out = Some result /\ snd out result = qvec 0 0 (-1).
Proof. split; vm_compute; reflexivity. Qed.

(** Unit sphere, the same ray: the point (0, 0, -1). *)
Example scenario_sphere :
  let out := Ray.intersectBoundingSphere (Ray.mk (vec 0 0 (-5)) (vec 0 0 1))
               unitSphere result zeroStore in
  fst out = Some result /\ snd out result = vec 0 0 (-1).
Proof. split; vm_compute; reflexivity. Qed.

(** A ray that starts inside the unit sphere leaves it at (0, 0, 1). *)
Example scenario_sphere_inside :
  let out := Ray.intersectBoundingSphere inner unitSphere result zeroStore in
  fst out = Some result /\ snd out result = vec 0 0 1.
Proof. split; vm_compute; reflexivity. Qed.

(** The triangle (-1,0,0), (1,0,0), (0,1,0), ray from (0, 0.3, -5) along +z,
    no culling: the point (0, 0.3, 0); with culling: null. *)
Example scenario_triangle :
  let ray := Ray.mk (qvec 0 (3 # 10) (-5)) (qvec 0 0 1) in
  let tri := Triangle.mk (qvec (-1) 0 0) (qvec 1 0 0) (qvec 0 1 0) in
  let out := Ray.intersectTriangle ray tri false result zeroStore in
  (fst out = Some result /\ snd out result = qvec 0 (3 # 10) 0)
  /\ fst (Ray.intersectTriangle ray tri true result zeroStore) = None.
Proof. repeat split; vm_compute; reflexivity. Qed.

(** The call writes the scratch vectors: after it [v1] holds
    [origin - a] and [normal] the normal of the triangle. *)
Example intersectTriangle_writes_scratch :
  let out := Ray.intersectTriangle ray triangle false result zeroStore in
  snd out v1 = vec 1 0.25 (-5) /\ snd out normal = vec 0 0 2.
Proof. split; vm_compute; reflexivity. Qed.

(** The soup and the indexed mesh are the same triangles, and the query
    gives the same point for both; moved by (0, 0, 1), the first triangle is
    hit in the plane z = 4. *)
Example intersectRay_layouts :
  ObstacleSpec.triangles soup = ObstacleSpec.triangles indexedMesh
  /\ (let out := Obstacle.intersectRay (Obstacle.mk indexedMesh identity) ray result
                   zeroStore in
      fst out = Some result /\ snd out result = vec 0 0.25 3)
  /\ (let out := Obstacle.intersectRay (Obstacle.mk indexedMesh (vec 0 0 1)) ray
                   result zeroStore in
      fst out = Some result /\ snd out result = vec 0 0.25 4).
Proof. repeat split; vm_compute; reflexivity. Qed.

(** A vertex buffer that breaks off inside a triangle is padded with NaN,
    and such a triangle is never hit. *)
Example intersectRay_ragged :
  let g := MeshGeometry.mk (N:=F64) [(-1); 0; 0; 1; 0; 0; 0; 1]%float None
             (AABB.mk (vec (-1) 0 0) (vec 1 1 0)) false in
  ObstacleSpec.triangles g
    = [Triangle.mk (vec (-1) 0 0) (vec 1 0 0) (vec 0 1 PrimFloat.nan)]
  /\ fst (Obstacle.intersectRay (Obstacle.mk g identity) ray result zeroStore) = None.
Proof. split; vm_compute; reflexivity. Qed.

(** The special values of the two arithmetics agree: division by the zeros,
    zero times infinity, the sum and the difference of infinities and of
    zeros, and the comparisons of NaN. *)
Example special_values :
  (@div F64 One Zero, @div F64 One (neg Zero), @mul F64 Zero (div One Zero),
   @sub F64 (div One Zero) (div One Zero), @add F64 (neg Zero) Zero,
   @sub F64 (neg Zero) Zero, @ltb F64 NaN One, @eqb F64 NaN NaN,
   @eqb F64 (neg Zero) Zero)
  = (PrimFloat.infinity, PrimFloat.neg_infinity, PrimFloat.nan, PrimFloat.nan,
     0%float, (- 0)%float, false, false, true)
  /\ (@div XQ One Zero, @div XQ One (neg Zero), @mul XQ Zero (div One Zero),
      @sub XQ (div One Zero) (div One Zero), @add XQ (neg Zero) Zero,
      @sub XQ (neg Zero) Zero, @ltb XQ NaN One, @eqb XQ NaN NaN,
      @eqb XQ (neg Zero) Zero)
     = (XInf false, XInf true, XNaN, XNaN, XFin 0%Q, XNegZero, false, false, true).
Proof. split; vm_compute; reflexivity. Qed.
End Scenarios.
(** ** Further properties of the three tests *)

Section NeverBehind.
Context {N : Number} {L : NumberLaws N}.
Local Open Scope num_scope.

(** X1. No test returns a point behind the origin of the ray. The sphere and
    the box test return the point at a parameter that is not negative; the
    triangle test returns the point at [q / d] for a numerator [q] that is
    not negative and a denominator [d] that is positive. *)
Theorem hit_not_behind {S : Sqrt N} (this : Ray.t) (res : loc) (s : Store) :
  (forall sphere,
     let out := Ray.intersectBoundingSphere this sphere res s in
     fst out = None
     \/ exists t, (t = Spec.t0 this sphere \/ t = Spec.t1 this sphere)
                  /\ snd out res = Spec.pointAt this t /\ (t <? Zero) = false)
  /\ (forall box,
        let out := Ray.intersectAABB this box res s in
        fst out = None
        \/ exists t, (t = Spec.tmin this box \/ t = Spec.tmax this box)
                     /\ snd out res = Spec.pointAt this t /\ (t <? Zero) = false)
  /\ (forall tri cull,
        let out := Ray.intersectTriangle this tri cull res s in
        fst out = None
        \/ exists q d, snd out res = Spec.pointAt this (q / d)
                       /\ (q <? Zero) = false
                       /\ ((d = Spec.DdN this tri /\ (d >? Zero) = true)
                           \/ (d = - Spec.DdN this tri
                               /\ (Spec.DdN this tri <? Zero) = true))).
Proof.
  split; [|split].
  - intros sphere out.
    destruct (intersectBoundingSphere_run this sphere res s) as (F & P & _).
    fold out in F, P. revert F P. unfold Spec.sphereT.
    destruct (Spec.d2 this sphere >? Spec.radius2 sphere); [left; exact F|].
    destruct (Spec.t0 this sphere <? Zero) eqn:E0;
      [destruct (Spec.t1 this sphere <? Zero) eqn:E1|]; simpl; intros F P.
    + left. exact F.
    + right. exists (Spec.t1 this sphere). auto.
    + right. exists (Spec.t0 this sphere). auto.
  - intros box out.
    destruct (intersectAABB_run this box res s) as (F & P & _).
    fold out in F, P. revert F P. rewrite boxT_misses.
    destruct (Spec.misses this box); [left; exact F|].
    destruct (Spec.tmax this box <? Zero) eqn:E1; [left; exact F|].
    destruct (Spec.tmin this box >=? Zero) eqn:E0; simpl; intros F P; right.
    + exists (Spec.tmin this box). split; [left; reflexivity|].
      split; [apply P; reflexivity | apply leb_not_gtb; exact E0].
    + exists (Spec.tmax this box). auto.
  - intros tri cull out.
    destruct (intersectTriangle_run this tri cull res s) as (F & P & _).
    fold out in F, P. revert F P. unfold Spec.triangleT.
    rewrite !accepted_rejects. unfold Spec.rejects.
    destruct (Spec.DdN this tri >? Zero) eqn:Epos.
    + destruct cull; [left; exact F|].
      destruct (Spec.QdN this tri One <? Zero) eqn:Eq;
        [rewrite orb_true_r; left; exact F|].
      rewrite orb_false_r.
      match goal with |- context [if ?c then _ else _] => destruct c end;
        [left; exact F|]. simpl. intros F P. right.
      exists (Spec.QdN this tri One), (Spec.DdN this tri). auto.
    + destruct (Spec.DdN this tri <? Zero) eqn:Eneg; [|left; exact F].
      destruct (Spec.QdN this tri (- One) <? Zero) eqn:Eq;
        [rewrite orb_true_r; left; exact F|].
      rewrite orb_false_r.
      match goal with |- context [if ?c then _ else _] => destruct c end;
        [left; exact F|]. simpl. intros F P. right.
      exists (Spec.QdN this tri (- One)), (- Spec.DdN this tri).
      auto.
Qed.
End NeverBehind.

Section Culling.
Context {N : Number}.
Local Open Scope num_scope.

(** X2. Back-face culling only removes hits: a ray that hits a triangle with
    culling on hits it at the same point with culling off, and with culling
    off the ray is rejected by culling exactly when [DdN > 0]. *)
Theorem culling_only_removes (this : Ray.t) (tri : Triangle.t) (res : loc)
    (s : Store) :
  let culled := Ray.intersectTriangle this tri true res s in
  let plain := Ray.intersectTriangle this tri false res s in
  (fst culled = None \/ (fst plain = fst culled /\ snd plain res = snd culled res))
  /\ ((Spec.DdN this tri >? Zero) = true -> fst culled = None)
  /\ ((Spec.DdN this tri >? Zero) = false ->
        fst plain = fst culled
        /\ (fst plain <> None -> snd plain res = snd culled res)).
Proof.
  intros culled plain.
  destruct (intersectTriangle_run this tri true res s) as (F1 & P1 & _).
  destruct (intersectTriangle_run this tri false res s) as (F2 & P2 & _).
  fold culled in F1, P1. fold plain in F2, P2.
  unfold Spec.triangleT in *.
  destruct (Spec.DdN this tri >? Zero).
  - split; [left; exact F1|]. split; [intros _; exact F1 | discriminate].
  - set (hit := if Spec.DdN this tri <? Zero then _ else _) in *.
    assert (E : fst plain = fst culled) by congruence.
    assert (R : fst plain <> None -> snd plain res = snd culled res).
    { destruct hit as [t|]; [|rewrite F2; simpl; congruence].
      intros _. rewrite (P1 t eq_refl), (P2 t eq_refl). reflexivity. }
    split; [|split; [discriminate | intros _; split; assumption]].
    destruct (fst culled) eqn:C; [right | left; reflexivity].
    split; [exact E | apply R; congruence].
Qed.
End Culling.

Section ScratchFree.
Context {N : Number} {S : Sqrt N} {T : Matrix4Ops N}.

(** Two runs with the same hit return the same and leave the same point. *)
Lemma runs_same (scratch scratch' : loc -> bool) (ray : Ray.t) (res : loc)
    (hit : option num) (s s' : Store) (out out' : option loc * Store) :
  runs scratch ray res hit s out -> runs scratch' ray res hit s' out' ->
  fst out = fst out' /\ (fst out <> None -> snd out res = snd out' res).
Proof.
  intros (F & P & _) (F' & P' & _). split; [congruence|].
  destruct hit as [t|]; [|rewrite F; intro H; exfalso; apply H; reflexivity].
  intros _. rewrite (P t eq_refl), (P' t eq_refl). reflexivity.
Qed.

(** X3. The scratch vectors of the two modules carry nothing from one call
    to the next: whatever they (and every other vector) hold when it is
    called, the sphere test, the box test and the obstacle query return the
    same and, on a hit, leave the same point in [result]. *)
Theorem scratch_carries_nothing (ray : Ray.t) (res : loc) (s s' : Store) :
  (forall sphere,
     let out := Ray.intersectBoundingSphere ray sphere res s in
     let out' := Ray.intersectBoundingSphere ray sphere res s' in
     fst out = fst out' /\ (fst out <> None -> snd out res = snd out' res))
  /\ (forall box,
        let out := Ray.intersectAABB ray box res s in
        let out' := Ray.intersectAABB ray box res s' in
        fst out = fst out' /\ (fst out <> None -> snd out res = snd out' res))
  /\ (forall obstacle,
        let out := Obstacle.intersectRay obstacle ray res s in
        let out' := Obstacle.intersectRay obstacle ray res s' in
        fst out = fst out' /\ (fst out <> None -> snd out res = snd out' res)).
Proof.
  split; [|split].
  - intros sphere out out'.
    exact (runs_same (intersectBoundingSphere_run ray sphere res s)
                     (intersectBoundingSphere_run ray sphere res s')).
  - intros box out out'.
    exact (runs_same (intersectAABB_run ray box res s)
                     (intersectAABB_run ray box res s')).
  - intros obstacle out out'.
    exact (runs_same (intersectRay_run obstacle ray res s)
                     (intersectRay_run obstacle ray res s')).
Qed.
End ScratchFree.

(** The ray of section 8 enters the unit box at t = 4. *)
Lemma hit_not_behind_witness :
  exists t,
    snd (Ray.intersectAABB Example.ray Example.unitBox result Example.zeroStore) result
    = Spec.pointAt Example.ray t
    /\ PrimFloat.ltb t 0 = false.
Proof.
  destruct (@hit_not_behind F64 F64_laws F64_sqrt Example.ray result Example.zeroStore)
    as (_ & H & _).
  destruct (H Example.unitBox) as [C|(t & _ & P & B)]; [discriminate C|].
  exists t. split; [exact P | exact B].
Defined.
(** ** Further properties of the obstacle query *)

Section MoreObstacle.
Context {N : Number} {T : Matrix4Ops N}.
Import ObstacleSpec Layout.

(** X4. A geometry without triangles is never hit, whatever its bounding
    box: an empty vertex buffer without indices, or an empty index buffer. *)
Theorem intersectRay_no_triangles (vertices : list num) (box : AABB.t)
    (cull : bool) (m : Matrix4) (ray : Ray.t) (s : Store) :
  let soup := Obstacle.mk (MeshGeometry.mk [] None box cull) m in
  let indexed := Obstacle.mk (MeshGeometry.mk vertices (Some []) box cull) m in
  (fst (Obstacle.intersectRay soup ray result s) = None
   /\ snd (Obstacle.intersectRay soup ray result s) result = s result)
  /\ (fst (Obstacle.intersectRay indexed ray result s) = None
      /\ snd (Obstacle.intersectRay indexed ray result s) result = s result).
Proof.
  intros soup indexed.
  assert (G : forall o, worldTriangles o = [] ->
            fst (Obstacle.intersectRay o ray result s) = None
            /\ snd (Obstacle.intersectRay o ray result s) result = s result).
  { intros o E. destruct (intersectRay_run o ray result s) as (F & _ & Fr).
    assert (H : obstacleT o ray = None).
    { unfold obstacleT. rewrite E. destruct (Spec.boxT ray (worldBox o)); reflexivity. }
    rewrite H in F, Fr. split; [exact F|].
    apply Fr; [reflexivity | left; reflexivity]. }
  split; apply G; reflexivity.
Qed.

(** X5. A point that the query returns is the point at which the ray hits a
    triangle of the mesh: the broad phase passed, no triangle before that
    one in buffer order is hit, and [result] holds what the triangle test of
    that triangle leaves there. *)
Theorem intersectRay_sound (this : Obstacle.t) (ray : Ray.t) (s : Store) :
  let cull := MeshGeometry.backfaceCulling (Obstacle.geometry this) in
  let out := Obstacle.intersectRay this ray result s in
  fst out <> None ->
  fst (Ray.intersectAABB ray (worldBox this) intersectionPointAABB s) <> None
  /\ exists before tri after,
       worldTriangles this = before ++ tri :: after
       /\ Forall (fun tri' => fst (Ray.intersectTriangle ray tri' cull result s) = None)
                 before
       /\ fst (Ray.intersectTriangle ray tri cull result s) = Some result
       /\ snd out result = snd (Ray.intersectTriangle ray tri cull result s) result.
Proof.
  intros cull out Hhit.
  pose proof (intersectRay_run this ray result s) as R. fold out in R.
  rewrite (runs_null R) in Hhit. destruct R as (_ & P & _).
  unfold obstacleT in Hhit, P. fold cull in Hhit, P.
  rewrite (runs_null (intersectAABB_run ray (worldBox this) intersectionPointAABB s)).
  destruct (Spec.boxT ray (worldBox this)); [|contradiction].
  split; [discriminate|].
  induction (worldTriangles this) as [|tri ts IH]; simpl in Hhit, P; [contradiction|].
  pose proof (intersectTriangle_run ray tri cull result s) as Rt.
  destruct (Spec.triangleT ray tri cull) as [t|] eqn:E.
  - exists [], tri, ts. split; [reflexivity|]. split; [constructor|].
    destruct Rt as (F & Pt & _). split; [exact F|].
    rewrite (P t eq_refl), (Pt t eq_refl). reflexivity.
  - destruct (IH Hhit P) as (before & tri' & after & E1 & E2 & E3 & E4).
    exists (tri :: before), tri', after.
    split; [rewrite E1; reflexivity|].
    split; [constructor; [apply (runs_null Rt); reflexivity | exact E2]|].
    split; assumption.
Qed.

Lemma firstHit_two_sided (ray : Ray.t) (ts : list Triangle.t) :
  firstHit ray true ts <> None -> firstHit ray false ts <> None.
Proof.
  induction ts as [|tri ts IH]; simpl; [auto|].
  destruct (Spec.triangleT ray tri false) eqn:E; [discriminate|].
  destruct (Spec.triangleT ray tri true) eqn:E'; [|exact IH].
  exfalso. unfold Spec.triangleT in E, E'.
  destruct (ltb Zero (Spec.DdN ray tri)); [discriminate E' | congruence].
Qed.

(** X6. Switching back-face culling off never loses a hit of the query: a
    ray that hits the obstacle with culling on hits it with culling off (at
    a triangle that is the same or earlier in the buffer). *)
Theorem intersectRay_two_sided (this : Obstacle.t) (ray : Ray.t) (s : Store) :
  let open := Obstacle.mk (twoSided (Obstacle.geometry this))
                (Obstacle.worldMatrix this) in
  MeshGeometry.backfaceCulling (Obstacle.geometry this) = true ->
  fst (Obstacle.intersectRay this ray result s) = Some result ->
  fst (Obstacle.intersectRay open ray result s) = Some result.
Proof.
  intros open Hcull Hhit.
  destruct (intersectRay_run this ray result s) as (F & _).
  destruct (intersectRay_run open ray result s) as (F' & _).
  rewrite F in Hhit. rewrite F'.
  assert (E : obstacleT open ray <> None).
  { unfold obstacleT in *. rewrite Hcull in Hhit.
    change (worldBox open) with (worldBox this).
    change (worldTriangles open) with (worldTriangles this).
    destruct (Spec.boxT ray (worldBox this)); [|discriminate Hhit].
    apply firstHit_two_sided. destruct (firstHit ray true (worldTriangles this));
      [discriminate | discriminate Hhit]. }
  destruct (obstacleT open ray); [reflexivity | contradiction].
Qed.

Lemma nth_unrolled (vertices : list num) (indices : list nat) (i c : nat) :
  c < 3 ->
  nth (3 * i + c) (flat_map (vertexFloats vertices) indices) NaN
  = match nth_error indices i with
    | Some a => nth (a * 3 + c) vertices NaN
    | None => NaN
    end.
Proof.
  revert i. induction indices as [|a indices IH]; intros i Hc.
  - destruct i, (3 * 0 + c); simpl; try reflexivity;
      destruct (3 * S i + c); reflexivity.
  - destruct i as [|i].
    + simpl. destruct c as [|[|[|c]]]; try lia; simpl; rewrite ?Nat.add_0_r; reflexivity.
    + replace (3 * S i + c) with (S (S (S (3 * i + c)))) by lia.
      simpl. apply IH. exact Hc.
Qed.

Lemma unrolled_triangle (vertices : list num) (indices : list nat) (k : nat) :
  soupTriangle (flat_map (vertexFloats vertices) indices) k
  = indexedTriangle vertices indices k.
Proof.
  unfold soupTriangle, indexedTriangle, vertexAt.
  replace (9 * k) with (3 * (3 * k) + 0) by lia.
  replace (3 * (3 * k) + 0 + 1) with (3 * (3 * k) + 1) by lia.
  replace (3 * (3 * k) + 0 + 2) with (3 * (3 * k) + 2) by lia.
  replace (3 * (3 * k) + 0 + 3) with (3 * (3 * k + 1) + 0) by lia.
  replace (3 * (3 * k) + 0 + 4) with (3 * (3 * k + 1) + 1) by lia.
  replace (3 * (3 * k) + 0 + 5) with (3 * (3 * k + 1) + 2) by lia.
  replace (3 * (3 * k) + 0 + 6) with (3 * (3 * k + 2) + 0) by lia.
  replace (3 * (3 * k) + 0 + 7) with (3 * (3 * k + 2) + 1) by lia.
  replace (3 * (3 * k) + 0 + 8) with (3 * (3 * k + 2) + 2) by lia.
  rewrite !nth_unrolled by lia.
  destruct (nth_error indices (3 * k)), (nth_error indices (3 * k + 1)),
    (nth_error indices (3 * k + 2)); rewrite ?Nat.add_0_r; reflexivity.
Qed.

Lemma length_unrolled (vertices : list num) (indices : list nat) :
  length (flat_map (vertexFloats vertices) indices) = 3 * length indices.
Proof. induction indices as [|a indices IH]; simpl; [reflexivity | lia]. Qed.

Lemma passes_unrolled (n : nat) : passes (3 * n) 9 = passes n 3.
Proof.
  unfold passes. simpl Nat.sub.
  symmetry. apply Nat.div_unique with (r := 3 * ((n + 2) mod 3) + 2).
  - pose proof (Nat.mod_upper_bound (n + 2) 3). lia.
  - pose proof (Nat.div_mod_eq (n + 2) 3). lia.
Qed.

(** X7. An indexed geometry and the triangle soup it unrolls to are the same
    obstacle to every ray: the query returns the same answer and, on a hit,
    the same point. *)
Theorem intersectRay_unrolled (this : Obstacle.t) (ray : Ray.t) (s : Store) :
  let soup := Obstacle.mk (unrolled (Obstacle.geometry this))
                (Obstacle.worldMatrix this) in
  MeshGeometry.indices (unrolled (Obstacle.geometry this)) = None
  /\ fst (Obstacle.intersectRay soup ray result s)
     = fst (Obstacle.intersectRay this ray result s)
  /\ snd (Obstacle.intersectRay soup ray result s) result
     = snd (Obstacle.intersectRay this ray result s) result.
Proof.
  intros soup.
  assert (E : obstacleT soup ray = obstacleT this ray).
  { unfold obstacleT, soup, worldBox, worldTriangles, triangles, unrolled.
    destruct this as [[vertices [indices|] box cull] m];
      cbn [Obstacle.geometry Obstacle.worldMatrix MeshGeometry.indices
           MeshGeometry.vertices MeshGeometry.aabb MeshGeometry.backfaceCulling];
      [|reflexivity].
    rewrite length_unrolled, passes_unrolled.
    destruct (Spec.boxT ray (AABB_applyMatrix4 box m)); [|reflexivity].
    f_equal. f_equal. apply map_ext. intro k. apply unrolled_triangle. }
  split.
  { unfold unrolled.
    destruct (MeshGeometry.indices (Obstacle.geometry this)) eqn:I;
      [reflexivity | exact I]. }
  destruct (intersectRay_run soup ray result s) as (F & P & Fr).
  destruct (intersectRay_run this ray result s) as (F' & P' & Fr').
  rewrite E in F, P, Fr. split; [congruence|].
  destruct (obstacleT this ray) as [t|].
  - rewrite (P t eq_refl), (P' t eq_refl). reflexivity.
  - rewrite Fr, Fr'; auto.
Qed.
End MoreObstacle.

(** The query on [Example.soup] returns the point of its first triangle. *)
Lemma intersectRay_sound_witness :
  exists tri,
    In tri (ObstacleSpec.worldTriangles (Obstacle.mk Example.soup Example.identity))
    /\ fst (Ray.intersectTriangle Example.ray tri false result Example.zeroStore)
       = Some result.
Proof.
  destruct (@intersectRay_sound F64 Example.Translation
              (Obstacle.mk Example.soup Example.identity) Example.ray
              Example.zeroStore) as (_ & before & tri & after & E & _ & H & _).
  - vm_compute. discriminate.
  - exists tri. split; [rewrite E; apply in_elt | exact H].
Defined.

(** The mesh [Sample.front] is hit with culling, and so without. *)
Lemma intersectRay_two_sided_witness :
  fst (Obstacle.intersectRay
         (Obstacle.mk (Layout.twoSided Sample.front) Example.identity)
         Example.ray result Example.zeroStore) = Some result.
Proof.
  apply (@intersectRay_two_sided F64 Example.Translation
           (Obstacle.mk Sample.front Example.identity) Example.ray Example.zeroStore).
  - reflexivity.
  - vm_compute. reflexivity.
Defined.
(** ** Missing data: NaN coordinates *)

Section F64NaN.

Lemma SFcompare_refl (f : spec_float) :
  f <> S754_nan -> SFcompare f f = Some Eq.
Proof.
  destruct f as [s|s| |s m e]; simpl; intro H; try reflexivity.
  - destruct s; reflexivity.
  - exfalso. apply H. reflexivity.
  - change (IntDef.Z.compare e e) with (Z.compare e e).
    rewrite Z.compare_refl.
    change (PosDef.Pos.compare_cont Eq m m) with (Pos.compare m m).
    rewrite Pos.compare_refl. destruct s; reflexivity.
Qed.

(** A binary64 number is NaN exactly when it differs from itself. *)
Lemma F64_isNaN (a : float) :
  Spec.isNaN (N:=F64) a = true <-> Prim2SF a = S754_nan.
Proof.
  unfold Spec.isNaN. simpl. rewrite negb_true_iff, eqb_spec. unfold SFeqb.
  split.
  - intro H. destruct (Prim2SF a) eqn:E; try reflexivity;
      rewrite SFcompare_refl in H by discriminate; discriminate H.
  - intro H. rewrite H. reflexivity.
Qed.

Lemma SFadd_nan (x y : spec_float) :
  x = S754_nan \/ y = S754_nan -> SF64add x y = S754_nan.
Proof.
  intros [H|H]; subst; [reflexivity|].
  destruct x as [s|s| |s m e]; try reflexivity.
Qed.

Lemma SFsub_nan (x y : spec_float) :
  x = S754_nan \/ y = S754_nan -> SF64sub x y = S754_nan.
Proof.
  intros [H|H]; subst; [reflexivity|].
  destruct x as [s|s| |s m e]; try reflexivity.
Qed.

Lemma SFmul_nan (x y : spec_float) :
  x = S754_nan \/ y = S754_nan -> SF64mul x y = S754_nan.
Proof.
  intros [H|H]; subst; [reflexivity|].
  destruct x as [s|s| |s m e]; try reflexivity.
Qed.

#[export] Instance F64_nan : NaNLaws F64.
Proof.
  split.
  - intros a b H. apply F64_isNaN. simpl. rewrite add_spec. apply SFadd_nan.
    rewrite <- !F64_isNaN. exact H.
  - intros a b H. apply F64_isNaN. simpl. rewrite sub_spec. apply SFsub_nan.
    rewrite <- !F64_isNaN. exact H.
  - intros a b H. apply F64_isNaN. simpl. rewrite mul_spec. apply SFmul_nan.
    rewrite <- !F64_isNaN. exact H.
  - intros a b H. rewrite !F64_isNaN in H. simpl. rewrite ltb_spec. unfold SFltb.
    destruct H as [H|H]; rewrite H; [reflexivity|].
    destruct (Prim2SF a); reflexivity.
  - reflexivity.
Qed.
End F64NaN.

Section XQNaN.

Lemma XQ_isNaN (a : xq) : Spec.isNaN (N:=XQ) a = true <-> a = XNaN.
Proof.
  unfold Spec.isNaN. simpl. rewrite negb_true_iff.
  destruct a as [|s| |q]; unfold XQOps.eqb; simpl; split; intro H;
    try reflexivity; try discriminate H.
  - destruct s; discriminate H.
  - assert (E : Qeq_bool q q = true) by (apply Qeq_bool_iff; reflexivity).
    congruence.
Qed.

#[export] Instance XQ_nan : NaNLaws XQ.
Proof.
  split.
  - intros a b H. rewrite !XQ_isNaN in *. simpl.
    destruct H as [H|H]; subst; [reflexivity|].
    unfold XQOps.add. destruct (XQOps.classify a); reflexivity.
  - intros a b H. rewrite !XQ_isNaN in *. simpl.
    destruct H as [H|H]; subst; [reflexivity|].
    unfold XQOps.sub, XQOps.add. destruct (XQOps.classify a); reflexivity.
  - intros a b H. rewrite !XQ_isNaN in *. simpl.
    destruct H as [H|H]; subst; [reflexivity|].
    unfold XQOps.mul. destruct (XQOps.classify a); reflexivity.
  - intros a b H. rewrite !XQ_isNaN in *. simpl.
    destruct H as [H|H]; subst; [reflexivity|].
    unfold XQOps.ltb. destruct (XQOps.classify a); reflexivity.
  - reflexivity.
Qed.
End XQNaN.

Section MissingData.
Context {N : Number} {L : NaNLaws N}.
Import Missing.

Ltac nan :=
  repeat first
    [ assumption
    | apply add_nan
    | apply sub_nan
    | apply mul_nan
    | (left; solve [nan])
    | (right; solve [nan]) ].

(** The normal of a triangle with a NaN coordinate makes [DdN] NaN. *)
Lemma DdN_nan (ray : Ray.t) (tri : Triangle.t) :
  undefinedTriangle tri = true -> Spec.isNaN (Spec.DdN ray tri) = true.
Proof.
  destruct tri as [[ax ay az] [bx by_ bz] [cx cy cz]].
  unfold undefinedTriangle, hasNaN, Spec.DdN, Spec.normal, Spec.edge1, Spec.edge2,
    Spec.vdot, Spec.vcross, Spec.vsub. simpl.
  rewrite !orb_true_iff.
  intros [[[[H|H]|H]|[[H|H]|H]]|[[H|H]|H]]; nan.
Qed.

Lemma triangleT_undefined (ray : Ray.t) (tri : Triangle.t) (cull : bool) :
  undefinedTriangle tri = true -> Spec.triangleT ray tri cull = None.
Proof.
  intro H. apply (@DdN_nan ray tri) in H. unfold Spec.triangleT.
  rewrite (ltb_nan Zero (Spec.DdN ray tri)) by (right; exact H).
  rewrite (ltb_nan (Spec.DdN ray tri) Zero) by (left; exact H).
  reflexivity.
Qed.

(** X8. A triangle with a coordinate that is NaN is never hit, with or
    without culling, and the test leaves [result] alone. *)
Theorem intersectTriangle_undefined (this : Ray.t) (tri : Triangle.t)
    (cull : bool) (s : Store) :
  undefinedTriangle tri = true ->
  fst (Ray.intersectTriangle this tri cull result s) = None
  /\ snd (Ray.intersectTriangle this tri cull result s) result = s result.
Proof.
  intro H.
  destruct (intersectTriangle_run this tri cull result s) as (F & _ & Fr).
  rewrite (@triangleT_undefined this tri cull H) in F, Fr.
  split; [exact F|]. apply Fr; [reflexivity | left; reflexivity].
Qed.

(** The point of a ray at a parameter that is NaN. *)
Lemma pointAt_nan (ray : Ray.t) (t : num) :
  Spec.isNaN t = true -> allNaN (Spec.pointAt ray t) = true.
Proof.
  intro H. unfold allNaN, Spec.pointAt.
  cbn [Vector3.x Vector3.y Vector3.z].
  rewrite !add_nan by (left; apply mul_nan; right; exact H). reflexivity.
Qed.

(** X23. The sphere test and the box test do not reject NaN as the triangle
    test does.  A sphere with a NaN in its center or as its radius, and a box
    whose corners hold nothing but NaN, are hit by every ray: the test
    returns [result], holding NaN in every coordinate.  ([Math.sqrt] of NaN
    is NaN.) *)
Theorem undefined_shapes_accepted {S : Sqrt N} (ray : Ray.t) (res : loc)
    (s : Store) :
  (forall a : num, Spec.isNaN a = true -> Spec.isNaN (sqrt a) = true) ->
  (forall sphere,
     hasNaN (BoundingSphere.center sphere) = true
     \/ Spec.isNaN (BoundingSphere.radius sphere) = true ->
     let out := Ray.intersectBoundingSphere ray sphere res s in
     fst out = Some res /\ allNaN (snd out res) = true)
  /\ (forall box,
        allNaN (AABB.min box) = true -> allNaN (AABB.max box) = true ->
        let out := Ray.intersectAABB ray box res s in
        fst out = Some res /\ allNaN (snd out res) = true).
Proof.
  intro Hsqrt. split.
  - intros sphere H out.
    destruct (intersectBoundingSphere_run ray sphere res s) as (F & P & _).
    fold out in F, P.
    assert (Hroot : Spec.isNaN (Spec.thc ray sphere) = true).
    { unfold Spec.thc. apply Hsqrt.
      destruct H as [H|H].
      - apply sub_nan. right. unfold Spec.d2, Spec.tca, Spec.vdot, Spec.vsub.
        destruct sphere as [[cx cy cz] r]. unfold hasNaN in H.
        cbn [BoundingSphere.center Vector3.x Vector3.y Vector3.z] in *.
        rewrite !orb_true_iff in H. destruct H as [[H|H]|H]; nan.
      - apply sub_nan. left. unfold Spec.radius2. apply mul_nan. left. exact H. }
    assert (H0 : Spec.isNaN (Spec.t0 ray sphere) = true)
      by (unfold Spec.t0; apply sub_nan; right; exact Hroot).
    assert (E : Spec.sphereT ray sphere = Some (Spec.t0 ray sphere)).
    { unfold Spec.sphereT.
      rewrite (ltb_nan (Spec.radius2 sphere) (Spec.d2 ray sphere)).
      - rewrite (ltb_nan (Spec.t0 ray sphere) Zero) by (left; exact H0).
        reflexivity.
      - destruct H as [H|H].
        + right. unfold Spec.d2, Spec.tca, Spec.vdot, Spec.vsub.
          destruct sphere as [[cx cy cz] r]. unfold hasNaN in H.
          cbn [BoundingSphere.center Vector3.x Vector3.y Vector3.z] in *.
          rewrite !orb_true_iff in H. destruct H as [[H|H]|H]; nan.
        + left. unfold Spec.radius2. apply mul_nan. left. exact H. }
    rewrite E in F, P. split; [exact F|].
    rewrite (P _ eq_refl). apply pointAt_nan. exact H0.
  - intros box Hmin Hmax out.
    destruct (intersectAABB_run ray box res s) as (F & P & _).
    fold out in F, P.
    unfold allNaN in Hmin, Hmax. rewrite !andb_true_iff in Hmin, Hmax.
    destruct Hmin as ((Lx & Ly) & Lz), Hmax as ((Ux & Uy) & Uz).
    assert (Slab : forall o d lo hi : num,
               Spec.isNaN lo = true -> Spec.isNaN hi = true ->
               Spec.isNaN (fst (Spec.slab o d lo hi)) = true
               /\ Spec.isNaN (snd (Spec.slab o d lo hi)) = true).
    { intros o d lo hi Hlo Hhi. unfold Spec.slab.
      destruct (leb Zero (div One d)); cbn [fst snd]; split; nan. }
    destruct (Slab (Vector3.x (Ray.origin ray)) (Vector3.x (Ray.direction ray))
                _ _ Lx Ux) as (X1 & X2).
    destruct (Slab (Vector3.y (Ray.origin ray)) (Vector3.y (Ray.direction ray))
                _ _ Ly Uy) as (Y1 & Y2).
    destruct (Slab (Vector3.z (Ray.origin ray)) (Vector3.z (Ray.direction ray))
                _ _ Lz Uz) as (Z1 & Z2).
    fold (Spec.slabX ray box) in X1, X2. fold (Spec.slabY ray box) in Y1, Y2.
    fold (Spec.slabZ ray box) in Z1, Z2.
    assert (E : exists t, Spec.boxT ray box = Some t /\ Spec.isNaN t = true).
    { unfold Spec.boxT, Spec.boxOf, Spec.disjoint, Spec.fold.
      destruct (Spec.slabX ray box) as [a1 b1], (Spec.slabY ray box) as [a2 b2],
        (Spec.slabZ ray box) as [a3 b3]. cbn [fst snd] in *.
      rewrite X1, X2, !orb_true_r. cbn [fst snd].
      rewrite Y1, Y2, !orb_true_r.
      rewrite (ltb_nan b2 a1), (ltb_nan b1 a2), (ltb_nan b3 a2), (ltb_nan b2 a3),
        (ltb_nan b3 Zero) by auto.
      cbn [orb]. destruct (leb Zero a3); eexists; split; try reflexivity; assumption. }
    destruct E as (t & E & Ht). rewrite E in F, P. split; [exact F|].
    rewrite (P _ eq_refl). apply pointAt_nan. exact Ht.
Qed.

Section Ragged.
Context {T : Matrix4Ops N}.
Import ObstacleSpec.

Lemma firstHit_skip (ray : Ray.t) (cull : bool) (ts ts' : list Triangle.t)
    (tri : Triangle.t) :
  Spec.triangleT ray tri cull = None ->
  firstHit ray cull (ts ++ tri :: ts') = firstHit ray cull (ts ++ ts').
Proof.
  intro H. induction ts as [|tri' ts IH]; simpl; [rewrite H; reflexivity|].
  destruct (Spec.triangleT ray tri' cull); [reflexivity | exact IH].
Qed.

Lemma toWorld_undefined (m : Matrix4) (tri : Triangle.t) :
  propagates m -> undefinedTriangle tri = true ->
  undefinedTriangle (toWorld m tri) = true.
Proof.
  unfold undefinedTriangle, toWorld. simpl. rewrite !orb_true_iff.
  intros P [[H|H]|H]; apply P in H; auto.
Qed.

(** The number of passes over a buffer cut back to complete groups, and
    over the buffer itself. *)
Lemma passes_complete (l stride : nat) :
  0 < stride ->
  passes (stride * (l / stride)) stride = l / stride
  /\ (l mod stride = 0 -> passes l stride = l / stride)
  /\ (l mod stride <> 0 -> passes l stride = l / stride + 1).
Proof.
  intro Hs. unfold passes.
  pose proof (Nat.div_mod_eq l stride) as D.
  pose proof (Nat.mod_upper_bound l stride) as B.
  split; [|split].
  - symmetry. apply Nat.div_unique with (r := stride - 1); lia.
  - intro R. symmetry. apply Nat.div_unique with (r := stride - 1); lia.
  - intro R. symmetry. apply Nat.div_unique with (r := l mod stride - 1); nia.
Qed.

(** The scan over the triangles [f 0 .. f (p - 1)] of a buffer of length
    [l], when the triangles of the buffer cut back are the same and the
    triangle after them is undefined. *)
Lemma firstHit_complete (ray : Ray.t) (cull : bool) (m : Matrix4)
    (f f' : nat -> Triangle.t) (l stride : nat) :
  0 < stride -> propagates m ->
  (forall k, k < l / stride -> f' k = f k) ->
  (l mod stride <> 0 -> undefinedTriangle (f (l / stride)) = true) ->
  firstHit ray cull
    (map (toWorld m) (map f' (seq 0 (passes (stride * (l / stride)) stride))))
  = firstHit ray cull (map (toWorld m) (map f (seq 0 (passes l stride)))).
Proof.
  intros Hs Hm Hsame Hlast.
  destruct (@passes_complete l stride Hs) as (Pc & P0 & P1).
  rewrite Pc.
  assert (Same : map f' (seq 0 (l / stride)) = map f (seq 0 (l / stride))).
  { apply map_ext_in. intros k Hk. apply in_seq in Hk. apply Hsame. lia. }
  rewrite Same.
  destruct (Nat.eq_dec (l mod stride) 0) as [R|R].
  - rewrite (P0 R). reflexivity.
  - rewrite (P1 R), seq_app, !map_app. simpl.
    rewrite firstHit_skip, app_nil_r; [reflexivity|].
    apply triangleT_undefined, toWorld_undefined; [exact Hm | exact (Hlast R)].
Qed.

Lemma soupTriangle_complete (vertices : list num) (k : nat) :
  k < length vertices / 9 ->
  soupTriangle (complete 9 vertices) k = soupTriangle vertices k.
Proof.
  intro Hk. unfold soupTriangle, complete.
  assert (E : forall i, i < 9 * (length vertices / 9) ->
            nth i (firstn (9 * (length vertices / 9)) vertices) NaN
            = nth i vertices NaN).
  { intros i Hi. rewrite nth_firstn.
    destruct (Nat.ltb_spec i (9 * (length vertices / 9))); [reflexivity | lia]. }
  rewrite !E by lia. reflexivity.
Qed.

(** The last triangle of a buffer that breaks off inside it has a NaN. *)
Lemma soupTriangle_ragged (vertices : list num) :
  length vertices mod 9 <> 0 ->
  undefinedTriangle (soupTriangle vertices (length vertices / 9)) = true.
Proof.
  intro H. unfold undefinedTriangle, hasNaN, soupTriangle. cbv zeta.
  cbn [Triangle.a Triangle.b Triangle.c Vector3.x Vector3.y Vector3.z].
  assert (E : nth (9 * (length vertices / 9) + 8) vertices NaN = NaN).
  { apply nth_overflow.
    pose proof (Nat.div_mod_eq (length vertices) 9).
    pose proof (Nat.mod_upper_bound (length vertices) 9). lia. }
  rewrite E, nan_nan, !orb_true_r. reflexivity.
Qed.

Lemma indexedTriangle_complete (vertices : list num) (indices : list nat) (k : nat) :
  k < length indices / 3 ->
  indexedTriangle vertices (complete 3 indices) k = indexedTriangle vertices indices k.
Proof.
  intro Hk. unfold indexedTriangle, complete.
  assert (E : forall i, i < 3 * (length indices / 3) ->
            nth_error (firstn (3 * (length indices / 3)) indices) i
            = nth_error indices i).
  { intros i Hi. rewrite nth_error_firstn.
    destruct (Nat.ltb_spec i (3 * (length indices / 3))); [reflexivity | lia]. }
  rewrite !E by lia. reflexivity.
Qed.

(** The last triangle of an index buffer that breaks off inside it has no
    third vertex. *)
Lemma indexedTriangle_ragged (vertices : list num) (indices : list nat) :
  length indices mod 3 <> 0 ->
  undefinedTriangle (indexedTriangle vertices indices (length indices / 3)) = true.
Proof.
  intro H. unfold undefinedTriangle, indexedTriangle.
  cbn [Triangle.a Triangle.b Triangle.c].
  assert (E : nth_error indices (3 * (length indices / 3) + 2) = None).
  { apply nth_error_None.
    pose proof (Nat.div_mod_eq (length indices) 3).
    pose proof (Nat.mod_upper_bound (length indices) 3). lia. }
  rewrite E. unfold vertexAt, hasNaN at 3. cbn [Vector3.x Vector3.y Vector3.z].
  rewrite nan_nan, !orb_true_r. reflexivity.
Qed.

(** Two queries with the same hit. *)
Lemma same_query (this other : Obstacle.t) (ray : Ray.t) (s : Store) :
  obstacleT other ray = obstacleT this ray ->
  fst (Obstacle.intersectRay other ray result s)
  = fst (Obstacle.intersectRay this ray result s)
  /\ snd (Obstacle.intersectRay other ray result s) result
     = snd (Obstacle.intersectRay this ray result s) result.
Proof.
  intro E.
  destruct (intersectRay_run other ray result s) as (F & P & Fr).
  destruct (intersectRay_run this ray result s) as (F' & P' & Fr').
  rewrite E in F, P, Fr. split; [congruence|].
  destruct (obstacleT this ray) as [t|].
  - rewrite (P t eq_refl), (P' t eq_refl). reflexivity.
  - rewrite Fr, Fr'; auto.
Qed.

(** X9. A buffer that breaks off inside a triangle: the entries after the
    last complete triangle are never part of a hit. Under a world matrix
    that keeps NaN, the query answers as it does for the geometry cut back
    to its complete triangles (the vertex buffer without an index buffer,
    the index buffer with one). *)
Theorem intersectRay_complete (this : Obstacle.t) (ray : Ray.t) (s : Store) :
  let cut := Obstacle.mk (completeGeometry (Obstacle.geometry this))
               (Obstacle.worldMatrix this) in
  propagates (Obstacle.worldMatrix this) ->
  fst (Obstacle.intersectRay cut ray result s)
  = fst (Obstacle.intersectRay this ray result s)
  /\ snd (Obstacle.intersectRay cut ray result s) result
     = snd (Obstacle.intersectRay this ray result s) result.
Proof.
  intros cut Hm. apply same_query.
  unfold obstacleT, cut, worldBox, worldTriangles, triangles, completeGeometry.
  destruct this as [[vertices [indices|] box cull] m];
    cbn [Obstacle.geometry Obstacle.worldMatrix MeshGeometry.indices
         MeshGeometry.vertices MeshGeometry.aabb MeshGeometry.backfaceCulling] in *;
    destruct (Spec.boxT ray (AABB_applyMatrix4 box m)); try reflexivity.
  - assert (Len : length (complete 3 indices) = 3 * (length indices / 3)).
    { unfold complete. rewrite length_firstn.
      pose proof (Nat.Div0.mul_div_le (length indices) 3). lia. }
    rewrite Len.
    apply (@firstHit_complete ray cull m (indexedTriangle vertices indices)
             (indexedTriangle vertices (complete 3 indices)) (length indices) 3);
      [lia | exact Hm | |].
    + intros k Hk. apply indexedTriangle_complete. exact Hk.
    + apply indexedTriangle_ragged.
  - assert (Len : length (complete 9 vertices) = 9 * (length vertices / 9)).
    { unfold complete. rewrite length_firstn.
      pose proof (Nat.Div0.mul_div_le (length vertices) 9). lia. }
    rewrite Len.
    apply (@firstHit_complete ray cull m (soupTriangle vertices)
             (soupTriangle (complete 9 vertices)) (length vertices) 9);
      [lia | exact Hm | |].
    + intros k Hk. apply soupTriangle_complete. exact Hk.
    + apply soupTriangle_ragged.
Qed.

Lemma map_seq_from {A : Type} (f : nat -> A) (n p start : nat) :
  map f (seq (n + start) p) = map (fun k => f (n + k)) (seq start p).
Proof.
  revert start. induction p as [|p IH]; intro start; simpl; [reflexivity|].
  f_equal. rewrite <- (IH (S start)). f_equal. f_equal. lia.
Qed.

(** The triangles of an index buffer made of two parts, the first of whole
    triangles. *)
Lemma indexed_app (vertices : list num) (before rest : list nat) (n : nat) :
  length before = 3 * n ->
  map (indexedTriangle vertices (before ++ rest))
      (seq 0 (passes (length (before ++ rest)) 3))
  = map (indexedTriangle vertices before) (seq 0 n)
    ++ map (indexedTriangle vertices rest) (seq 0 (passes (length rest) 3)).
Proof.
  intro Hb.
  assert (Pn : passes (length (before ++ rest)) 3 = n + passes (length rest) 3).
  { rewrite length_app, Hb. unfold passes. simpl Nat.sub.
    replace (3 * n + length rest + 2) with (n * 3 + (length rest + 2)) by lia.
    rewrite Nat.div_add_l by lia. reflexivity. }
  rewrite Pn, seq_app, map_app. f_equal.
  - apply map_ext_in. intros k Hk. apply in_seq in Hk.
    unfold indexedTriangle. rewrite !nth_error_app1 by lia. reflexivity.
  - replace (0 + n) with (n + 0) by lia. rewrite map_seq_from.
    apply map_ext. intro k. unfold indexedTriangle.
    rewrite !nth_error_app2 by lia.
    replace (3 * (n + k) - length before) with (3 * k) by lia.
    replace (3 * (n + k) + 1 - length before) with (3 * k + 1) by lia.
    replace (3 * (n + k) + 2 - length before) with (3 * k + 2) by lia.
    reflexivity.
Qed.

(** A triangle with a dangling index has a NaN. *)
Lemma indexedTriangle_dangling (vertices : list num) (a b c : nat) :
  dangling vertices a \/ dangling vertices b \/ dangling vertices c ->
  undefinedTriangle (indexedTriangle vertices [a; b; c] 0) = true.
Proof.
  unfold dangling, undefinedTriangle, indexedTriangle, vertexAt, hasNaN.
  cbn [nth_error Nat.mul Nat.add Triangle.a Triangle.b Triangle.c
       Vector3.x Vector3.y Vector3.z].
  intros [H|[H|H]].
  - rewrite (nth_overflow vertices NaN H), nan_nan, !orb_true_r. reflexivity.
  - rewrite (nth_overflow vertices NaN H), nan_nan, !orb_true_r. reflexivity.
  - rewrite (nth_overflow vertices NaN H), nan_nan, !orb_true_r. reflexivity.
Qed.

(** X10. An index past the end of the vertex buffer: the triangle that uses
    it is never hit. Under a world matrix that keeps NaN, the query answers
    as it does for the index buffer without the three indices of that
    triangle. *)
Theorem intersectRay_dangling (this : Obstacle.t) (ray : Ray.t) (s : Store)
    (before after : list nat) (a b c n : nat) :
  let g := Obstacle.geometry this in
  let cut := Obstacle.mk (reindexed g (before ++ after)) (Obstacle.worldMatrix this) in
  MeshGeometry.indices g = Some (before ++ a :: b :: c :: after) ->
  length before = 3 * n ->
  dangling (MeshGeometry.vertices g) a \/ dangling (MeshGeometry.vertices g) b
  \/ dangling (MeshGeometry.vertices g) c ->
  propagates (Obstacle.worldMatrix this) ->
  fst (Obstacle.intersectRay cut ray result s)
  = fst (Obstacle.intersectRay this ray result s)
  /\ snd (Obstacle.intersectRay cut ray result s) result
     = snd (Obstacle.intersectRay this ray result s) result.
Proof.
  intros g cut Hi Hb Hd Hm. apply same_query.
  unfold obstacleT, cut, worldBox, worldTriangles, triangles, reindexed.
  cbn [Obstacle.geometry Obstacle.worldMatrix MeshGeometry.indices
       MeshGeometry.vertices MeshGeometry.aabb MeshGeometry.backfaceCulling].
  fold g. rewrite Hi.
  destruct (Spec.boxT ray _); [|reflexivity].
  rewrite (@indexed_app (MeshGeometry.vertices g) before after n Hb).
  rewrite (@indexed_app (MeshGeometry.vertices g) before (a :: b :: c :: after) n Hb).
  change (a :: b :: c :: after) with ([a; b; c] ++ after).
  rewrite (@indexed_app (MeshGeometry.vertices g) [a; b; c] after 1 eq_refl).
  rewrite !map_app. cbn [seq map app].
  symmetry. apply firstHit_skip.
  apply triangleT_undefined, toWorld_undefined; [exact Hm|].
  apply indexedTriangle_dangling. exact Hd.
Qed.
End Ragged.
End MissingData.

(** A triangle with a vertex of NaN is not hit, seen from either side. *)
Lemma intersectTriangle_undefined_witness :
  fst (Ray.intersectTriangle Example.ray Sample.undefined false result
         Example.zeroStore) = None
  /\ fst (Ray.intersectTriangle Example.inner Sample.undefined true result
            Example.zeroStore) = None.
Proof.
  split.
  - apply (@intersectTriangle_undefined F64 F64_nan Example.ray Sample.undefined
             false Example.zeroStore). reflexivity.
  - apply (@intersectTriangle_undefined F64 F64_nan Example.inner Sample.undefined
             true Example.zeroStore). reflexivity.
Defined.

(** A translation keeps NaN. *)
Lemma translation_propagates (m : Vector3.t (N:=F64)) :
  Missing.propagates (T:=Example.Translation) m.
Proof.
  intros [x y z]. unfold Missing.hasNaN. simpl. rewrite !orb_true_iff.
  intros [[H|H]|H].
  - left. left. apply (add_nan (N:=F64)). left. exact H.
  - left. right. apply (add_nan (N:=F64)). left. exact H.
  - right. apply (add_nan (N:=F64)). left. exact H.
Qed.

(** The four floats after the two triangles of [Sample.ragged] change
    nothing: the query returns the point in the plane z = 3. *)
Lemma intersectRay_complete_witness :
  let out := Obstacle.intersectRay (Obstacle.mk Sample.ragged Example.identity)
               Example.ray result Example.zeroStore in
  Missing.complete 9 (MeshGeometry.vertices Sample.ragged) = Example.farThenNear
  /\ fst out = Some result
  /\ snd out result = Example.vec 0 0.25 3.
Proof.
  split; [reflexivity|].
  destruct (@intersectRay_complete F64 F64_nan Example.Translation
              (Obstacle.mk Sample.ragged Example.identity) Example.ray
              Example.zeroStore (translation_propagates Example.identity))
    as (F & R).
  split; [rewrite <- F | rewrite <- R]; vm_compute; reflexivity.
Defined.

(** The first triangle of [Sample.astray] uses the index 9 of a buffer of
    six vertices: the query returns the point of the second triangle, in the
    plane z = 0. *)
Lemma intersectRay_dangling_witness :
  let out := Obstacle.intersectRay (Obstacle.mk Sample.astray Example.identity)
               Example.ray result Example.zeroStore in
  fst out = Some result /\ snd out result = Example.vec 0 0.25 0.
Proof.
  destruct (@intersectRay_dangling F64 F64_nan Example.Translation
              (Obstacle.mk Sample.astray Example.identity) Example.ray
              Example.zeroStore [] [3; 4; 5] 0 1 9 0 eq_refl eq_refl)
    as (F & R).
  - right. right. unfold Missing.dangling. simpl. lia.
  - apply translation_propagates.
  - split; [rewrite <- F | rewrite <- R]; vm_compute; reflexivity.
Defined.

(** [Math.sqrt] of NaN is NaN in binary64. *)
Lemma F64_sqrt_nan (a : float) :
  Spec.isNaN (N:=F64) a = true -> Spec.isNaN (N:=F64) (PrimFloat.sqrt a) = true.
Proof.
  rewrite !F64_isNaN, sqrt_spec. intro H. rewrite H. reflexivity.
Qed.

(** A sphere whose radius is NaN is hit by the ray of section 8, in a point
    of NaN. *)
Lemma undefined_shapes_accepted_witness :
  let out := Ray.intersectBoundingSphere Example.ray
               (BoundingSphere.mk (N:=F64) (Example.vec 0 0 0) PrimFloat.nan)
               result Example.zeroStore in
  fst out = Some result /\ Missing.allNaN (snd out result) = true.
Proof.
  destruct (@undefined_shapes_accepted F64 F64_nan F64_sqrt Example.ray result
              Example.zeroStore F64_sqrt_nan) as (H & _).
  apply H. right. reflexivity.
Defined.
(** ** The triangle test, exactly *)

(** A value built by the arithmetic from finite values is finite. *)
Ltac valuate :=
  repeat first
    [ eassumption
    | eapply add_valued
    | eapply sub_valued
    | eapply mul_valued
    | eapply neg_valued ].

Section ExactTriangle.
Import Exact ExactShapes.
Local Open Scope Q_scope.

Lemma Qdiv_nonneg (p q : Q) : 0 <= p -> 0 < q -> 0 <= p / q.
Proof.
  intros Hp Hq. unfold Qdiv. apply Qmult_le_0_compat; [exact Hp|].
  apply Qlt_le_weak, Qinv_lt_0_compat, Hq.
Qed.

Lemma Qdiv_le_one (p q : Q) : p <= q -> 0 < q -> p / q <= 1.
Proof. intros Hp Hq. apply Qle_shift_div_r; [exact Hq | lra]. Qed.

(** A point of the ray in the plane of the triangle fixes the numerators. *)
Lemma plane_numerators (o d a b c : point) (t u v : Q) :
  same (along o d t) (inPlane a b c u v) ->
  b1 o d a b c == u * facing d a b c
  /\ b2 o d a b c == v * facing d a b c
  /\ height o a b c == - t * facing d a b c.
Proof.
  destruct o as [ox oy oz], d as [dx dy dz], a as [ax ay az], b as [bx by_ bz],
    c as [cx cy cz].
  unfold same, along, inPlane, b1, b2, height, facing, dot, cross, minus. simpl.
  intros (Hx & Hy & Hz).
  assert (Ex : ox == ax + u * (bx - ax) + v * (cx - ax) - t * dx) by lra.
  assert (Ey : oy == ay + u * (by_ - ay) + v * (cy - ay) - t * dy) by lra.
  assert (Ez : oz == az + u * (bz - az) + v * (cz - az) - t * dz) by lra.
  rewrite Ex, Ey, Ez. repeat split; ring.
Qed.

(** The numerators give the point of the ray in the plane of the triangle. *)
Lemma numerators_plane (o d a b c : point) :
  ~ facing d a b c == 0 ->
  same (along o d (- height o a b c / facing d a b c))
       (inPlane a b c (b1 o d a b c / facing d a b c) (b2 o d a b c / facing d a b c)).
Proof.
  destruct o as [ox oy oz], d as [dx dy dz], a as [ax ay az], b as [bx by_ bz],
    c as [cx cy cz].
  unfold same, along, inPlane, b1, b2, height, facing, dot, cross, minus. simpl.
  intro H. repeat split; field; exact H.
Qed.

(** The four tests, for the sign [sgn] of [facing]: they pass exactly when
    the ray has a point in the triangle. *)
Lemma tests_exact (o d a b c : point) (sgn : Q) :
  (sgn == 1 \/ sgn == - (1)) -> 0 < sgn * facing d a b c ->
  (0 <= sgn * b1 o d a b c /\ 0 <= sgn * b2 o d a b c
   /\ sgn * b1 o d a b c + sgn * b2 o d a b c <= sgn * facing d a b c
   /\ 0 <= - sgn * height o a b c)
  <-> (exists t u v : Q,
         0 <= t /\ 0 <= u /\ 0 <= v /\ u + v <= 1
         /\ same (along o d t) (inPlane a b c u v)).
Proof.
  intros Hs HD.
  assert (Hnz : ~ facing d a b c == 0) by (intro E; rewrite E in HD; lra).
  split.
  - intros (T1 & T2 & T3 & T4).
    exists (- height o a b c / facing d a b c),
      (b1 o d a b c / facing d a b c), (b2 o d a b c / facing d a b c).
    assert (E : forall p, p / facing d a b c == (sgn * p) / (sgn * facing d a b c)).
    { intro p. destruct Hs as [Hs|Hs]; rewrite Hs; field; exact Hnz. }
    split; [rewrite E; apply Qdiv_nonneg; [lra | exact HD]|].
    split; [rewrite E; apply Qdiv_nonneg; [lra | exact HD]|].
    split; [rewrite E; apply Qdiv_nonneg; [lra | exact HD]|].
    split; [|apply numerators_plane; exact Hnz].
    assert (E2 : b1 o d a b c / facing d a b c + b2 o d a b c / facing d a b c
                 == (sgn * b1 o d a b c + sgn * b2 o d a b c) / (sgn * facing d a b c)).
    { destruct Hs as [Hs|Hs]; rewrite Hs; field; exact Hnz. }
    rewrite E2. apply Qdiv_le_one; assumption.
  - intros (t & u & v & Ht & Hu & Hv & Huv & Hp).
    destruct (@plane_numerators _ _ _ _ _ _ _ _ Hp) as (E1 & E2 & E3).
    rewrite E1, E2, E3.
    set (D := sgn * facing d a b c) in *.
    assert (P1 : sgn * (u * facing d a b c) == u * D) by (unfold D; ring).
    assert (P2 : sgn * (v * facing d a b c) == v * D) by (unfold D; ring).
    assert (P3 : - sgn * (- t * facing d a b c) == t * D) by (unfold D; ring).
    rewrite P1, P2, P3.
    split; [apply Qmult_le_0_compat; lra|].
    split; [apply Qmult_le_0_compat; lra|].
    split; [|apply Qmult_le_0_compat; lra].
    assert (P4 : u * D + v * D == (u + v) * D) by ring. rewrite P4.
    assert (P5 : D == 1 * D) by ring. rewrite P5 at 2.
    apply Qmult_le_compat_r; lra.
Qed.

Lemma ltb_valued_false (x y : xq) (p q : Q) :
  valued x p -> valued y q -> (XQOps.ltb x y = false <-> q <= p).
Proof.
  intros Hx Hy. pose proof (@ltb_valued _ _ _ _ Hx Hy) as H.
  destruct (XQOps.ltb x y); split; intro C; try reflexivity; try discriminate.
  - assert (p < q) by (apply H; reflexivity). lra.
  - apply Qnot_lt_le. intro L. apply H in L. discriminate L.
Qed.

Section Located.
Variables (ray : Ray.t (N:=XQ)) (tri : Triangle.t (N:=XQ)).
Variables (o d a b c : point).
Hypothesis Ho : located (Ray.origin ray) o.
Hypothesis Hd : located (Ray.direction ray) d.
Hypothesis Ha : located (Triangle.a tri) a.
Hypothesis Hb : located (Triangle.b tri) b.
Hypothesis Hc : located (Triangle.c tri) c.

Lemma DdN_valued : valued (Spec.DdN ray tri) (facing d a b c).
Proof.
  destruct Ho as (Ox & Oy & Oz), Hd as (Dx & Dy & Dz), Ha as (Ax & Ay & Az),
    Hb as (Bx & By & Bz), Hc as (Cx & Cy & Cz).
  unfold Spec.DdN, Spec.normal, Spec.edge1, Spec.edge2, Spec.vdot, Spec.vcross,
    Spec.vsub. simpl.
  eapply valued_eq; [valuate|].
  unfold facing, dot, cross, minus. simpl. ring.
Qed.

Lemma numerators_valued (sign : xq) (sgn : Q) :
  valued sign sgn ->
  valued (Spec.DdQxE2 ray tri sign) (sgn * b1 o d a b c)
  /\ valued (Spec.DdE1xQ ray tri sign) (sgn * b2 o d a b c)
  /\ valued (Spec.QdN ray tri sign) (- sgn * height o a b c).
Proof.
  intro Hs.
  destruct Ho as (Ox & Oy & Oz), Hd as (Dx & Dy & Dz), Ha as (Ax & Ay & Az),
    Hb as (Bx & By & Bz), Hc as (Cx & Cy & Cz).
  unfold Spec.DdQxE2, Spec.DdE1xQ, Spec.QdN, Spec.v1, Spec.normal, Spec.edge1,
    Spec.edge2, Spec.vdot, Spec.vcross, Spec.vsub. simpl.
  repeat split; (eapply valued_eq; [valuate|]);
    unfold b1, b2, height, dot, cross, minus; simpl; ring.
Qed.

(** The four tests in exact arithmetic, for the sign of [facing] and the
    positive denominator. *)
Lemma accepted_exact (sign denom : xq) (sgn : Q) :
  valued sign sgn -> valued denom (sgn * facing d a b c) ->
  (sgn == 1 \/ sgn == - (1)) -> 0 < sgn * facing d a b c ->
  match Spec.accepted ray tri sign denom with
  | Some t' =>
    exists t u v : Q,
      valued t' t /\ 0 <= t /\ 0 <= u /\ 0 <= v /\ u + v <= 1
      /\ same (along o d t) (inPlane a b c u v)
  | None =>
    ~ exists t u v : Q,
        0 <= t /\ 0 <= u /\ 0 <= v /\ u + v <= 1
        /\ same (along o d t) (inPlane a b c u v)
  end.
Proof.
  intros Hs Hden Hsgn HD.
  destruct (@numerators_valued _ _ Hs) as (V1 & V2 & V3).
  assert (V0 : valued (XFin 0) 0) by (unfold valued; simpl; reflexivity).
  pose proof (@tests_exact o d a b c sgn Hsgn HD) as T.
  unfold Spec.accepted. cbn [ltb add div Zero XQ].
  destruct (XQOps.ltb (Spec.DdQxE2 ray tri sign) (XFin 0)) eqn:E1.
  { apply (@ltb_valued _ _ _ _ V1 V0) in E1. intro C. apply T in C. lra. }
  apply (@ltb_valued_false _ _ _ _ V1 V0) in E1.
  destruct (XQOps.ltb (Spec.DdE1xQ ray tri sign) (XFin 0)) eqn:E2.
  { apply (@ltb_valued _ _ _ _ V2 V0) in E2. intro C. apply T in C. lra. }
  apply (@ltb_valued_false _ _ _ _ V2 V0) in E2.
  destruct (XQOps.ltb denom _) eqn:E3.
  { apply (@ltb_valued _ _ _ _ Hden (@add_valued _ _ _ _ V1 V2)) in E3. intro C. apply T in C. lra. }
  apply (@ltb_valued_false _ _ _ _ Hden (@add_valued _ _ _ _ V1 V2)) in E3.
  destruct (XQOps.ltb (Spec.QdN ray tri sign) (XFin 0)) eqn:E4.
  { apply (@ltb_valued _ _ _ _ V3 V0) in E4. intro C. apply T in C. lra. }
  apply (@ltb_valued_false _ _ _ _ V3 V0) in E4.
  destruct (proj1 T) as (t & u & v & Ht & Hu & Hv & Huv & Hp);
    [repeat split; assumption|].
  exists t, u, v. split; [|repeat split; try assumption; apply Hp].
  assert (Hnz : ~ facing d a b c == 0) by (intro E; rewrite E in HD; lra).
  destruct (@plane_numerators _ _ _ _ _ _ _ _ Hp) as (_ & _ & Eh).
  eapply valued_eq; [apply (@div_valued _ _ _ _ V3 Hden); lra|].
  rewrite Eh. destruct Hsgn as [E|E]; rewrite E; field; exact Hnz.
Qed.
End Located.

(** The triangle test in exact arithmetic: it accepts exactly the rays that
    meet the triangle, at the parameter of the point where they meet it. *)
Lemma triangleT_exact (ray : Ray.t (N:=XQ)) (tri : Triangle.t (N:=XQ))
    (cull : bool) (o d a b c : point) :
  located (Ray.origin ray) o -> located (Ray.direction ray) d ->
  located (Triangle.a tri) a -> located (Triangle.b tri) b ->
  located (Triangle.c tri) c ->
  match Spec.triangleT ray tri cull with
  | Some t' =>
    rayMeetsTriangle o d a b c cull
    /\ exists t u v : Q,
         valued t' t /\ 0 <= t /\ 0 <= u /\ 0 <= v /\ u + v <= 1
         /\ same (along o d t) (inPlane a b c u v)
  | None => ~ rayMeetsTriangle o d a b c cull
  end.
Proof.
  intros Ho Hd Ha Hb Hc.
  pose proof (@DdN_valued ray tri o d a b c Ho Hd Ha Hb Hc) as VD.
  assert (V0 : valued (XFin 0) 0) by (unfold valued; simpl; reflexivity).
  assert (V1 : valued (XFin 1) 1) by (unfold valued; simpl; reflexivity).
  unfold Spec.triangleT. cbn [ltb Zero One neg XQ].
  destruct (XQOps.ltb (XFin 0) (Spec.DdN ray tri)) eqn:Epos.
  - apply (@ltb_valued _ _ _ _ V0 VD) in Epos.
    destruct cull.
    + intros (t & u & v & _ & _ & _ & _ & _ & _ & C).
      specialize (C eq_refl). lra.
    + assert (Vden : valued (Spec.DdN ray tri) (1 * facing d a b c))
        by (apply (@valued_eq _ _ _ VD); ring).
      pose proof (@accepted_exact ray tri o d a b c Ho Hd Ha Hb Hc
                    (XFin 1) (Spec.DdN ray tri) 1 V1 Vden
                    (or_introl (Qeq_refl 1))) as A.
      assert (HD : 0 < 1 * facing d a b c) by lra. specialize (A HD).
      destruct (Spec.accepted ray tri (XFin 1) (Spec.DdN ray tri)) as [t'|].
      * destruct A as (t & u & v & Vt & K).
        split; [|exists t, u, v; split; assumption].
        exists t, u, v. repeat split; try apply K; try lra; try discriminate.
      * intros (t & u & v & C1 & C2 & C3 & C4 & C5 & _).
        apply A. exists t, u, v. auto.
  - apply (@ltb_valued_false _ _ _ _ V0 VD) in Epos.
    destruct (XQOps.ltb (Spec.DdN ray tri) (XFin 0)) eqn:Eneg.
    + apply (@ltb_valued _ _ _ _ VD V0) in Eneg.
      assert (Vs : valued (XQOps.neg (XFin 1)) (- (1)))
        by (apply neg_valued; exact V1).
      assert (Vden : valued (XQOps.neg (Spec.DdN ray tri)) (- (1) * facing d a b c))
        by (apply (@valued_eq _ (- facing d a b c)); [apply neg_valued; exact VD | ring]).
      pose proof (@accepted_exact ray tri o d a b c Ho Hd Ha Hb Hc
                    (XQOps.neg (XFin 1)) (XQOps.neg (Spec.DdN ray tri)) (- (1))
                    Vs Vden (or_intror (Qeq_refl (- (1))))) as A.
      assert (HD : 0 < - (1) * facing d a b c) by lra. specialize (A HD).
      destruct (Spec.accepted ray tri (XQOps.neg (XFin 1))
                  (XQOps.neg (Spec.DdN ray tri))) as [t'|].
      * destruct A as (t & u & v & Vt & K).
        split; [|exists t, u, v; split; assumption].
        exists t, u, v. repeat split; try apply K; try lra.
      * intros (t & u & v & C1 & C2 & C3 & C4 & C5 & _).
        apply A. exists t, u, v. auto.
    + apply (@ltb_valued_false _ _ _ _ VD V0) in Eneg.
      intros (t & u & v & _ & _ & _ & _ & _ & C & _). apply C. lra.
Qed.

(** X11. In exact arithmetic [Ray.intersectTriangle] returns a point exactly
    for the rays that meet the triangle: the ray has a point in the triangle
    at a parameter [t >= 0], it is not parallel to the plane of the triangle
    (so a triangle without area is never hit), and with culling it looks at
    the front of the triangle. The point returned is that point. *)
Theorem intersectTriangle_exact (ray : Ray.t (N:=XQ)) (tri : Triangle.t (N:=XQ))
    (cull : bool) (res : loc) (s : Store (N:=XQ)) (o d a b c : point) :
  located (Ray.origin ray) o -> located (Ray.direction ray) d ->
  located (Triangle.a tri) a -> located (Triangle.b tri) b ->
  located (Triangle.c tri) c ->
  let out := Ray.intersectTriangle ray tri cull res s in
  (fst out <> None <-> rayMeetsTriangle o d a b c cull)
  /\ (fst out <> None ->
      exists t u v : Q,
        0 <= t /\ 0 <= u /\ 0 <= v /\ u + v <= 1
        /\ located (snd out res) (along o d t)
        /\ same (along o d t) (inPlane a b c u v)).
Proof.
  intros Ho Hd Ha Hb Hc out.
  pose proof (intersectTriangle_run ray tri cull res s) as R. fold out in R.
  pose proof (@triangleT_exact ray tri cull o d a b c Ho Hd Ha Hb Hc) as H.
  rewrite (runs_null R). destruct R as (_ & P & _).
  destruct (Spec.triangleT ray tri cull) as [t'|].
  - destruct H as (M & t & u & v & Vt & K).
    split; [split; [intros _; exact M | discriminate]|].
    intros _. exists t, u, v.
    split; [apply K|]. split; [apply K|]. split; [apply K|]. split; [apply K|].
    split; [|apply K].
    rewrite (P t' eq_refl).
    destruct Ho as (Ox & Oy & Oz), Hd as (Dx & Dy & Dz).
    unfold Spec.pointAt, located, along. simpl.
    repeat split; (eapply valued_eq; [valuate | ring]).
  - split; [split; [intro C; exfalso; apply C; reflexivity | intro C; contradiction]|].
    intro C. exfalso. apply C. reflexivity.
Qed.
End ExactTriangle.

Section Winding.
Import Exact ExactShapes.
Local Open Scope Q_scope.

Lemma facing_reversed (d a b c : point) : facing d a c b == - facing d a b c.
Proof. unfold facing, dot, cross, minus. simpl. ring. Qed.

Lemma height_reversed (o a b c : point) : height o a c b == - height o a b c.
Proof. unfold height, dot, cross, minus. simpl. ring. Qed.

Lemma inPlane_reversed (a b c : point) (u v : Q) :
  same (inPlane a c b v u) (inPlane a b c u v).
Proof. unfold same, inPlane. simpl. repeat split; ring. Qed.

(** The parameter at which a ray crosses the plane of a triangle is fixed
    by the triangle, whatever its winding. *)
Lemma crossing_unique (o d a b c : point) (t u v t' u' v' : Q) :
  ~ facing d a b c == 0 ->
  same (along o d t) (inPlane a b c u v) ->
  same (along o d t') (inPlane a c b u' v') ->
  t == t'.
Proof.
  intros Hf H1 H2.
  destruct (@plane_numerators _ _ _ _ _ _ _ _ H1) as (_ & _ & E1).
  destruct (@plane_numerators _ _ _ _ _ _ _ _ H2) as (_ & _ & E2).
  rewrite height_reversed, facing_reversed in E2.
  assert (E : (t - t') * facing d a b c == 0) by lra.
  apply Qmult_integral in E. destruct E as [E|E]; [lra | contradiction].
Qed.

(** X12. The winding of a triangle, in exact arithmetic. Without culling the
    triangle [(a, c, b)] is hit by the rays that hit [(a, b, c)], at the
    same point. With culling no ray hits both: a ray sees the front of one
    of them only. *)
Theorem intersectTriangle_winding (ray : Ray.t (N:=XQ)) (va vb vc : Vector3.t (N:=XQ))
    (res : loc) (s : Store (N:=XQ)) (o d a b c : point) :
  located (Ray.origin ray) o -> located (Ray.direction ray) d ->
  located va a -> located vb b -> located vc c ->
  let hit cull := Ray.intersectTriangle ray (Triangle.mk va vb vc) cull res s in
  let reversed cull := Ray.intersectTriangle ray (Triangle.mk va vc vb) cull res s in
  (fst (hit false) <> None <-> fst (reversed false) <> None)
  /\ (fst (hit false) <> None ->
      exists p, located (snd (hit false) res) p
                /\ located (snd (reversed false) res) p)
  /\ ~ (fst (hit true) <> None /\ fst (reversed true) <> None).
Proof.
  intros Ho Hd Ha Hb Hc hit reversed. subst hit reversed. cbv beta.
  pose proof (fun cull => intersectTriangle_run ray (Triangle.mk va vb vc) cull res s)
    as R1.
  pose proof (fun cull => intersectTriangle_run ray (Triangle.mk va vc vb) cull res s)
    as R2.
  pose proof (fun cull => @triangleT_exact ray (Triangle.mk va vb vc) cull
                            o d a b c Ho Hd Ha Hb Hc) as T1.
  pose proof (fun cull => @triangleT_exact ray (Triangle.mk va vc vb) cull
                            o d a c b Ho Hd Ha Hc Hb) as T2.
  assert (Sym : forall x y z, rayMeetsTriangle o d x y z false ->
                              rayMeetsTriangle o d x z y false).
  { intros x y z (t & u & v & Ht & Hu & Hv & Huv & (Px & Py & Pz) & Hf & _).
    exists t, v, u. split; [exact Ht|]. split; [exact Hv|]. split; [exact Hu|].
    split; [lra|]. split.
    - destruct (inPlane_reversed x y z u v) as (Ex & Ey & Ez).
      repeat split; [rewrite Ex | rewrite Ey | rewrite Ez]; assumption.
    - split; [rewrite facing_reversed; lra | discriminate]. }
  split; [|split].
  - rewrite (runs_null (R1 false)), (runs_null (R2 false)).
    specialize (T1 false). specialize (T2 false).
    destruct (Spec.triangleT ray (Triangle.mk va vb vc) false),
      (Spec.triangleT ray (Triangle.mk va vc vb) false);
      split; intro H; try discriminate; try (exfalso; apply H; reflexivity).
    + exfalso. apply T2, Sym, T1.
    + exfalso. apply T1, Sym, T2.
  - intro H. rewrite (runs_null (R1 false)) in H.
    specialize (T1 false). specialize (T2 false).
    destruct (R1 false) as (_ & P1 & _). destruct (R2 false) as (_ & P2 & _).
    destruct (Spec.triangleT ray (Triangle.mk va vb vc) false) as [t1|];
      [clear H|contradiction].
    destruct T1 as (M & t & u & v & Vt & K).
    destruct (Spec.triangleT ray (Triangle.mk va vc vb) false) as [t2|];
      [|exfalso; apply T2, Sym, M].
    destruct T2 as (_ & t' & u' & v' & Vt' & K').
    assert (Hf : ~ facing d a b c == 0)
      by (destruct M as (? & ? & ? & M); apply M).
    assert (E : t == t').
    { apply (@crossing_unique o d a b c t u v t' u' v' Hf); [apply K | apply K']. }
    exists (along o d t). rewrite (P1 t1 eq_refl), (P2 t2 eq_refl).
    destruct Ho as (Ox & Oy & Oz), Hd as (Dx & Dy & Dz).
    unfold Spec.pointAt, located, along. simpl.
    repeat split; (eapply valued_eq; [valuate | try rewrite E; ring]).
  - rewrite (runs_null (R1 true)), (runs_null (R2 true)).
    specialize (T1 true). specialize (T2 true).
    destruct (Spec.triangleT ray (Triangle.mk va vb vc) true);
      [|intros (H & _); apply H; reflexivity].
    destruct (Spec.triangleT ray (Triangle.mk va vc vb) true);
      [|intros (_ & H); apply H; reflexivity].
    intros _.
    destruct T1 as ((? & ? & ? & _ & _ & _ & _ & _ & _ & F1) & _).
    destruct T2 as ((? & ? & ? & _ & _ & _ & _ & _ & _ & F2) & _).
    specialize (F1 eq_refl). specialize (F2 eq_refl).
    rewrite facing_reversed in F2. lra.
Qed.
End Winding.

Section ExactWitnesses.
Import Exact ExactShapes.
Local Open Scope Q_scope.

(** The ray of section 8 meets the triangle at t = 5, in the point
    (0, 3/10, 0) = a + (7/20) (b - a) + (3/10) (c - a). *)
Lemma intersectTriangle_exact_witness :
  rayMeetsTriangle (mkPoint 0 (3 # 10) (-5)) (mkPoint 0 0 1)
                   (mkPoint (-1) 0 0) (mkPoint 1 0 0) (mkPoint 0 1 0) false.
Proof.
  apply (@intersectTriangle_exact Sample.ray Sample.triangle false result
           Example.zeroStore
           (mkPoint 0 (3 # 10) (-5)) (mkPoint 0 0 1)
           (mkPoint (-1) 0 0) (mkPoint 1 0 0) (mkPoint 0 1 0)).
  - repeat split; reflexivity.
  - repeat split; reflexivity.
  - repeat split; reflexivity.
  - repeat split; reflexivity.
  - repeat split; reflexivity.
  - vm_compute. discriminate.
Defined.

(** The triangle of section 8 and the same triangle wound the other way:
    without culling the ray hits both, in the same point. *)
Lemma intersectTriangle_winding_witness :
  fst (Ray.intersectTriangle Sample.ray
         (Triangle.mk (Example.qvec (-1) 0 0) (Example.qvec 0 1 0) (Example.qvec 1 0 0))
         false result Example.zeroStore) <> None.
Proof.
  apply (@intersectTriangle_winding Sample.ray
           (Example.qvec (-1) 0 0) (Example.qvec 1 0 0) (Example.qvec 0 1 0)
           result Example.zeroStore
           (mkPoint 0 (3 # 10) (-5)) (mkPoint 0 0 1)
           (mkPoint (-1) 0 0) (mkPoint 1 0 0) (mkPoint 0 1 0)).
  - repeat split; reflexivity.
  - repeat split; reflexivity.
  - repeat split; reflexivity.
  - repeat split; reflexivity.
  - repeat split; reflexivity.
  - vm_compute. discriminate.
Defined.
End ExactWitnesses.
(** ** The box, the sphere and the obstacle, exactly *)

Section ExactBoxPoint.
Import Exact ExactShapes.
Local Open Scope Q_scope.

(** A lower bound that passes [tmin >= 0] is a rational that is not
    negative, unless it is the positive infinity. *)
Lemma entry_bound (a : xq) (v : Q) :
  XQOps.leb (XFin 0) a = true -> ele (lowerBound a) (Rat v) ->
  exists q, valued a q /\ lowerBound a = Rat q /\ 0 <= q.
Proof.
  destruct a as [|[]| |p]; simpl; intros H E; try discriminate H; try contradiction.
  - exists 0. repeat split; try reflexivity. lra.
  - exists p. repeat split; try reflexivity.
    unfold XQOps.leb in H. simpl in H. qbool. exact H.
Qed.

(** A lower bound that fails [tmin >= 0] demands less than 0. *)
Lemma inside_bound (a : xq) :
  XQOps.leb (XFin 0) a = false -> ele (lowerBound a) (Rat 0).
Proof.
  destruct a as [|[]| |p]; simpl; intro H; try discriminate H; try exact I.
  unfold XQOps.leb in H. simpl in H. qbool. lra.
Qed.

Lemma upper_valued (b : xq) (v : Q) : upperBound b = Rat v -> valued b v.
Proof.
  destruct b as [|[]| |p]; simpl; intro H; try discriminate H;
    injection H as <-; unfold valued; simpl; reflexivity.
Qed.

(** The parameter that [boxOf] returns, under the assumptions of
    [boxOf_exact]: it meets the three demands, and it is the first such
    parameter from 0 on, or else 0 meets them too (the origin is in the
    box) and it is the last one. *)
Lemma boxOf_point (X Y Z : xq * xq) (C1 C2 C3 : Q -> Prop) (t' : xq) :
  ele (lowerBound (fst X)) (upperBound (snd X)) ->
  ele (lowerBound (fst Y)) (upperBound (snd Y)) ->
  ele (lowerBound (fst Z)) (upperBound (snd Z)) ->
  (forall t, C1 t <-> ele (lowerBound (fst X)) (Rat t) /\ ele (Rat t) (upperBound (snd X))) ->
  (forall t, C2 t <-> ele (lowerBound (fst Y)) (Rat t) /\ ele (Rat t) (upperBound (snd Y))) ->
  (forall t, C3 t <-> ele (lowerBound (fst Z)) (Rat t) /\ ele (Rat t) (upperBound (snd Z))) ->
  (exists u, upperBound (snd X) = Rat u \/ upperBound (snd Y) = Rat u
             \/ upperBound (snd Z) = Rat u) ->
  Spec.boxOf (N:=XQ) X Y Z = Some t' ->
  exists q,
    valued t' q /\ 0 <= q /\ (C1 q /\ C2 q /\ C3 q)
    /\ ((forall t, 0 <= t -> C1 t /\ C2 t /\ C3 t -> q <= t)
        \/ ((C1 0 /\ C2 0 /\ C3 0) /\ forall t, C1 t /\ C2 t /\ C3 t -> t <= q)).
Proof.
  destruct X as [a1 b1], Y as [a2 b2], Z as [a3 b3]. cbn [fst snd].
  intros I1 I2 I3 H1 H2 H3 (u & Hu).
  unfold Spec.boxOf, Spec.disjoint, Spec.fold, Spec.isNaN.
  cbn [fst snd ltb leb eqb Zero XQ].
  match goal with
  | |- context [XQOps.ltb b3 ?x || XQOps.ltb ?y a3] => set (m := x); set (M := y)
  end.
  match goal with
  | |- context [XQOps.ltb ?y (XFin 0)] => set (M' := y)
  end.
  match goal with
  | |- context [XQOps.leb (XFin 0) ?x] => set (m' := x)
  end.
  assert (Fm : forall z, ele (lowerBound m) z
                         <-> ele (lowerBound a1) z /\ ele (lowerBound a2) z)
    by (intro z; exact (@fold_lower a1 a2 z)).
  assert (FM : forall z, ele z (upperBound M)
                         <-> ele z (upperBound b1) /\ ele z (upperBound b2))
    by (intro z; exact (@fold_upper b1 b2 z)).
  assert (Fm' : forall z, ele (lowerBound m') z
                          <-> ele (lowerBound m) z /\ ele (lowerBound a3) z)
    by (intro z; exact (@fold_lower m a3 z)).
  assert (FM' : forall z, ele z (upperBound M')
                          <-> ele z (upperBound M) /\ ele z (upperBound b3))
    by (intro z; exact (@fold_upper M b3 z)).
  clearbody m M m' M'.
  assert (All : forall t, C1 t /\ C2 t /\ C3 t
                          <-> ele (lowerBound m') (Rat t) /\ ele (Rat t) (upperBound M')).
  { intro t. rewrite H1, H2, H3, Fm', Fm, FM', FM. tauto. }
  destruct (XQOps.ltb b2 a1) eqn:T1; [discriminate|].
  destruct (XQOps.ltb b1 a2) eqn:T2; [discriminate|].
  destruct (XQOps.ltb b3 m) eqn:T3; [discriminate|].
  destruct (XQOps.ltb M a3) eqn:T4; [discriminate|].
  destruct (XQOps.ltb M' (XFin 0)) eqn:T5; [discriminate|].
  cbn [orb]. intro Hret. injection Hret as Hret.
  apply gt_bounds in T1, T2, T3, T4. apply behind_bounds in T5.
  assert (U1 : ele (lowerBound m) (upperBound b1)) by (apply Fm; auto).
  assert (U2 : ele (lowerBound m) (upperBound b2)) by (apply Fm; auto).
  assert (MM : ele (lowerBound m) (upperBound M)) by (apply FM; auto).
  assert (U3 : ele (lowerBound m') (upperBound b3)) by (apply Fm'; auto).
  assert (U4 : ele (lowerBound m') (upperBound M)) by (apply Fm'; auto).
  assert (MM' : ele (lowerBound m') (upperBound M')) by (apply FM'; auto).
  destruct (proj1 (FM' (upperBound M')) (ele_refl _)) as (V & V3).
  destruct (proj1 (FM (upperBound M)) (ele_refl _)) as (V1 & V2).
  assert (Vu : ele (upperBound M') (Rat u)).
  { destruct Hu as [E|[E|E]]; rewrite <- E.
    - apply ele_trans with (upperBound M); assumption.
    - apply ele_trans with (upperBound M); assumption.
    - assumption. }
  destruct (upperBound M') as [|v|] eqn:EM'; simpl in T5, Vu; try contradiction.
  destruct (XQOps.leb (XFin 0) m') eqn:E0; subst t'.
  - (* [tmin >= 0]: the entry point *)
    destruct (@entry_bound m' v E0 MM') as (q & Vq & Lq & Hq).
    rewrite Lq in MM', All.
    exists q. split; [exact Vq|]. split; [exact Hq|].
    split; [apply All; split; [apply ele_refl | exact MM']|].
    left. intros t _ K. apply All in K. exact (proj1 K).
  - (* [tmin < 0] (or NaN): the exit point, and the origin is in the box *)
    exists v. split; [apply upper_valued; exact EM'|]. split; [exact T5|].
    split; [apply All; split; [exact MM' | apply ele_refl]|].
    right. split.
    + apply All. split; [apply inside_bound; exact E0 | exact T5].
    + intros t K. apply All in K. exact (proj2 K).
Qed.

(** X13. In exact arithmetic, for a direction that is not the zero vector
    and a box that is not inside out, [Ray.intersectAABB] returns a point
    exactly when the ray meets the box. The point returned is a point of the
    ray in the box: the first one, where the ray enters the box, or else the
    origin is in the box and it is the last one, where the ray leaves it. *)
Theorem intersectAABB_exact (ray : Ray.t (N:=XQ)) (box : AABB.t (N:=XQ))
    (res : loc) (s : Store (N:=XQ)) (o d lo hi : point) :
  located (Ray.origin ray) o -> located (Ray.direction ray) d ->
  located (AABB.min box) lo -> located (AABB.max box) hi ->
  ordered lo hi -> ~ zeroVector d ->
  let out := Ray.intersectAABB ray box res s in
  let inBox t :=
    within (px o) (px d) (px lo) (px hi) t
    /\ within (py o) (py d) (py lo) (py hi) t
    /\ within (pz o) (pz d) (pz lo) (pz hi) t in
  (fst out <> None <-> rayMeetsBox o d lo hi)
  /\ (fst out <> None ->
      exists q : Q,
        0 <= q /\ located (snd out res) (along o d q) /\ inBox q
        /\ ((forall t, 0 <= t -> inBox t -> q <= t)
            \/ (inBox 0 /\ forall t, inBox t -> t <= q))).
Proof.
  intros Ho Hd Hlo Hhi Hbox Hnz out inBox.
  split; [exact (@intersectAABB_meets ray box res s o d lo hi Ho Hd Hlo Hhi Hbox Hnz)|].
  intro Hhit.
  pose proof (intersectAABB_run ray box res s) as R. fold out in R.
  rewrite (runs_null R) in Hhit. destruct R as (_ & P & _).
  destruct (Spec.boxT ray box) as [t'|] eqn:E; [clear Hhit|contradiction].
  rewrite (P t' eq_refl).
  destruct Ho as (Ox & Oy & Oz), Hd as (Dx & Dy & Dz), Hlo as (Lx & Ly & Lz),
    Hhi as (Hx & Hy & Hz), Hbox as (Bx & By & Bz).
  destruct (@slab_axis _ _ _ _ _ _ _ _ Ox Dx Lx Hx Bx) as (X1 & X2 & X3).
  destruct (@slab_axis _ _ _ _ _ _ _ _ Oy Dy Ly Hy By) as (Y1 & Y2 & Y3).
  destruct (@slab_axis _ _ _ _ _ _ _ _ Oz Dz Lz Hz Bz) as (Z1 & Z2 & Z3).
  unfold Spec.boxT in E.
  assert (Hu : exists u,
             upperBound (snd (Spec.slabX ray box)) = Rat u
             \/ upperBound (snd (Spec.slabY ray box)) = Rat u
             \/ upperBound (snd (Spec.slabZ ray box)) = Rat u).
  { destruct (Qeq_dec (px d) 0) as [Ex|Ex];
      [|destruct (X3 Ex) as (u & Eu); exists u; left; exact Eu].
    destruct (Qeq_dec (py d) 0) as [Ey|Ey];
      [|destruct (Y3 Ey) as (u & Eu); exists u; right; left; exact Eu].
    destruct (Qeq_dec (pz d) 0) as [Ez|Ez];
      [|destruct (Z3 Ez) as (u & Eu); exists u; right; right; exact Eu].
    exfalso. apply Hnz. repeat split; assumption. }
  destruct (@boxOf_point _ _ _ _ _ _ t' X1 Y1 Z1 X2 Y2 Z2 Hu E)
    as (q & Vq & Hq & K & W).
  exists q. split; [exact Hq|]. split.
  { unfold Spec.pointAt, located, along. simpl.
    repeat split; (eapply valued_eq; [valuate | ring]). }
  split; [exact K|].
  destruct W as [W|[W0 W]]; [left | right; split; [exact W0|]]; intros; apply W; auto.
Qed.
End ExactBoxPoint.

Section ExactSphere.
Import Exact ExactShapes.
Local Open Scope Q_scope.

Lemma square_nonneg (x : Q) : 0 <= x * x.
Proof.
  destruct (Qlt_le_dec x 0) as [H|H].
  - assert (E : x * x == (- x) * (- x)) by ring. rewrite E.
    apply Qmult_le_0_compat; lra.
  - apply Qmult_le_0_compat; lra.
Qed.

Lemma square_le (x h : Q) : 0 <= h -> (x * x <= h * h <-> - h <= x /\ x <= h).
Proof.
  intro Hh. split.
  - intro H. split; nra.
  - intros [H1 H2]. nra.
Qed.

(** The distance of a point of the ray from the center, for a direction of
    unit length: along the ray from the foot of the center, and across. *)
Lemma distance_along (o d c : point) (t : Q) :
  unitLength d ->
  squaredDistance (along o d t) c
  == (t - dot (minus c o) d) * (t - dot (minus c o) d) + offLine o d c.
Proof.
  destruct o as [ox oy oz], d as [dx dy dz], c as [cx cy cz].
  unfold unitLength, squaredDistance, along, offLine, dot, minus. simpl.
  intro E.
  assert (E' : t * t * (dx * dx + dy * dy + dz * dz) == t * t) by (rewrite E; ring).
  lra.
Qed.

(** X14. In exact arithmetic, for a direction of unit length and a square
    root that is exact at the argument the call passes,
    [Ray.intersectBoundingSphere] returns a point exactly when the ray meets
    the ball. The point returned is on the sphere: it is the first point of
    the ray in the ball, or else the origin is in the ball and it is the
    last one. *)
Theorem intersectBoundingSphere_exact {S : Sqrt XQ} (ray : Ray.t (N:=XQ))
    (sphere : BoundingSphere.t (N:=XQ)) (res : loc) (s : Store (N:=XQ))
    (o d c : point) (r : Q) :
  located (Ray.origin ray) o -> located (Ray.direction ray) d ->
  located (BoundingSphere.center sphere) c ->
  valued (BoundingSphere.radius sphere) r ->
  unitLength d ->
  (offLine o d c <= r * r ->
   exists h, valued (Spec.thc ray sphere) h /\ 0 <= h
             /\ h * h == r * r - offLine o d c) ->
  let out := Ray.intersectBoundingSphere ray sphere res s in
  (fst out <> None <-> rayMeetsBall o d c r)
  /\ (fst out <> None ->
      exists q : Q,
        0 <= q /\ located (snd out res) (along o d q)
        /\ squaredDistance (along o d q) c == r * r
        /\ ((forall t, 0 <= t -> inBall c r (along o d t) -> q <= t)
            \/ (inBall c r o /\ forall t, inBall c r (along o d t) -> t <= q))).
Proof.
  intros Ho Hd Hc Hr Hunit Hroot out.
  pose proof (intersectBoundingSphere_run ray sphere res s) as R. fold out in R.
  assert (V0 : valued (XFin 0) 0) by (unfold valued; simpl; reflexivity).
  set (tca := dot (minus c o) d).
  assert (Vtca : valued (Spec.tca ray sphere) tca).
  { destruct Ho as (Ox & Oy & Oz), Hd as (Dx & Dy & Dz), Hc as (Cx & Cy & Cz).
    unfold Spec.tca, Spec.vdot, Spec.vsub. simpl.
    eapply valued_eq; [valuate|]. unfold tca, dot, minus. simpl. ring. }
  assert (Vd2 : valued (Spec.d2 ray sphere) (offLine o d c)).
  { destruct Ho as (Ox & Oy & Oz), Hd as (Dx & Dy & Dz), Hc as (Cx & Cy & Cz).
    unfold Spec.d2, Spec.tca, Spec.vdot, Spec.vsub. simpl.
    eapply valued_eq; [valuate|]. unfold tca, offLine, dot, minus. simpl. ring. }
  assert (Vr2 : valued (Spec.radius2 sphere) (r * r))
    by (unfold Spec.radius2; apply mul_valued; exact Hr).
  pose proof (fun t => @distance_along o d c t Hunit) as K. fold tca in K.
  assert (Ko : squaredDistance o c == (0 - tca) * (0 - tca) + offLine o d c).
  { rewrite <- K. destruct o, d, c. unfold squaredDistance, along. simpl.
    ring. }
  assert (H : match Spec.sphereT ray sphere with
              | Some t' =>
                exists q : Q,
                  valued t' q /\ 0 <= q
                  /\ squaredDistance (along o d q) c == r * r
                  /\ ((forall t, 0 <= t -> inBall c r (along o d t) -> q <= t)
                      \/ (inBall c r o
                          /\ forall t, inBall c r (along o d t) -> t <= q))
              | None => ~ rayMeetsBall o d c r
              end).
  { unfold Spec.sphereT, inBall, rayMeetsBall. cbn [ltb Zero XQ].
    destruct (XQOps.ltb (Spec.radius2 sphere) (Spec.d2 ray sphere)) eqn:Eout.
    { apply (@ltb_valued _ _ _ _ Vr2 Vd2) in Eout.
      intros (t & _ & C). unfold inBall in C. rewrite K in C.
      pose proof (square_nonneg (t - tca)). lra. }
    apply (@ltb_valued_false _ _ _ _ Vr2 Vd2) in Eout.
    destruct (Hroot Eout) as (h & Vh & Hh & Eh).
    assert (V0' : valued (Spec.t0 ray sphere) (tca - h))
      by (unfold Spec.t0; apply sub_valued; assumption).
    assert (V1' : valued (Spec.t1 ray sphere) (tca + h))
      by (unfold Spec.t1; apply add_valued; assumption).
    assert (In : forall t, squaredDistance (along o d t) c <= r * r
                           <-> tca - h <= t /\ t <= tca + h).
    { intro t. rewrite K.
      pose proof (@square_le (t - tca) h Hh) as Q. split; intro C.
      - assert (C' : (t - tca) * (t - tca) <= h * h) by lra.
        apply Q in C'. lra.
      - assert (C' : (t - tca) * (t - tca) <= h * h) by (apply Q; lra). lra. }
    assert (On : forall q, (q == tca - h \/ q == tca + h) ->
                           squaredDistance (along o d q) c == r * r).
    { intros q [E|E]; rewrite K, E.
      - assert (P : (tca - h - tca) * (tca - h - tca) == h * h) by ring. lra.
      - assert (P : (tca + h - tca) * (tca + h - tca) == h * h) by ring. lra. }
    destruct (XQOps.ltb (Spec.t0 ray sphere) (XFin 0)) eqn:E0.
    - apply (@ltb_valued _ _ _ _ V0' V0) in E0.
      destruct (XQOps.ltb (Spec.t1 ray sphere) (XFin 0)) eqn:E1; cbn [andb].
      + apply (@ltb_valued _ _ _ _ V1' V0) in E1.
        intros (t & Ht & C). apply In in C. lra.
      + apply (@ltb_valued_false _ _ _ _ V1' V0) in E1.
        exists (tca + h). split; [exact V1'|]. split; [exact E1|].
        split; [apply On; right; reflexivity|].
        right. split.
        * rewrite Ko.
          assert (C : squaredDistance (along o d 0) c <= r * r) by (apply In; lra).
          rewrite K in C. exact C.
        * intros t C. apply In in C. lra.
    - apply (@ltb_valued_false _ _ _ _ V0' V0) in E0. cbn [andb].
      exists (tca - h). split; [exact V0'|]. split; [exact E0|].
      split; [apply On; left; reflexivity|].
      left. intros t _ C. apply In in C. lra. }
  rewrite (runs_null R). destruct R as (_ & P & _).
  destruct (Spec.sphereT ray sphere) as [t'|].
  - destruct H as (q & Vq & Hq & Eq & W).
    split.
    { split; [intros _ | discriminate]. exists q. split; [exact Hq|].
      unfold inBall. rewrite Eq. lra. }
    intros _. exists q. split; [exact Hq|]. split; [|split; assumption].
    rewrite (P t' eq_refl).
    destruct Ho as (Ox & Oy & Oz), Hd as (Dx & Dy & Dz).
    unfold Spec.pointAt, located, along. simpl.
    repeat split; (eapply valued_eq; [valuate | ring]).
  - split; [split; [intro C; exfalso; apply C; reflexivity | intro C; contradiction]|].
    intro C. exfalso. apply C. reflexivity.
Qed.
End ExactSphere.

Section FirstHit.
Context {N : Number}.
Import ObstacleSpec.

(** The scan finds a hit exactly when some triangle of the list is hit. *)
Lemma firstHit_Exists (ray : Ray.t) (cull : bool) (ts : list Triangle.t) :
  firstHit ray cull ts <> None
  <-> Exists (fun tri => Spec.triangleT ray tri cull <> None) ts.
Proof.
  induction ts as [|tri ts IH]; simpl.
  - split; [intro H; exfalso; apply H; reflexivity | intro H; inversion H].
  - destruct (Spec.triangleT ray tri cull) eqn:E.
    + split; [intros _; left; rewrite E; discriminate | discriminate].
    + rewrite IH. split; [intro H; right; exact H|].
      intro H. inversion H as [? ? C|]; [rewrite E in C; contradiction | assumption].
Qed.
End FirstHit.

Section ExactObstacle.
Context {T : Matrix4Ops XQ}.
Import Exact ExactShapes ObstacleSpec.
Local Open Scope Q_scope.

(** A point of a triangle is in every box that holds its vertices. *)
Lemma triangle_convex (lo hi x y z u v : Q) :
  lo <= x <= hi -> lo <= y <= hi -> lo <= z <= hi ->
  0 <= u -> 0 <= v -> u + v <= 1 ->
  lo <= x + u * (y - x) + v * (z - x) <= hi.
Proof.
  intros Hx Hy Hz Hu Hv Huv.
  assert (E : x + u * (y - x) + v * (z - x) == (1 - u - v) * x + u * y + v * z)
    by ring.
  rewrite E.
  assert (L1 : (1 - u - v) * lo <= (1 - u - v) * x)
    by (rewrite !(Qmult_comm (1 - u - v)); apply Qmult_le_compat_r; lra).
  assert (L2 : u * lo <= u * y)
    by (rewrite !(Qmult_comm u); apply Qmult_le_compat_r; lra).
  assert (L3 : v * lo <= v * z)
    by (rewrite !(Qmult_comm v); apply Qmult_le_compat_r; lra).
  assert (U1 : (1 - u - v) * x <= (1 - u - v) * hi)
    by (rewrite !(Qmult_comm (1 - u - v)); apply Qmult_le_compat_r; lra).
  assert (U2 : u * y <= u * hi)
    by (rewrite !(Qmult_comm u); apply Qmult_le_compat_r; lra).
  assert (U3 : v * z <= v * hi)
    by (rewrite !(Qmult_comm v); apply Qmult_le_compat_r; lra).
  lra.
Qed.

(** A ray that meets a triangle meets every box that holds the vertices of
    the triangle, and its direction is not the zero vector. *)
Lemma triangle_in_box (o d a b c lo hi : point) (cull : bool) :
  inBox lo hi a -> inBox lo hi b -> inBox lo hi c ->
  rayMeetsTriangle o d a b c cull ->
  rayMeetsBox o d lo hi /\ ordered lo hi /\ ~ zeroVector d.
Proof.
  intros (Ax & Ay & Az) (Bx & By & Bz) (Cx & Cy & Cz)
    (t & u & v & Ht & Hu & Hv & Huv & (Px & Py & Pz) & Hf & _).
  simpl in Px, Py, Pz.
  split; [|split].
  - exists t. split; [exact Ht|]. unfold within. rewrite Px, Py, Pz.
    split; [|split]; apply triangle_convex; assumption.
  - unfold ordered. lra.
  - intros (Zx & Zy & Zz). apply Hf.
    unfold facing, dot. rewrite Zx, Zy, Zz. ring.
Qed.

(** X15. In exact arithmetic, when the world-space box holds the vertices of
    every world-space triangle of the mesh, the broad phase hides no hit:
    [Obstacle.intersectRay] returns a point exactly when the ray hits some
    triangle of the mesh. *)
Theorem intersectRay_exact (this : Obstacle.t) (ray : Ray.t (N:=XQ))
    (s : Store (N:=XQ)) (o d lo hi : point) :
  located (Ray.origin ray) o -> located (Ray.direction ray) d ->
  located (AABB.min (worldBox this)) lo -> located (AABB.max (worldBox this)) hi ->
  Forall (bounded lo hi) (worldTriangles this) ->
  let cull := MeshGeometry.backfaceCulling (Obstacle.geometry this) in
  fst (Obstacle.intersectRay this ray result s) <> None
  <-> Exists (fun tri => fst (Ray.intersectTriangle ray tri cull result s) <> None)
             (worldTriangles this).
Proof.
  intros Ho Hd Hlo Hhi Hall cull.
  rewrite (runs_null (intersectRay_run this ray result s)).
  assert (E : forall tri,
            fst (Ray.intersectTriangle ray tri cull result s) <> None
            <-> Spec.triangleT ray tri cull <> None)
    by (intro tri; rewrite (runs_null (intersectTriangle_run ray tri cull result s));
        tauto).
  unfold obstacleT. fold cull. split.
  - intro H. destruct (Spec.boxT ray (worldBox this)); [|contradiction].
    apply firstHit_Exists, Exists_exists in H. destruct H as (tri & Hin & Htri).
    apply Exists_exists. exists tri. split; [exact Hin | apply E; exact Htri].
  - intro H. apply Exists_exists in H. destruct H as (tri & Hin & Htri).
    apply E in Htri.
    assert (F : firstHit ray cull (worldTriangles this) <> None)
      by (apply firstHit_Exists, Exists_exists; exists tri; split; assumption).
    destruct (Spec.boxT ray (worldBox this)) eqn:B; [exact F|]. exfalso.
    rewrite Forall_forall in Hall.
    destruct (Hall tri Hin) as (a & b & c & Ha & Hb & Hc & Ia & Ib & Ic).
    pose proof (@triangleT_exact ray tri cull o d a b c Ho Hd Ha Hb Hc) as Hm.
    destruct (Spec.triangleT ray tri cull); [|contradiction].
    destruct Hm as (Hm & _).
    destruct (@triangle_in_box o d a b c lo hi cull Ia Ib Ic Hm) as (M & Hord & Hnz).
    apply (@intersectAABB_meets ray (worldBox this) intersectionPointAABB s
             o d lo hi Ho Hd Hlo Hhi Hord Hnz) in M.
    apply M. apply (runs_null (intersectAABB_run ray (worldBox this)
                                 intersectionPointAABB s)). exact B.
Qed.
End ExactObstacle.

Section MoreExactWitnesses.
Import Exact ExactShapes.
Local Open Scope Q_scope.

(** The ray of section 8 enters the unit box at t = 4. *)
Lemma intersectAABB_exact_witness :
  exists q : Q,
    0 <= q
    /\ located (snd (Ray.intersectAABB Sample.ray Sample.unitBox result
                       Example.zeroStore) result)
               (along (mkPoint 0 (3 # 10) (-5)) (mkPoint 0 0 1) q).
Proof.
  destruct (@intersectAABB_exact Sample.ray Sample.unitBox result Example.zeroStore
              (mkPoint 0 (3 # 10) (-5)) (mkPoint 0 0 1)
              (mkPoint (-1) (-1) (-1)) (mkPoint 1 1 1)) as (_ & H).
  - repeat split; reflexivity.
  - repeat split; reflexivity.
  - repeat split; reflexivity.
  - repeat split; reflexivity.
  - repeat split; discriminate.
  - intros (_ & _ & C). discriminate C.
  - destruct H as (q & Hq & L & _); [vm_compute; discriminate|].
    exists q. split; [exact Hq | exact L].
Defined.

(** From (0, 0, -5) along +z the unit sphere is met: the distance of its
    center from the line is 0 and the root of 1 - 0 is exact. *)
Lemma intersectBoundingSphere_exact_witness :
  rayMeetsBall (mkPoint 0 0 (-5)) (mkPoint 0 0 1) (mkPoint 0 0 0) 1.
Proof.
  apply (@intersectBoundingSphere_exact Sample.root
           (Ray.mk (Example.qvec 0 0 (-5)) (Example.qvec 0 0 1)) Sample.unitSphere
           result Example.zeroStore
           (mkPoint 0 0 (-5)) (mkPoint 0 0 1) (mkPoint 0 0 0) 1).
  - repeat split; reflexivity.
  - repeat split; reflexivity.
  - repeat split; reflexivity.
  - reflexivity.
  - reflexivity.
  - intros _. exists 1. split; [reflexivity|]. split; [discriminate | reflexivity].
  - vm_compute. discriminate.
Defined.

(** The mesh [Sample.mesh] holds the triangle of section 8 and the box of
    its vertices: the query returns a point. *)
Lemma intersectRay_exact_witness :
  fst (Obstacle.intersectRay (T:=Sample.Shift)
         (Obstacle.mk (T:=Sample.Shift) Sample.mesh (Example.qvec 0 0 0))
         Sample.ray result Example.zeroStore) <> None.
Proof.
  apply (@intersectRay_exact Sample.Shift
           (Obstacle.mk (T:=Sample.Shift) Sample.mesh (Example.qvec 0 0 0))
           Sample.ray Example.zeroStore
           (mkPoint 0 (3 # 10) (-5)) (mkPoint 0 0 1)
           (mkPoint (-1) 0 0) (mkPoint 1 1 0)).
  - repeat split; reflexivity.
  - repeat split; reflexivity.
  - repeat split; reflexivity.
  - repeat split; reflexivity.
  - constructor; [|constructor].
    exists (mkPoint (-1) 0 0), (mkPoint 1 0 0), (mkPoint 0 1 0).
    repeat split; try reflexivity; discriminate.
  - constructor. vm_compute. discriminate.
Defined.
End MoreExactWitnesses.
(** ** Ray objects: sharing and copying *)

Section RayObjects.
Context {N : Number}.
Import RayObject.
Local Open Scope num_scope.

(** X16. [at] and the vectors of the ray itself. With a [result] that is
    neither vector of the ray, [at] leaves the point [direction * t +
    origin] there, as the method on values does, and changes nothing else.
    With the direction of the ray as [result] the point is there too, and
    the ray has lost its direction. With the origin of the ray as [result]
    the vector holds [direction * t + direction * t], not the point. *)
Theorem at_aliasing (this : ref) (t : num) (res : ref) (h : heap) :
  let o := RayObject.origin (ray h this) in
  let d := RayObject.direction (ray h this) in
  let out := at_ this t res h in
  let scaled := Vector3.multiplyScalar (vector h d) t in
  fst out = res
  /\ (forall v, v <> res -> vector (snd out) v = vector h v)
  /\ ray (snd out) = ray h
  /\ (res <> o ->
        vector (snd out) res = Spec.pointAt (value h this) t
        /\ vector (snd out) res
           = snd (Ray.at_ (value h this) t result (fun _ => vector h res))
                 result)
  /\ (res = o -> vector (snd out) res = Vector3.add scaled scaled).
Proof.
  intros o d out scaled. subst out. unfold at_, callVector, setVector. simpl.
  fold o d. rewrite !Nat.eqb_refl.
  split; [reflexivity|]. split.
  { intros v Hv. destruct (Nat.eqb res v) eqn:E; [|reflexivity].
    apply Nat.eqb_eq in E. congruence. }
  split; [reflexivity|]. split.
  - intro Ho. destruct (Nat.eqb res o) eqn:E;
      [apply Nat.eqb_eq in E; contradiction|].
    split; reflexivity.
  - intro Ho. rewrite Ho, Nat.eqb_refl. reflexivity.
Qed.

Lemma ref_eqb_neq (a b : nat) : a <> b -> Nat.eqb a b = false.
Proof. intro H. apply Nat.eqb_neq. exact H. Qed.

(** Deciding which object a reference reads. *)
Ltac refs :=
  repeat match goal with
         | |- context [Nat.eqb ?a ?a] => rewrite (Nat.eqb_refl a)
         | |- context [Nat.eqb ?a ?b] =>
           rewrite (@ref_eqb_neq a b) by first [lia | congruence]
         end.

Ltac heap_run :=
  cbn [fst snd vector ray vectorCount rayCount origin direction
       Ray.origin Ray.direction].

(** X17. [clone] makes a new Ray object with two new vectors that hold the
    coordinates of the vectors of [this]; no object that was there before is
    changed, and none of them is shared with the clone. *)
Theorem clone_fresh (this : ref) (h : heap) :
  allocated h this ->
  let r := fst (clone this h) in
  let h' := snd (clone this h) in
  r = rayCount h
  /\ origin (ray h' r) = vectorCount h
  /\ direction (ray h' r) = S (vectorCount h)
  /\ value h' r = value h this
  /\ (forall v, v < vectorCount h -> vector h' v = vector h v)
  /\ (forall r', r' < rayCount h -> ray h' r' = ray h r')
  /\ vectorCount h' = S (S (vectorCount h))
  /\ rayCount h' = S (rayCount h).
Proof.
  intros (Hr & Ho & Hd) r h'. subst r h'.
  unfold clone, constructor, newVector3, copy, callVector, setVector, value.
  heap_run. refs. heap_run. refs. rewrite !Vector3_copy_eta.
  repeat split.
  - intros v Hv. refs. reflexivity.
  - intros r' Hr'. refs. reflexivity.
Qed.

(** X18. [copy] and shared vectors. [copy] writes the two vectors of [this]
    and nothing else. When the origin of [this] is neither the direction of
    [this] nor the direction of the ray copied, [this] stands for the ray
    copied afterwards. When the origin of [this] is the direction of the ray
    copied, that direction is overwritten first and [this] ends with the
    origin of the ray copied as its direction. *)
Theorem copy_aliasing (this r : ref) (h : heap) :
  let a := origin (ray h this) in
  let b := direction (ray h this) in
  let c := origin (ray h r) in
  let e := direction (ray h r) in
  let h' := snd (copy this r h) in
  fst (copy this r h) = this
  /\ ray h' = ray h
  /\ (forall v, v <> a -> v <> b -> vector h' v = vector h v)
  /\ (a <> b -> a <> e -> value h' this = value h r)
  /\ (a = e -> vector h' b = vector h c)
  /\ (a = b -> a <> e -> vector h' a = vector h e).
Proof.
  intros a b c e h'. subst h'.
  unfold copy, callVector, setVector, value. simpl. fold a b c e.
  rewrite !Vector3_copy_eta, !Nat.eqb_refl.
  split; [reflexivity|]. split; [reflexivity|]. split.
  { intros v Ha Hb. rewrite (@ref_eqb_neq b v), (@ref_eqb_neq a v) by congruence.
    reflexivity. }
  split.
  { intros Hab Hae. rewrite (@ref_eqb_neq b a), (@ref_eqb_neq a e) by congruence.
    reflexivity. }
  split.
  - intro Hae. rewrite Hae, Nat.eqb_refl. reflexivity.
  - intros Hab Hae. rewrite <- Hab, Nat.eqb_refl, (@ref_eqb_neq a e) by congruence.
    reflexivity.
Qed.

(** X19. [set] copies nothing: the ray refers to the vectors passed, and two
    rays that were given the same vector share it. So copying into one of
    them moves the origin of the other as well. *)
Theorem set_shares (this other r : ref) (o d d' : ref) (h : heap) :
  this <> other -> o <> d ->
  let h1 := snd (set this o d h) in
  let h2 := snd (set other o d' h1) in
  let h3 := snd (copy this r h2) in
  vector h2 = vector h
  /\ ray h2 this = mkFields o d
  /\ ray h2 other = mkFields o d'
  /\ (o <> direction (ray h2 r) ->
      Ray.origin (value h3 other) = Ray.origin (value h2 r)).
Proof.
  intros Hne Hod h1 h2 h3. subst h1 h2 h3.
  unfold set, setRay, copy, callVector, setVector, value. simpl.
  rewrite !Nat.eqb_refl, (@ref_eqb_neq other this) by congruence. simpl.
  rewrite !Vector3_copy_eta.
  split; [reflexivity|]. split; [reflexivity|]. split; [reflexivity|].
  intro Hoe. rewrite (@ref_eqb_neq d o) by congruence.
  rewrite Nat.eqb_refl. reflexivity.
Qed.

(** X20. [equals] compares coordinates with [===], so a ray with a
    coordinate that is NaN equals neither itself nor its clone; every other
    ray equals both. *)
Theorem equals_clone (this : ref) (h : heap) :
  allocated h this ->
  equals this this h = numeric (value h this)
  /\ equals (fst (clone this h)) this (snd (clone this h)) = numeric (value h this)
  /\ equals this (fst (clone this h)) (snd (clone this h)) = numeric (value h this).
Proof.
  intros (Hr & Ho & Hd).
  unfold equals, clone, constructor, newVector3, copy, callVector, setVector,
    value, numeric, Vector3_equals.
  heap_run. refs. heap_run. refs. rewrite !Vector3_copy_eta.
  cbn [Vector3.x Vector3.y Vector3.z]. rewrite !andb_assoc.
  repeat split; reflexivity.
Qed.
End RayObjects.

(** The clone of the ray of [Sample.heap] is the Ray object 1 with the
    vectors 3 and 4, and the vector 2 is as before. *)
Lemma clone_fresh_witness :
  let out := RayObject.clone 0 Sample.heap in
  fst out = 1
  /\ RayObject.ray (snd out) 1 = RayObject.mkFields 3 4
  /\ RayObject.vector (snd out) 3 = Example.vec 1 2 3
  /\ RayObject.vector (snd out) 4 = Example.vec 0 0 1
  /\ RayObject.vector (snd out) 2 = Example.vec 7 8 9.
Proof.
  destruct (@clone_fresh F64 0 Sample.heap) as (A & _ & _ & _ & B & _).
  - repeat split; simpl; lia.
  - split; [exact A|]. split; [reflexivity|]. split; [reflexivity|].
    split; [reflexivity|]. apply (B 2). simpl. lia.
Defined.

(** Two rays set to the vector 2 as their origin: copying the ray 0 into
    the first moves the origin of the second to (1, 2, 3). *)
Lemma set_shares_witness :
  let h1 := snd (RayObject.set 5 2 3 Sample.heap) in
  let h2 := snd (RayObject.set 6 2 4 h1) in
  let h3 := snd (RayObject.copy 5 0 h2) in
  Ray.origin (RayObject.value h2 6) = Example.vec 7 8 9
  /\ Ray.origin (RayObject.value h3 6) = Example.vec 1 2 3.
Proof.
  split; [reflexivity|].
  destruct (@set_shares F64 5 6 0 2 3 4 Sample.heap) as (_ & _ & _ & H).
  - discriminate.
  - discriminate.
  - rewrite H; [reflexivity | discriminate].
Defined.

(** The ray of [Sample.heap] equals its clone; with NaN in its origin it
    does not equal itself. *)
Lemma equals_clone_witness :
  RayObject.equals (fst (RayObject.clone 0 Sample.heap)) 0
    (snd (RayObject.clone 0 Sample.heap)) = true
  /\ RayObject.equals 0 0
       (RayObject.setVector 0 (Example.vec PrimFloat.nan 2 3) Sample.heap) = false.
Proof.
  split.
  - destruct (@equals_clone F64 0 Sample.heap) as (_ & H & _).
    + repeat split; simpl; lia.
    + rewrite H. reflexivity.
  - destruct (@equals_clone F64 0
                (RayObject.setVector 0 (Example.vec PrimFloat.nan 2 3) Sample.heap))
      as (H & _).
    + repeat split; simpl; lia.
    + rewrite H. reflexivity.
Defined.
(** ** The handlers of the player *)

Section PlayerFacts.
Context {Q : QuaternionOps}.
Import Player.
Local Open Scope float_scope.

Lemma SFcompare_total (x y : spec_float) :
  x <> S754_nan -> y <> S754_nan -> SFcompare x y <> None.
Proof.
  destruct x as [s|s| |s m e], y as [s'|s'| |s' m' e']; simpl; intros Hx Hy;
    try discriminate; try (exfalso; auto; fail);
    try (destruct s; discriminate); try (destruct s'; discriminate);
    try (destruct s, s'; discriminate).
Qed.

Lemma is_nan_spec (a : float) : PrimFloat.is_nan a = true <-> Prim2SF a = S754_nan.
Proof. exact (F64_isNaN a). Qed.

(** Of two numbers that are not NaN, one is below the other or they are
    equal. *)
Lemma not_ltb_leb (x y : float) :
  PrimFloat.is_nan x = false -> PrimFloat.is_nan y = false ->
  (x <? y) = false -> (y <=? x) = true.
Proof.
  intros Hx Hy.
  assert (Nx : Prim2SF x <> S754_nan)
    by (intro E; apply is_nan_spec in E; congruence).
  assert (Ny : Prim2SF y <> S754_nan)
    by (intro E; apply is_nan_spec in E; congruence).
  pose proof (SFcompare_total Nx Ny) as C.
  rewrite ltb_spec, leb_spec. unfold SFltb, SFleb.
  rewrite (SFcompare_swap (Prim2SF x) (Prim2SF y)).
  destruct (SFcompare (Prim2SF x) (Prim2SF y)) as [[]|]; simpl; congruence.
Qed.

Lemma ltb_leb (x y : float) : (x <? y) = true -> (x <=? y) = true.
Proof.
  rewrite ltb_spec, leb_spec. unfold SFltb, SFleb.
  destruct (SFcompare (Prim2SF x) (Prim2SF y)) as [[]|]; simpl; congruence.
Qed.

(** What the clamp of [onMouseMove] returns: NaN for NaN, else a number
    between the two bounds, and the number itself when that is between
    them. *)
Lemma clamp_range (y : float) :
  let r := JSMath.max (- PI05) (JSMath.min PI05 y) in
  (PrimFloat.is_nan y = true /\ PrimFloat.is_nan r = true)
  \/ (PrimFloat.is_nan y = false
      /\ (- PI05 <=? r) = true /\ (r <=? PI05) = true
      /\ ((- PI05 <=? y) = true -> (y <=? PI05) = true -> r = y)).
Proof.
  intro r. subst r. unfold JSMath.min.
  assert (Np : PrimFloat.is_nan PI05 = false) by reflexivity.
  assert (Nm : PrimFloat.is_nan (- PI05) = false) by reflexivity.
  rewrite Np. cbn [orb].
  destruct (PrimFloat.is_nan y) eqn:Ny; [left; split; reflexivity|]. right.
  split; [reflexivity|].
  change (PrimFloat.get_sign PI05) with false.
  destruct (PI05 <? y) eqn:Above.
  - (* above the upper bound *)
    change (JSMath.max (- PI05) PI05) with PI05.
    split; [reflexivity|]. split; [reflexivity|].
    intros _ U. apply (ltb_not_geb (N:=F64)) in Above.
    change ((y <=? PI05) = false) in Above. congruence.
  - assert (U : (y <=? PI05) = true) by (apply not_ltb_leb; assumption).
    assert (M : (if y <? PI05 then y else y) = y) by (destruct (y <? PI05); reflexivity).
    rewrite M. unfold JSMath.max. rewrite Nm, Ny. cbn [orb].
    change (PrimFloat.get_sign (- PI05)) with true.
    destruct (- PI05 <? y) eqn:Inside.
    + split; [apply ltb_leb; exact Inside|]. split; [exact U | reflexivity].
    + assert (L : (y <=? - PI05) = true) by (apply not_ltb_leb; assumption).
      destruct (y <? - PI05) eqn:Below.
      * (* below the lower bound *)
        split; [reflexivity|]. split; [reflexivity|].
        intros L' _. apply (ltb_not_geb (N:=F64)) in Below.
        change ((- PI05 <=? y) = false) in Below. congruence.
      * split; [apply not_ltb_leb; assumption|]. split; [exact U | reflexivity].
Qed.

(** X21. The pitch stays clamped: after any mouse event the angle
    [movementY] is between [-PI / 2] and [PI / 2], or it is NaN; the pitch
    quaternion is made from that angle. An angle that moves inside the range
    is kept as it is. NaN stays: once the angle is NaN (an event without a
    number in [movementY] makes it so), every later event leaves it NaN. *)
Theorem pitch_clamped (this : t) (event : MouseEvent) :
  let after := onMouseMove this event in
  let moved := movementY this
               - event_movementY event * 0x1.0624dd2f1a9fcp-10 * lookSpeed this in
  (PrimFloat.is_nan (movementY after) = true
   \/ ((- PI05 <=? movementY after) = true /\ (movementY after <=? PI05) = true))
  /\ pitch after = fromEuler (pitch this) (movementY after) 0 0
  /\ ((- PI05 <=? moved) = true -> (moved <=? PI05) = true ->
      movementY after = moved)
  /\ (PrimFloat.is_nan (movementY this) = true ->
      PrimFloat.is_nan (movementY after) = true).
Proof.
  intros after moved. subst after. unfold onMouseMove. cbn [movementY pitch].
  fold moved.
  destruct (clamp_range moved) as [(Hn & Hr)|(Hn & Hl & Hu & Hi)].
  - split; [left; exact Hr|]. split; [reflexivity|]. split.
    + intros L _. exfalso. apply is_nan_spec in Hn. revert L.
      rewrite leb_spec, Hn. unfold SFleb.
      destruct (Prim2SF (- PI05)); simpl; discriminate.
    + intros _. exact Hr.
  - split; [right; split; assumption|]. split; [reflexivity|].
    split; [exact Hi|].
    intro Hy. exfalso.
    assert (E : PrimFloat.is_nan moved = true).
    { apply (sub_nan (N:=F64)). left. exact Hy. }
    congruence.
Qed.

(** X22. The keys. [onKeyDown] reads the event it is called with;
    [onKeyUp] reads the global [event] of the host.  A key code other than
    the eight of the arrows and of W, A, S, D changes nothing.  Pressing a
    key twice is pressing it once.  Where the host binds the global [event]
    to the event being dispatched, releasing a key returns and clears its
    flag whatever happened before: of the two keys of a direction that are
    both held, the release of one stops the movement.  Where the host leaves
    the global [event] undeclared or undefined, [onKeyUp] throws and changes
    nothing, so the flag of a key that was pressed stays set. *)
Theorem key_handlers (this : t) (keyCode : Z) :
  (existsb (Z.eqb keyCode) [38; 87; 37; 65; 40; 83; 39; 68]%Z = false ->
     onKeyDown this keyCode = this
     /\ onKeyUp this (Dispatched keyCode) = Returns this)
  /\ onKeyDown (onKeyDown this keyCode) keyCode = onKeyDown this keyCode
  /\ onKeyUp (onKeyDown this keyCode) (Dispatched keyCode)
     = onKeyUp this (Dispatched keyCode)
  /\ (exists released, onKeyUp this (Dispatched keyCode) = Returns released)
  /\ (forward (input (after (onKeyUp (onKeyDown (onKeyDown this 87) 38) (Dispatched 38)))) = false
      /\ left (input (after (onKeyUp (onKeyDown (onKeyDown this 65) 37) (Dispatched 37)))) = false
      /\ backward (input (after (onKeyUp (onKeyDown (onKeyDown this 83) 40) (Dispatched 40)))) = false
      /\ right (input (after (onKeyUp (onKeyDown (onKeyDown this 68) 39) (Dispatched 39)))) = false)
  /\ (onKeyUp (onKeyDown this keyCode) Undeclared
        = Throws ReferenceError (onKeyDown this keyCode)
      /\ onKeyUp (onKeyDown this keyCode) Undefined
         = Throws TypeError (onKeyDown this keyCode))
  /\ (forward (input (after (onKeyUp (onKeyDown this 87) Undeclared))) = true
      /\ forward (input (after (onKeyUp (onKeyDown this 87) Undefined))) = true).
Proof.
  destruct this as [mx my y p r hr [f b rt l] ls].
  unfold onKeyDown, onKeyUp, after, setInput, assignKey. cbn [existsb input
    movementX movementY yaw pitch rotation headRotation lookSpeed
    forward backward right left].
  split; [|split; [|split; [|split; [|split; [|split]]]]].
  - rewrite !orb_false_r.
    destruct (keyCode =? 38)%Z, (keyCode =? 87)%Z, (keyCode =? 37)%Z,
      (keyCode =? 65)%Z, (keyCode =? 40)%Z, (keyCode =? 83)%Z, (keyCode =? 39)%Z,
      (keyCode =? 68)%Z; cbn [orb]; intro H; try discriminate H; split; reflexivity.
  - destruct ((keyCode =? 38)%Z || (keyCode =? 87)%Z); [reflexivity|].
    destruct ((keyCode =? 37)%Z || (keyCode =? 65)%Z); [reflexivity|].
    destruct ((keyCode =? 40)%Z || (keyCode =? 83)%Z); [reflexivity|].
    destruct ((keyCode =? 39)%Z || (keyCode =? 68)%Z); reflexivity.
  - destruct ((keyCode =? 38)%Z || (keyCode =? 87)%Z); [reflexivity|].
    destruct ((keyCode =? 37)%Z || (keyCode =? 65)%Z); [reflexivity|].
    destruct ((keyCode =? 40)%Z || (keyCode =? 83)%Z); [reflexivity|].
    destruct ((keyCode =? 39)%Z || (keyCode =? 68)%Z); reflexivity.
  - eexists. reflexivity.
  - repeat split; reflexivity.
  - split; reflexivity.
  - split; reflexivity.
Qed.
End PlayerFacts.
(** ** The slab test and NaN bounds *)

Section OrderFacts.
Context {N : Number} {O : OrderLaws N}.
Import Slabs.

Lemma notAbove_nan_l (a b : num) : Spec.isNaN a = true -> notAbove a b = true.
Proof. intro H. unfold notAbove. rewrite H. reflexivity. Qed.

Lemma notAbove_nan_r (a b : num) : Spec.isNaN b = true -> notAbove a b = true.
Proof. intro H. unfold notAbove. rewrite H, orb_true_r. reflexivity. Qed.

Lemma notAbove_leb (a b : num) : leb a b = true -> notAbove a b = true.
Proof. intro H. unfold notAbove. rewrite H, orb_true_r. reflexivity. Qed.

Lemma notAbove_cases (a b : num) :
  notAbove a b = true ->
  Spec.isNaN a = true \/ Spec.isNaN b = true \/ leb a b = true.
Proof.
  unfold notAbove. intro H.
  destruct (Spec.isNaN a); [left; reflexivity|].
  destruct (Spec.isNaN b); [right; left; reflexivity|].
  right; right. exact H.
Qed.

Lemma notAbove_refl (z : num) : notAbove z z = true.
Proof.
  destruct (Spec.isNaN z) eqn:E; [apply notAbove_nan_l; exact E|].
  apply notAbove_leb. destruct (order_total z z E E); assumption.
Qed.

(** The interval test [a > d] fails exactly when [a] is not above [d]. *)
Lemma notAbove_gt (a d : num) : ltb d a = false <-> notAbove a d = true.
Proof.
  split.
  - intro H.
    destruct (Spec.isNaN a) eqn:Ea; [apply notAbove_nan_l; exact Ea|].
    destruct (Spec.isNaN d) eqn:Ed; [apply notAbove_nan_r; exact Ed|].
    apply notAbove_leb.
    destruct (leb a d) eqn:L; [reflexivity|].
    destruct (order_total a d Ea Ed) as [C|C]; [congruence|].
    assert (ltb d a = true) by (apply order_lt; split; assumption).
    congruence.
  - intro H. destruct (ltb d a) eqn:L; [|reflexivity].
    apply order_lt in L. destruct L as (L1 & L2).
    destruct (order_number _ _ L1) as (Nd & Na).
    apply notAbove_cases in H. destruct H as [H|[H|H]]; congruence.
Qed.

Lemma notAbove_trans (a z b : num) :
  Spec.isNaN z = false ->
  notAbove a z = true -> notAbove z b = true -> notAbove a b = true.
Proof.
  intros Hz H1 H2.
  apply notAbove_cases in H1. apply notAbove_cases in H2.
  destruct H1 as [H1|[H1|H1]]; [apply notAbove_nan_l; exact H1 | congruence |].
  destruct H2 as [H2|[H2|H2]]; [congruence | apply notAbove_nan_r; exact H2 |].
  apply notAbove_leb. exact (order_trans _ _ _ H1 H2).
Qed.

(** Folding a lower bound in takes the larger demand. *)
Lemma fold_lower_demand (a c z : num) :
  notAbove (if ltb a c || Spec.isNaN a then c else a) z = true
  <-> notAbove a z = true /\ notAbove c z = true.
Proof.
  destruct (Spec.isNaN z) eqn:Ez.
  { rewrite !(@notAbove_nan_r _ z Ez). tauto. }
  destruct (Spec.isNaN a) eqn:Ea.
  { rewrite orb_true_r, (@notAbove_nan_l a z Ea). tauto. }
  rewrite orb_false_r. destruct (ltb a c) eqn:L.
  - split; [|tauto]. intro H. split; [|exact H].
    apply order_lt in L. destruct L as (L & _).
    destruct (order_number _ _ L) as (_ & Nc).
    apply notAbove_trans with c; [exact Nc | apply notAbove_leb; exact L | exact H].
  - split; [|tauto]. intro H. split; [exact H|].
    apply notAbove_gt in L.
    apply notAbove_trans with a; [exact Ea | exact L | exact H].
Qed.

(** Folding an upper bound in takes the smaller demand. *)
Lemma fold_upper_demand (b d z : num) :
  notAbove z (if ltb d b || Spec.isNaN b then d else b) = true
  <-> notAbove z b = true /\ notAbove z d = true.
Proof.
  destruct (Spec.isNaN z) eqn:Ez.
  { rewrite !(@notAbove_nan_l z _ Ez). tauto. }
  destruct (Spec.isNaN b) eqn:Eb.
  { rewrite orb_true_r, (@notAbove_nan_r z b Eb). tauto. }
  rewrite orb_false_r. destruct (ltb d b) eqn:L.
  - split; [|tauto]. intro H. split; [|exact H].
    apply order_lt in L. destruct L as (L & _).
    destruct (order_number _ _ L) as (Nd & _).
    apply notAbove_trans with d; [exact Nd | exact H | apply notAbove_leb; exact L].
  - split; [|tauto]. intro H. split; [exact H|].
    apply notAbove_gt in L.
    apply notAbove_trans with b; [exact Eb | exact H | exact L].
Qed.

(** Between a lower bound that is not above an upper bound, with the upper
    bound not negative, there is a number that is not negative. *)
Lemma between (m M : num) :
  notAbove m M = true -> ltb M Zero = false ->
  exists z, Spec.isNaN z = false /\ leb Zero z = true
            /\ notAbove m z = true /\ notAbove z M = true.
Proof.
  intros H B. pose proof order_zero as Z0.
  assert (R0 : leb Zero Zero = true) by (destruct (order_total _ _ Z0 Z0); assumption).
  destruct (Spec.isNaN M) eqn:EM.
  - destruct (Spec.isNaN m) eqn:Em.
    + exists Zero. repeat split; try assumption.
      * apply notAbove_nan_l; exact Em.
      * apply notAbove_nan_r; exact EM.
    + destruct (leb Zero m) eqn:L.
      * exists m. repeat split; try assumption. apply notAbove_refl.
      * exists Zero. repeat split; try assumption.
        -- apply notAbove_leb. destruct (order_total _ _ Z0 Em); congruence.
        -- apply notAbove_nan_r; exact EM.
  - exists M. repeat split; try assumption.
    + apply notAbove_gt in B. apply notAbove_cases in B.
      destruct B as [B|[B|B]]; congruence.
    + apply notAbove_refl.
Qed.

(** The three axes together: for intervals that are not inside out, the
    fold of the three accepts exactly when some number [z >= 0] meets the
    demands of all three. *)
Lemma boxOf_admits (X Y Z : num * num) :
  proper X = true -> proper Y = true -> proper Z = true ->
  (Spec.boxOf X Y Z <> None
   <-> exists z, Spec.isNaN z = false /\ leb Zero z = true
                 /\ admits X z = true /\ admits Y z = true /\ admits Z z = true).
Proof.
  destruct X as [a1 b1], Y as [a2 b2], Z as [a3 b3].
  unfold proper, admits. cbn [fst snd]. intros I1 I2 I3.
  unfold Spec.boxOf, Spec.disjoint, Spec.fold. cbn [fst snd].
  match goal with
  | |- context [ltb b3 ?x || ltb ?y a3] => set (m := x); set (M := y)
  end.
  match goal with
  | |- context [ltb ?y Zero] => set (M' := y)
  end.
  match goal with
  | |- context [leb Zero ?x] => set (m' := x)
  end.
  assert (Fm : forall z, notAbove m z = true
                         <-> notAbove a1 z = true /\ notAbove a2 z = true)
    by (intro z; exact (fold_lower_demand a1 a2 z)).
  assert (FM : forall z, notAbove z M = true
                         <-> notAbove z b1 = true /\ notAbove z b2 = true)
    by (intro z; exact (fold_upper_demand b1 b2 z)).
  assert (Fm' : forall z, notAbove m' z = true
                          <-> notAbove m z = true /\ notAbove a3 z = true)
    by (intro z; exact (fold_lower_demand m a3 z)).
  assert (FM' : forall z, notAbove z M' = true
                          <-> notAbove z M = true /\ notAbove z b3 = true)
    by (intro z; exact (fold_upper_demand M b3 z)).
  clearbody m M m' M'.
  split.
  - intro Hacc.
    destruct (ltb b2 a1) eqn:T1; [exfalso; apply Hacc; reflexivity|].
    destruct (ltb b1 a2) eqn:T2; [exfalso; apply Hacc; reflexivity|].
    destruct (ltb b3 m) eqn:T3; [exfalso; apply Hacc; reflexivity|].
    destruct (ltb M a3) eqn:T4; [exfalso; apply Hacc; reflexivity|].
    destruct (ltb M' Zero) eqn:T5; [exfalso; apply Hacc; reflexivity|].
    clear Hacc.
    apply notAbove_gt in T1, T2, T3, T4.
    assert (MM' : notAbove m' M' = true).
    { apply FM'. split.
      - apply Fm'. split; [|exact T4]. apply FM. split; apply Fm; auto.
      - apply Fm'. split; [exact T3 | exact I3]. }
    destruct (@between _ _ MM' T5) as (z & Nz & Pz & Lz & Uz).
    exists z. split; [exact Nz|]. split; [exact Pz|].
    apply Fm' in Lz. destruct Lz as (Lz & L3). apply Fm in Lz. destruct Lz as (L1 & L2).
    apply FM' in Uz. destruct Uz as (Uz & U3). apply FM in Uz. destruct Uz as (U1 & U2).
    rewrite L1, L2, L3, U1, U2, U3. repeat split; reflexivity.
  - intros (z & Nz & Pz & K1 & K2 & K3).
    apply andb_true_iff in K1, K2, K3.
    destruct K1 as (L1 & U1), K2 as (L2 & U2), K3 as (L3 & U3).
    assert (T1 : ltb b2 a1 = false)
      by (apply notAbove_gt, notAbove_trans with z; assumption).
    assert (T2 : ltb b1 a2 = false)
      by (apply notAbove_gt, notAbove_trans with z; assumption).
    assert (Lm : notAbove m z = true) by (apply Fm; auto).
    assert (UM : notAbove z M = true) by (apply FM; auto).
    assert (T3 : ltb b3 m = false)
      by (apply notAbove_gt, notAbove_trans with z; assumption).
    assert (T4 : ltb M a3 = false)
      by (apply notAbove_gt, notAbove_trans with z; assumption).
    assert (UM' : notAbove z M' = true) by (apply FM'; auto).
    assert (T5 : ltb M' Zero = false).
    { apply notAbove_gt, notAbove_trans with z;
        [exact Nz | apply notAbove_leb; exact Pz | exact UM']. }
    rewrite T1, T2, T3, T4, T5. simpl. discriminate.
Qed.
End OrderFacts.

(** *** The order of binary64 *)

(** [<=] on two finite numbers of the same format: by sign, then by
    exponent, then by mantissa. *)
Lemma SFleb_finite (s1 s2 : bool) (m1 m2 : positive) (e1 e2 : Z) :
  SFleb (S754_finite s1 m1 e1) (S754_finite s2 m2 e2) = true
  <-> match s1, s2 with
      | true, false => True
      | false, true => False
      | false, false => (e1 < e2 \/ (e1 = e2 /\ (m1 <= m2)%positive))%Z
      | true, true => (e2 < e1 \/ (e1 = e2 /\ (m2 <= m1)%positive))%Z
      end.
Proof.
  unfold SFleb, SFcompare.
  change (IntDef.Z.compare e1 e2) with (Z.compare e1 e2).
  change (PosDef.Pos.compare_cont Eq m1 m2) with (Pos.compare m1 m2).
  destruct s1, s2; try (split; [intros _; exact I | reflexivity]);
    try (split; [discriminate | contradiction]);
    destruct (Z.compare_spec e1 e2) as [E|E|E];
    try (destruct (Pos.compare_spec m1 m2) as [P|P|P]); simpl;
    split; intro H; try reflexivity; try discriminate H; try lia.
Qed.

Lemma SFleb_trans (a b c : spec_float) :
  SFleb a b = true -> SFleb b c = true -> SFleb a c = true.
Proof.
  destruct a as [sa|sa| |sa ma ea], b as [sb|sb| |sb mb eb],
    c as [sc|sc| |sc mc ec];
    try (rewrite !SFleb_finite; destruct sa, sb, sc; lia);
    unfold SFleb; simpl;
    repeat match goal with s : bool |- _ => destruct s end;
    simpl; intros; congruence.
Qed.

Lemma SFleb_number (a b : spec_float) :
  SFleb a b = true -> a <> S754_nan /\ b <> S754_nan.
Proof.
  unfold SFleb. destruct a, b; simpl; intro H; split; congruence.
Qed.

Lemma F64_number (a : float) :
  Spec.isNaN (N:=F64) a = false <-> Prim2SF a <> S754_nan.
Proof.
  rewrite <- F64_isNaN. destruct (Spec.isNaN (N:=F64) a); split; congruence.
Qed.

#[export] Instance F64_order : OrderLaws F64.
Proof.
  split.
  - intros a b. simpl. f64_compare a b.
  - intros a b Ha Hb. apply F64_number in Ha, Hb. simpl.
    pose proof (SFcompare_total Ha Hb) as C. revert C.
    rewrite !leb_spec. unfold SFleb.
    rewrite (SFcompare_swap (Prim2SF a) (Prim2SF b)).
    destruct (SFcompare (Prim2SF a) (Prim2SF b)) as [[]|]; simpl; auto.
  - intros a b c. simpl. rewrite !leb_spec. apply SFleb_trans.
  - intros a b. simpl. rewrite leb_spec, !F64_number. apply SFleb_number.
  - reflexivity.
Qed.

(** *** The order of the exact numbers *)

Lemma XQ_nan_classify (a : xq) :
  Spec.isNaN (N:=XQ) a = true <-> XQOps.classify a = XQOps.VNaN.
Proof.
  unfold Spec.isNaN. simpl. unfold XQOps.eqb.
  destruct a as [|s| |q]; simpl.
  - split; reflexivity.
  - rewrite eqb_reflx. split; discriminate.
  - split; discriminate.
  - assert (E : Qeq_bool q q = true) by (apply Qeq_bool_iff; reflexivity).
    rewrite E. split; discriminate.
Qed.

#[export] Instance XQ_order : OrderLaws XQ.
Proof.
  split.
  - intros a b. simpl. unfold XQOps.ltb, XQOps.leb.
    destruct (XQOps.classify a) as [|[]|? p], (XQOps.classify b) as [|[]|? q];
      simpl; try (intuition congruence).
    destruct (Qle_bool q p) eqn:E1, (Qle_bool p q) eqn:E2; simpl;
      try (intuition congruence).
    exfalso. qbool. lra.
  - intros a b Ha Hb. simpl.
    assert (Na : XQOps.classify a <> XQOps.VNaN)
      by (intro E; apply XQ_nan_classify in E; congruence).
    assert (Nb : XQOps.classify b <> XQOps.VNaN)
      by (intro E; apply XQ_nan_classify in E; congruence).
    unfold XQOps.leb.
    destruct (XQOps.classify a) as [|[]|? p], (XQOps.classify b) as [|[]|? q];
      simpl; try congruence; auto.
    destruct (Qle_bool p q) eqn:E; [left; reflexivity|right].
    qbool. lra.
  - intros a b c. simpl. unfold XQOps.leb.
    destruct (XQOps.classify a) as [|[]|? p], (XQOps.classify b) as [|[]|? q],
      (XQOps.classify c) as [|[]|? r]; simpl; try congruence.
    intros H1 H2. qbool. lra.
  - intros a b. simpl. intro H.
    assert (Na : XQOps.classify a <> XQOps.VNaN /\ XQOps.classify b <> XQOps.VNaN).
    { revert H. unfold XQOps.leb.
      destruct (XQOps.classify a) as [|[]|? p], (XQOps.classify b) as [|[]|? q];
        simpl; intro H; split; congruence. }
    destruct Na as (Na & Nb). rewrite <- XQ_nan_classify in Na, Nb.
    destruct (Spec.isNaN (N:=XQ) a), (Spec.isNaN (N:=XQ) b); split; congruence.
  - reflexivity.
Qed.

(** *** An axis the ray is parallel to, in binary64 *)

Section ZeroComponent64.
Import Slabs.
Local Open Scope float_scope.

(** The numbers that equal 0 are the two zeros. *)
Lemma F64_zero (d : float) : (d =? 0) = true -> d = 0 \/ d = -0.
Proof.
  rewrite eqb_spec. unfold SFeqb. intro H.
  destruct (Prim2SF d) as [s|s| |s m e] eqn:E; simpl in H;
    try discriminate H; try (destruct s; discriminate H).
  destruct s; [right|left]; apply Prim2SF_inj; rewrite E; reflexivity.
Qed.

(** A product with an infinity is an infinity or NaN. *)
Lemma times_infinity (x i : float) :
  i = infinity \/ i = neg_infinity -> unlimited (x * i) = true.
Proof.
  intro Hi.
  assert (Ei : exists s, Prim2SF i = S754_infinity s)
    by (destruct Hi; subst; [exists false|exists true]; reflexivity).
  destruct Ei as (s & Ei).
  assert (E : Prim2SF (x * i) = S754_nan \/ exists s', Prim2SF (x * i) = S754_infinity s').
  { rewrite mul_spec, Ei. destruct (Prim2SF x) as [sx|sx| |sx mx ex]; simpl;
      try (left; reflexivity); right; eexists; reflexivity. }
  unfold unlimited. destruct E as [E|(s' & E)].
  - apply is_nan_spec in E. rewrite E. reflexivity.
  - assert (V : x * i = infinity \/ x * i = neg_infinity).
    { destruct s'; [right|left]; apply Prim2SF_inj; rewrite E; reflexivity. }
    destruct V as [V|V]; rewrite V; reflexivity.
Qed.

(** An axis on which the direction is a zero: the reciprocal is the infinity
    with the sign of the zero, and both bounds of the interval are infinite
    or NaN, whatever the origin and the planes are. *)
Lemma slab_parallel (o d lo hi : float) :
  (d =? 0) = true ->
  let I := Spec.slab (N:=F64) o d lo hi in
  (d = 0 /\ 1 / d = infinity \/ d = -0 /\ 1 / d = neg_infinity)
  /\ unlimited (fst I) = true /\ unlimited (snd I) = true.
Proof.
  intros Hd I.
  assert (D : d = 0 /\ 1 / d = infinity \/ d = -0 /\ 1 / d = neg_infinity).
  { destruct (F64_zero Hd) as [E|E]; subst d; [left|right]; split; reflexivity. }
  split; [exact D|].
  assert (Hi : 1 / d = infinity \/ 1 / d = neg_infinity)
    by (destruct D as [(_ & E)|(_ & E)]; auto).
  subst I. unfold Spec.slab. cbn [One Zero div mul sub leb F64].
  match goal with
  | |- context [if ?c then _ else _] => destruct c
  end; cbn [fst snd]; split; apply times_infinity; exact Hi.
Qed.
End ZeroComponent64.

Section BoxClaim.
Import Exact Slabs.

(** C7, amended.  [Ray.intersectAABB] is a total function: it returns for
    every ray and box.  What it returns:

    - In any arithmetic with the IEEE order, binary64 included: when none of
      the three slab intervals is inside out, the answer is a hit exactly
      when some number [z >= 0] (an infinity is a number) meets the demands
      of all three intervals, a bound that is NaN demanding nothing.  So a
      NaN bound causes neither an accept nor a reject.
    - In binary64, on an axis on which the direction is a zero: the
      reciprocal is the infinity with the sign of the zero and each bound of
      the interval is an infinity or NaN, whatever the origin and the box.
    - In exact arithmetic, for a direction with a zero component that is not
      the zero vector and a box that is not inside out: the answer is a hit
      exactly when the ray meets the box.
    - The division of 1 by each zero, and the fold of a NaN bound: it is
      replaced by the bound of the axis folded in. *)
Theorem intersectAABB_zero_component :
  (forall (N : Number) (O : OrderLaws N) (ray : Ray.t) (box : AABB.t) (res : loc)
          (s : Store),
      let X := Spec.slabX ray box in
      let Y := Spec.slabY ray box in
      let Z := Spec.slabZ ray box in
      proper X = true -> proper Y = true -> proper Z = true ->
      (fst (Ray.intersectAABB ray box res s) <> None
       <-> exists z : num,
             Spec.isNaN z = false /\ leb Zero z = true
             /\ admits X z = true /\ admits Y z = true /\ admits Z z = true))
  /\ (forall o d lo hi : float,
        PrimFloat.eqb d 0 = true ->
        let I := Spec.slab (N:=F64) o d lo hi in
        (d = 0%float /\ (1 / d)%float = PrimFloat.infinity
         \/ d = (-0)%float /\ (1 / d)%float = PrimFloat.neg_infinity)
        /\ unlimited (fst I) = true /\ unlimited (snd I) = true)
  /\ (forall (ray : Ray.t (N:=XQ)) (box : AABB.t (N:=XQ)) (res : loc)
             (s : Store (N:=XQ)) (o d lo hi : point),
        located (Ray.origin ray) o -> located (Ray.direction ray) d ->
        located (AABB.min box) lo -> located (AABB.max box) hi ->
        ordered lo hi -> hasZeroComponent d -> ~ zeroVector d ->
        (fst (Ray.intersectAABB ray box res s) <> None <-> rayMeetsBox o d lo hi))
  /\ (@div XQ One Zero = XInf false
      /\ @div XQ One (neg Zero) = XInf true
      /\ @div F64 One Zero = PrimFloat.infinity
      /\ @div F64 One (neg Zero) = PrimFloat.neg_infinity)
  /\ (forall (N : Number) (I J : num * num),
        (Spec.isNaN (fst I) = true -> fst (Spec.fold I J) = fst J)
        /\ (Spec.isNaN (snd I) = true -> snd (Spec.fold I J) = snd J)).
Proof.
  split; [|split; [|split; [|split]]].
  - intros N O ray box res s X Y Z PX PY PZ.
    rewrite (runs_null (intersectAABB_run ray box res s)).
    unfold Spec.boxT. fold X Y Z. exact (@boxOf_admits N O X Y Z PX PY PZ).
  - exact slab_parallel.
  - intros ray box res s o d lo hi Ho Hd Hlo Hhi Hbox _ Hnz.
    exact (@intersectAABB_meets ray box res s o d lo hi Ho Hd Hlo Hhi Hbox Hnz).
  - repeat split; reflexivity.
  - intros N [a b] [c e]. unfold Spec.fold. cbn [fst snd].
    split; intro H; rewrite H, orb_true_r; reflexivity.
Qed.

(** A ray along +z in the plane x = 1 of the face of the unit box: on the x
    axis the upper bound is 0 * Infinity, NaN.  The y axis overwrites it; the
    number 4 meets all three intervals, so the code returns a point; and the
    ray does meet the box, along the face. *)
Lemma intersectAABB_zero_component_witness :
  let ray := Ray.mk (Example.vec 1 0.25 (-5)) (Example.vec 0 0 1) in
  Spec.slabX ray Example.unitBox = (PrimFloat.neg_infinity, PrimFloat.nan)
  /\ Spec.slabY ray Example.unitBox = (PrimFloat.neg_infinity, PrimFloat.infinity)
  /\ Spec.slabZ ray Example.unitBox = (4%float, 6%float)
  /\ fst (Ray.intersectAABB ray Example.unitBox result Example.zeroStore) <> None
  /\ rayMeetsBox (mkPoint 1 (1 # 4) (-5)) (mkPoint 0 0 1)
                 (mkPoint (-1) (-1) (-1)) (mkPoint 1 1 1).
Proof.
  destruct intersectAABB_zero_component as (Any & _ & Exactly & _).
  split; [vm_compute; reflexivity|]. split; [vm_compute; reflexivity|].
  split; [vm_compute; reflexivity|]. split.
  - apply (Any F64 F64_order (Ray.mk (Example.vec 1 0.25 (-5)) (Example.vec 0 0 1))
             Example.unitBox result Example.zeroStore);
      try (vm_compute; reflexivity).
    exists 4%float. repeat split; vm_compute; reflexivity.
  - apply (Exactly
             (Ray.mk (Example.qvec 1 (1 # 4) (-5)) (Example.qvec 0 0 1))
             (AABB.mk (Example.qvec (-1) (-1) (-1)) (Example.qvec 1 1 1))
             result Example.zeroStore
             (mkPoint 1 (1 # 4) (-5)) (mkPoint 0 0 1)
             (mkPoint (-1) (-1) (-1)) (mkPoint 1 1 1)).
    + repeat split; reflexivity.
    + repeat split; reflexivity.
    + repeat split; reflexivity.
    + repeat split; reflexivity.
    + repeat split; discriminate.
    + left. reflexivity.
    + intros (_ & _ & H). discriminate H.
    + vm_compute. discriminate.
Defined.

(** C7 as stated fails twice.  For the zero vector, which has three zero
    components: from (-5, 0, 0) the ray is the one point (-5, 0, 0), outside
    the unit box, yet the code returns [result] (holding NaN in every
    coordinate); from (5, 0, 0) it returns null; exact numbers and binary64
    agree.  And in binary64 for a direction that is not the zero vector: the
    ray [grazing] along (49, 0, 1) touches the box (0,0,0)-(1,1,0) at its
    corner (1, 0, 0), at t = 1, but the x interval ends at
    49 * (1 / 49) = 0.99999999999999989 and the z interval is [1, 1], so the
    code returns null; with exact numbers it returns a point. *)
Lemma intersectAABB_zero_vector_and_rounding :
  let box := AABB.mk (Example.qvec (-1) (-1) (-1)) (Example.qvec 1 1 1) in
  let out := Ray.intersectAABB (Ray.mk (Example.qvec (-5) 0 0) (Example.qvec 0 0 0))
               box result Example.zeroStore in
  let out64 := Ray.intersectAABB (Ray.mk (Example.vec (-5) 0 0) (Example.vec 0 0 0))
                 Example.unitBox result Example.zeroStore in
  let flat := AABB.mk (Example.vec 0 0 0) (Example.vec 1 1 0) in
  ((fst out = Some result /\ snd out result = Vector3.mk XNaN XNaN XNaN)
   /\ ~ rayMeetsBox (mkPoint (-5) 0 0) (mkPoint 0 0 0)
                     (mkPoint (-1) (-1) (-1)) (mkPoint 1 1 1)
   /\ (fst out64 = Some result
       /\ snd out64 result = Example.vec PrimFloat.nan PrimFloat.nan PrimFloat.nan)
   /\ fst (Ray.intersectAABB (Ray.mk (Example.vec 5 0 0) (Example.vec 0 0 0))
             Example.unitBox result Example.zeroStore) = None)
  /\ (Example.grazing = Ray.mk (Example.vec (-48) 0 (-1)) (Example.vec 49 0 1)
      /\ hasZeroComponent (mkPoint 49 0 1) /\ ~ zeroVector (mkPoint 49 0 1)
      /\ rayMeetsBox (mkPoint (-48) 0 (-1)) (mkPoint 49 0 1)
                     (mkPoint 0 0 0) (mkPoint 1 1 0)
      /\ fst (Ray.intersectAABB Example.grazing flat result Example.zeroStore) = None
      /\ fst (Ray.intersectAABB
                (Ray.mk (Example.qvec (-48) 0 (-1)) (Example.qvec 49 0 1))
                (AABB.mk (Example.qvec 0 0 0) (Example.qvec 1 1 0))
                result Example.zeroStore) = Some result).
Proof.
  cbv zeta. split.
  - split; [split; vm_compute; reflexivity|].
    split.
    + intros (t & _ & (H & _) & _). simpl in H. lra.
    + split; [split|]; vm_compute; reflexivity.
  - split; [reflexivity|]. split; [right; left; reflexivity|]. split.
    { intros (H & _). discriminate H. }
    split.
    { exists 1%Q. unfold within. simpl. repeat split; lra. }
    split; vm_compute; reflexivity.
Qed.
End BoxClaim.
